(** * Save-context reindexing, inherited-property propagation, Insomnia import
      and infra-config validation: a shallow embedding with proofs.

    The TypeScript sources are embedded function by function.  Numbers that
    the code uses as sibling positions are integers ([Z]); JavaScript [Map]s
    are finite maps ([gmap]); the shared tab registry reached through
    [getService(RESTTabService)] is an explicit [list Tab] that every
    operation receives and returns. *)

From Stdlib Require Import ZArith String Ascii List Bool Lia.
From stdpp Require Import gmap strings pretty list fin_maps.

Local Open Scope Z_scope.

(* ===================================================================== *)
(** ** JavaScript string primitives used by the sources                   *)
(* ===================================================================== *)

Module JS.

(** [s.split(sep)] for a one-character separator: never the empty array,
    ["".split("/")] is [[""]]. *)
Fixpoint split (sep : ascii) (s : string) : list string :=
  match s with
  | EmptyString => [EmptyString]
  | String c rest =>
      if Ascii.eqb c sep then EmptyString :: split sep rest
      else match split sep rest with
           | [] => [String c EmptyString]
           | w :: ws => String c w :: ws
           end
  end.

(** [xs.join(sep)]. *)
Definition join (sep : string) (xs : list string) : string :=
  String.concat sep xs.

(** [s.startsWith(p)]. *)
Definition startsWith (s p : string) : bool := String.prefix p s.

(** [xs.slice(0, -1)]. *)
Definition sliceInit {A} (xs : list A) : list A := removelast xs.

(** [xs.slice(-1)[0]] on an array of strings; [split] never returns the
    empty array, where JavaScript would give [undefined]. *)
Definition sliceLast (xs : list string) : string := List.last xs EmptyString.

(** [n.toString()] and a number inside a template literal, for integers. *)
Definition toString (n : Z) : string := pretty n.

(** The white space and line terminators that [parseInt] skips
    ([StrWhiteSpaceChar]).  A string of the model holds the UTF-8 bytes of
    the program's string, so a character outside ASCII is the two or three
    bytes of its encoding.

    One byte: tab, line feed, vertical tab, form feed, carriage return,
    space; the no-break space is accepted as the single code unit 160 as
    well. *)
Definition isWhiteSpace (c : ascii) : bool :=
  let n := nat_of_ascii c in
  (Nat.eqb n 32 || (Nat.leb 9 n && Nat.leb n 13) || Nat.eqb n 160)%bool.

(** Two bytes: U+00A0, the no-break space. *)
Definition isWhiteSpace2 (c1 c2 : ascii) : bool :=
  (Nat.eqb (nat_of_ascii c1) 194 && Nat.eqb (nat_of_ascii c2) 160)%bool.

(** Three bytes: U+1680; U+2000 to U+200A, the line and paragraph
    separators U+2028 and U+2029, U+202F; U+205F; U+3000; and U+FEFF, the
    byte order mark. *)
Definition isWhiteSpace3 (c1 c2 c3 : ascii) : bool :=
  let n1 := nat_of_ascii c1 in
  let n2 := nat_of_ascii c2 in
  let n3 := nat_of_ascii c3 in
  (Nat.eqb n1 225 && Nat.eqb n2 154 && Nat.eqb n3 128
   || Nat.eqb n1 226 && Nat.eqb n2 128
      && ((Nat.leb 128 n3 && Nat.leb n3 138)
          || Nat.eqb n3 168 || Nat.eqb n3 169 || Nat.eqb n3 175)
   || Nat.eqb n1 226 && Nat.eqb n2 129 && Nat.eqb n3 159
   || Nat.eqb n1 227 && Nat.eqb n2 128 && Nat.eqb n3 128
   || Nat.eqb n1 239 && Nat.eqb n2 187 && Nat.eqb n3 191)%bool.

Definition digitValue (radix : Z) (c : ascii) : option Z :=
  let n := Z.of_nat (nat_of_ascii c) in
  let d :=
    if (48 <=? n) && (n <=? 57) then Some (n - 48)
    else if (97 <=? n) && (n <=? 122) then Some (n - 87)
    else if (65 <=? n) && (n <=? 90) then Some (n - 55)
    else None in
  match d with
  | Some v => if v <? radix then Some v else None
  | None => None
  end.

(** The input without its leading white space. *)
Fixpoint skipWhiteSpace (s : string) : string :=
  match s with
  | String c1 rest1 =>
      if isWhiteSpace c1 then skipWhiteSpace rest1
      else
        match rest1 with
        | String c2 rest2 =>
            if isWhiteSpace2 c1 c2 then skipWhiteSpace rest2
            else
              match rest2 with
              | String c3 rest3 =>
                  if isWhiteSpace3 c1 c2 c3 then skipWhiteSpace rest3 else s
              | EmptyString => s
              end
        | EmptyString => s
        end
  | EmptyString => s
  end.

(** The longest run of digits of the radix, read left to right; [None]
    (JavaScript's [NaN]) when the run is empty. *)
Fixpoint readDigits (radix : Z) (acc : option Z) (s : string) : option Z :=
  match s with
  | String c rest =>
      match digitValue radix c with
      | Some d => readDigits radix (Some (radix * default 0 acc + d)) rest
      | None => acc
      end
  | EmptyString => acc
  end.

Definition readUnsigned (s : string) : option Z :=
  match s with
  | String "0" (String "x" rest) | String "0" (String "X" rest) =>
      readDigits 16 None rest
  | _ => readDigits 10 None s
  end.

(** [parseInt(s)] with no radix argument; [None] is [NaN].  Exact for
    results below 2^53. *)
Definition parseInt (s : string) : option Z :=
  match skipWhiteSpace s with
  | String "-" rest => Z.opp <$> readUnsigned rest
  | String "+" rest => readUnsigned rest
  | rest => readUnsigned rest
  end.

End JS.

(** The path idioms the sources repeat at each use. *)

(** [p.split("/")]. *)
Definition pathSegments (p : string) : list string := JS.split "/" p.

(** [requestID.split("/").slice(0, -1).join("/")]. *)
Definition collectionIDOf (requestID : string) : string :=
  JS.join "/" (JS.sliceInit (pathSegments requestID)).

(** [requestID.split("/").slice(-1)[0]]. *)
Definition trailingSegment (requestID : string) : string :=
  JS.sliceLast (pathSegments requestID).

(* ===================================================================== *)
(** ** Data model: auth, inherited properties, save contexts, tabs        *)
(* ===================================================================== *)

(** [HoppRESTAuth], with the variants the importer produces. *)
Inductive HoppRESTAuth :=
| AuthNone (authActive : bool)
| AuthInherit (authActive : bool)
| AuthBasic (authActive : bool) (username password : string)
| AuthBearer (authActive : bool) (token : string)
| AuthOAuth2 (authActive : bool)
    (accessTokenURL authURL clientID oidcDiscoveryURL scope token : string).

Record HoppRESTHeader := mkHeader {
  key : string;
  value : string;
  active : bool
}.

(** [HoppInheritedProperty]: the resolved auth with the path it came from,
    and the inherited headers, each tagged with its contributing path. *)
Record InheritedAuth := mkInheritedAuth {
  auth_parentID : string;
  auth_parentName : string;
  inheritedAuth : HoppRESTAuth
}.

Record InheritedHeaderEntry := mkInheritedHeader {
  parentID : string;
  parentName : string;
  inheritedHeader : option HoppRESTHeader
}.

Record HoppInheritedProperty := mkInherited {
  auth : InheritedAuth;
  headers : list InheritedHeaderEntry
}.

(** The save context of a tab's document, tagged by [originLocation].
    A document without one has [saveContext = None] ([null]/[undefined]). *)
Inductive SaveContext :=
| UserCollection (folderPath : string) (requestIndex : Z)
| WorkspaceUserCollection (collectionID requestID : string)
| TeamCollection (collectionID : option string) (requestID : string).

Record HoppDocument := mkDocument {
  saveContext : option SaveContext;
  isDirty : bool;
  inheritedProperties : option HoppInheritedProperty
}.

Record Tab := mkTab {
  tab_id : string;
  document : HoppDocument
}.

Definition setSaveContext (sc : option SaveContext) (tab : Tab) : Tab :=
  mkTab (tab_id tab)
    (mkDocument sc (isDirty (document tab))
       (inheritedProperties (document tab))).

Definition setIsDirty (b : bool) (tab : Tab) : Tab :=
  mkTab (tab_id tab)
    (mkDocument (saveContext (document tab)) b
       (inheritedProperties (document tab))).

Definition setInheritedProperties
    (ip : option HoppInheritedProperty) (tab : Tab) : Tab :=
  mkTab (tab_id tab)
    (mkDocument (saveContext (document tab)) (isDirty (document tab)) ip).

(** [tabService.getTabsRefTo(pred)] followed by [for (const tab of tabs) body]:
    the predicate is evaluated on every tab before the loop starts and the
    loop body writes only to the tab it is given, so the registry after the
    loop is the old one with [body] applied to the selected tabs. *)
Definition forTabsRefTo (pred : Tab → bool) (body : Tab → Tab)
    (tabs : list Tab) : list Tab :=
  (λ tab, if pred tab then body tab else tab) <$> tabs.

(* ===================================================================== *)
(** ** Affected-Index Calculator                                          *)
(* ===================================================================== *)

(** One run of a shifting loop: [n] iterations starting at [i], each doing
    [indexes.set(i, i - step)] and then moving [i] by [step]. *)
Fixpoint shiftLoop (step : Z) (n : nat) (i : Z) (indexes : gmap Z Z)
    : gmap Z Z :=
  match n with
  | O => indexes
  | S n' => shiftLoop step n' (i + step) (<[i := i - step]> indexes)
  end.

(** Modelled from the spec: [getAffectedIndexes] of [./affectedIndex], which
    both resolvers import and which is not among the sources.  The moved
    element maps [from → to]; every other position of the inclusive range
    between them shifts by one toward the vacated slot: when moving down
    ([from < to]) positions [from+1 .. to] each map to one less, otherwise
    positions [to .. from-1] each map to one more. *)
Definition getAffectedIndexes (from to : Z) : gmap Z Z :=
  let indexes := {[ from := to ]} in
  if from <? to
  then shiftLoop 1 (Z.to_nat (to - from)) (from + 1) indexes
  else shiftLoop (-1) (Z.to_nat (from - to)) (from - 1) indexes.

(* ===================================================================== *)
(** ** Reorder Resolver                                                   *)
(* ===================================================================== *)

Record ReorderPayload := mkPayload {
  lastIndex : Z;
  newIndex : Z;
  folderPath : string;
  payload_length : option Z   (* [length?: number] *)
}.

(** *** Request-level reorder ([helpers/collection/request.ts]) *)

(** The predicate handed to [getTabsRefTo]. *)
Definition requestReorderSelects (folderPath : string)
    (affectedIndexes : gmap Z Z) (tab : Tab) : bool :=
  match saveContext (document tab) with
  | Some (UserCollection fp requestIndex) =>
      String.eqb fp folderPath
      && bool_decide (is_Some (affectedIndexes !! requestIndex))
  | Some (WorkspaceUserCollection collectionID requestID) =>
      String.eqb collectionID folderPath
      && match JS.parseInt (trailingSegment requestID) with
         | Some n => bool_decide (is_Some (affectedIndexes !! n))
         | None => false
         end
  | _ => false
  end.

(** The loop body: only a [user-collection] save context is written.  On a
    selected tab [affectedIndexes.get(requestIndex)] is defined. *)
Definition requestReorderBody (affectedIndexes : gmap Z Z) (tab : Tab) : Tab :=
  match saveContext (document tab) with
  | Some (UserCollection fp requestIndex) =>
      match affectedIndexes !! requestIndex with
      | Some newIndex => setSaveContext (Some (UserCollection fp newIndex)) tab
      | None => tab
      end
  | _ => tab
  end.

(** [resolveSaveContextOnRequestReorder].  The result is [None] only when a
    deletion ([newIndex = -1]) comes without [length], which the calculator
    leaves undefined. *)
Definition resolveSaveContextOnRequestReorder (payload : ReorderPayload)
    (tabs : list Tab) : option (list Tab) :=
  let lastIndex := lastIndex payload in
  let folderPath := folderPath payload in
  let length := payload_length payload in
  let newIndex := newIndex payload in
  let newIndex := if newIndex >? lastIndex then newIndex - 1 else newIndex in
  if lastIndex =? newIndex then Some tabs else
  affectedIndexes ←
    (if newIndex =? -1
     then getAffectedIndexes lastIndex <$> length
     else Some (getAffectedIndexes lastIndex newIndex));
  let affectedIndexes :=
    if newIndex =? -1 then delete lastIndex affectedIndexes
    else affectedIndexes in
  Some (forTabsRefTo (requestReorderSelects folderPath affectedIndexes)
          (requestReorderBody affectedIndexes) tabs).

(** *** Save-context teardown ([resetSaveContextForAffectedRequests]) *)

(** The predicate shared by the teardown and the personal-workspace branch of
    the propagator: the save-context path [startsWith] the given path. *)
Definition savePathStartsWith (path : string) (tab : Tab) : bool :=
  match saveContext (document tab) with
  | Some (UserCollection fp _) => JS.startsWith fp path
  | Some (WorkspaceUserCollection _ requestID) =>
      JS.startsWith (collectionIDOf requestID) path
  | _ => false
  end.

Definition resetSaveContextForAffectedRequests (folderPath : string)
    (tabs : list Tab) : list Tab :=
  forTabsRefTo (savePathStartsWith folderPath)
    (λ tab, setIsDirty true (setSaveContext None tab)) tabs.

(** *** Folder/collection-level reorder ([resolveSaveContextOnCollectionReorder]) *)

Inductive ReorderType := Remove | Drop.

(** [folderPath ? `${folderPath}/${n}` : n.toString()]: the empty string is
    falsy. *)
Definition childPath (folderPath : string) (n : Z) : string :=
  match folderPath with
  | EmptyString => JS.toString n
  | _ => folderPath +:+ "/" +:+ JS.toString n
  end.

(** The loop that prefixes the affected indexes with the folder path.  The
    entries are visited in the map's own order; distinct indexes give
    distinct paths ([childPath_inj] below), so no [set] overwrites another
    and the order does not show in the result. *)
Definition affectedPathsOf (folderPath : string)
    (affectedIndexes : gmap Z Z) : gmap string string :=
  map_fold
    (λ key value affectedPaths,
       <[childPath folderPath key := childPath folderPath value]> affectedPaths)
    ∅ affectedIndexes.

Definition collectionReorderSelects (affectedPaths : gmap string string)
    (tab : Tab) : bool :=
  match saveContext (document tab) with
  | Some (UserCollection fp _) => bool_decide (is_Some (affectedPaths !! fp))
  | Some (WorkspaceUserCollection _ requestID) =>
      bool_decide (is_Some (affectedPaths !! collectionIDOf requestID))
  | _ => false
  end.

(** The loop body; on a selected tab both [affectedPaths.get] calls are
    defined. *)
Definition collectionReorderBody (affectedPaths : gmap string string)
    (tab : Tab) : Tab :=
  match saveContext (document tab) with
  | Some (UserCollection fp requestIndex) =>
      match affectedPaths !! fp with
      | Some newPath =>
          setSaveContext (Some (UserCollection newPath requestIndex)) tab
      | None => tab
      end
  | Some (WorkspaceUserCollection collectionID requestID) =>
      match affectedPaths !! collectionIDOf requestID with
      | Some newCollectionID =>
          let newRequestID :=
            newCollectionID +:+ "/" +:+ trailingSegment requestID in
          setSaveContext
            (Some (WorkspaceUserCollection collectionID newRequestID)) tab
      | None => tab
      end
  | _ => tab
  end.

Definition resolveSaveContextOnCollectionReorder (payload : ReorderPayload)
    (type : ReorderType) (tabs : list Tab) : option (list Tab) :=
  let lastIndex := lastIndex payload in
  let folderPath := folderPath payload in
  let length := payload_length payload in
  let newIndex := newIndex payload in
  let newIndex := if newIndex >? lastIndex then newIndex - 1 else newIndex in
  if lastIndex =? newIndex then Some tabs else
  affectedIndexes ←
    (if newIndex =? -1
     then getAffectedIndexes lastIndex <$> length
     else Some (getAffectedIndexes lastIndex newIndex));
  let '(affectedIndexes, tabs) :=
    if newIndex =? -1 then
      (delete lastIndex affectedIndexes,
       match type with
       | Remove =>
           resetSaveContextForAffectedRequests
             (childPath folderPath lastIndex) tabs
       | Drop => tabs
       end)
    else (affectedIndexes, tabs) in
  let affectedPaths := affectedPathsOf folderPath affectedIndexes in
  Some (forTabsRefTo (collectionReorderSelects affectedPaths)
          (collectionReorderBody affectedPaths) tabs).

(* ===================================================================== *)
(** ** Inherited-Property Propagator                                      *)
(* ===================================================================== *)

(** One of the two counting loops of [folderPathCloseToSaveContext]:
    [for (i = 0; i < pathArray.length; i++)
       if (pathArray[i] === saveContextArray[i]) count++].
    Beyond the end of [saveContextArray] the right-hand side is [undefined]
    and never equals a segment. *)
Definition matchCount (pathArray saveContextArray : list string) : nat :=
  foldl
    (λ count i,
       if bool_decide (pathArray !! i = saveContextArray !! i)
       then S count else count)
    O (seq 0 (List.length pathArray)).

(** [folderPathCurrent] is [string | undefined]; [undefined] and the empty
    string are both falsy. *)
Definition folderPathCloseToSaveContext (folderPathCurrent : option string)
    (newFolderPath saveContextPath : string) : string :=
  match folderPathCurrent with
  | None | Some EmptyString => newFolderPath
  | Some folderPathCurrent =>
      let folderPathCurrentArray := pathSegments folderPathCurrent in
      let newFolderPathArray := pathSegments newFolderPath in
      let saveContextFolderPathArray := pathSegments saveContextPath in
      let folderPathCurrentMatch :=
        matchCount folderPathCurrentArray saveContextFolderPathArray in
      let newFolderPathMatch :=
        matchCount newFolderPathArray saveContextFolderPathArray in
      if (newFolderPathMatch <? folderPathCurrentMatch)%nat
      then folderPathCurrent
      else newFolderPath
  end.

Inductive Workspace := Personal | Team.

(** The predicate handed to [getTabsRefTo], per workspace kind. *)
Definition propagationSelects (workspace : Workspace) (path : string)
    (tab : Tab) : bool :=
  match workspace with
  | Personal => savePathStartsWith path tab
  | Team =>
      match saveContext (document tab) with
      | Some (TeamCollection (Some collectionID) _) =>
          JS.startsWith collectionID path
      | _ => false
      end
  end.

(** [tab.value.document.inheritedProperties?.auth.parentID]. *)
Definition cachedAuthParentID (tab : Tab) : option string :=
  (λ ip, auth_parentID (auth ip)) <$> inheritedProperties (document tab).

(** The filter computing [tabsEffectedByAuth]. *)
Definition effectedByAuth (workspace : Workspace) (path : string)
    (tab : Tab) : bool :=
  match workspace with
  | Personal =>
      match saveContext (document tab) with
      | Some (UserCollection fp _) =>
          JS.startsWith fp path
          && String.eqb path
               (folderPathCloseToSaveContext (cachedAuthParentID tab) path fp)
      | Some (WorkspaceUserCollection _ requestID) =>
          let collectionID := collectionIDOf requestID in
          JS.startsWith collectionID path
          && String.eqb path
               (folderPathCloseToSaveContext (cachedAuthParentID tab) path
                  collectionID)
      | _ => false
      end
  | Team =>
      match saveContext (document tab) with
      | Some (TeamCollection (Some collectionID) _) =>
          JS.startsWith collectionID path
          && String.eqb path
               (folderPathCloseToSaveContext (cachedAuthParentID tab) path
                  collectionID)
      | _ => false
      end
  end.

(** The filter computing [tabsEffectedByHeaders]. *)
Definition effectedByHeaders (path : string) (tab : Tab) : bool :=
  match inheritedProperties (document tab) with
  | Some ip => existsb (λ header, String.eqb (parentID header) path) (headers ip)
  | None => false
  end.

(** [inheritedProperties.headers.find(h => h.inheritedHeader?.key ===
    header.inheritedHeader?.key)?.inheritedHeader]. *)
Definition refreshedHeader (inheritedProperties : HoppInheritedProperty)
    (header : InheritedHeaderEntry) : option HoppRESTHeader :=
  found ← List.find
    (λ candidate,
       bool_decide (key <$> inheritedHeader candidate
                    = key <$> inheritedHeader header))
    (headers inheritedProperties);
  inheritedHeader found.

(** The callback of [headers.map] in the second loop. *)
Definition refreshEntry (path : string)
    (inheritedProperties : HoppInheritedProperty)
    (header : InheritedHeaderEntry) : InheritedHeaderEntry :=
  if String.eqb (parentID header) path
  then mkInheritedHeader (parentID header) (parentName header)
         (refreshedHeader inheritedProperties header)
  else header.

(** Body of the second loop.  It reads the tab's inherited properties as the
    first loop left them. *)
Definition refreshHeaders (path : string)
    (newProperties : HoppInheritedProperty) (tab : Tab) : Tab :=
  match inheritedProperties (document tab) with
  | Some current =>
      setInheritedProperties
        (Some (mkInherited (auth current)
                 (refreshEntry path newProperties <$> headers current)))
        tab
  | None => tab
  end.

(** [updateInheritedPropertiesForAffectedRequests].  [type] only picks the
    tab service, whose tabs are the [tabs] argument here.  The three filters
    run on the tabs as they are on entry; then the auth loop, then the header
    loop. *)
Definition updateInheritedPropertiesForAffectedRequests (path : string)
    (newProperties : HoppInheritedProperty) (workspace : Workspace)
    (tabs : list Tab) : list Tab :=
  let selected := propagationSelects workspace path in
  let tabsEffectedByAuth tab :=
    selected tab && effectedByAuth workspace path tab in
  let tabsEffectedByHeaders tab :=
    selected tab && effectedByHeaders path tab in
  (λ tab,
     let afterAuth :=
       if tabsEffectedByAuth tab
       then setInheritedProperties (Some newProperties) tab
       else tab in
     if tabsEffectedByHeaders tab
     then refreshHeaders path newProperties afterAuth
     else afterAuth) <$> tabs.

(* ===================================================================== *)
(** ** Import Mapper ([import/insomnia.ts], [import/insomniaEnv.ts])      *)
(* ===================================================================== *)

Module Insomnia.

(** *** Templating rewrite: [/\{\{ _\.([^}]+) \}\}/g] to ["<<$1>>"] *)

(** The longest prefix without a closing brace, and what follows it. *)
Fixpoint spanNotBrace (s : string) : string * string :=
  match s with
  | String c rest =>
      if Ascii.eqb c "}" then (EmptyString, s)
      else let '(run, tail) := spanNotBrace rest in (String c run, tail)
  | EmptyString => (EmptyString, EmptyString)
  end.

(** A match of the pattern at the start of [s]: the captured name and the
    number of characters matched.  After ["{{ _."] the class [[^}]+] can
    only stop inside the brace-free run, and [" }}"] has to follow it, so
    the run must end in a space, be followed by ["}}"], and leave at
    least one character for the capture. *)
Definition matchTemplate (s : string) : option (string * nat) :=
  if String.prefix "{{ _." s then
    let '(run, tail) :=
      spanNotBrace (String.substring 5 (String.length s - 5) s) in
    let n := String.length run in
    if (Nat.leb 2 n
        && String.eqb (String.substring (n - 1) 1 run) " "
        && String.prefix "}}" tail)%bool
    then Some (String.substring 0 (n - 1) run, (5 + n + 2)%nat)
    else None
  else None.

(** The global replacement scans left to right; [skip] counts the
    characters of the current match still to be consumed. *)
Fixpoint replaceFrom (skip : nat) (s : string) : string :=
  match s with
  | EmptyString => EmptyString
  | String c rest =>
      match skip with
      | S skip' => replaceFrom skip' rest
      | O =>
          match matchTemplate s with
          | Some (name, len) =>
              "<<" +:+ name +:+ ">>" +:+ replaceFrom (len - 1) rest
          | None => String c (replaceFrom O rest)
          end
      end
  end.

Definition replaceInsomniaTemplating (expression : string) : string :=
  replaceFrom O expression.

Definition replaceVarTemplating (expression : string) : string :=
  replaceInsomniaTemplating expression.

(** [s.toUpperCase()] on ASCII letters. *)
Definition upperChar (c : ascii) : ascii :=
  let n := nat_of_ascii c in
  if (Nat.leb 97 n && Nat.leb n 122)%bool then ascii_of_nat (n - 32) else c.

Fixpoint toUpperCase (s : string) : string :=
  match s with
  | EmptyString => EmptyString
  | String c rest => String (upperChar c) (toUpperCase rest)
  end.

(** [s.toLowerCase()] on ASCII letters. *)
Definition lowerChar (c : ascii) : ascii :=
  let n := nat_of_ascii c in
  if (Nat.leb 65 n && Nat.leb n 90)%bool then ascii_of_nat (n + 32) else c.

Fixpoint toLowerCase (s : string) : string :=
  match s with
  | EmptyString => EmptyString
  | String c rest => String (lowerChar c) (toLowerCase rest)
  end.

(** *** The foreign resources (insomnia-importers' [ImportRequest]) *)

(** [parentId?: string | null]. *)
Inductive ParentId := ParentUndefined | ParentNull | ParentOf (id : string).

(** [InsoReqAuth] as the object it is at run time. *)
Record InsoReqAuth := mkInsoAuth {
  type : option string;
  disabled : option bool;
  username : option string;
  password : option string;
  accessTokenUrl : option string;
  authorizationUrl : option string;
  clientId : option string;
  scope : option string;
  token : option string
}.

Record InsoParam := mkInsoParam {
  param_name : string;
  param_value : option string;
  param_disabled : option bool
}.

Record InsoHeader := mkInsoHeader {
  header_name : string;
  header_value : string;
  header_disabled : option bool
}.

Inductive InsoBody :=
| BodyString (text : string)
| BodyObject (mimeType : option string) (params : option (list InsoParam))
    (text : option string).

Record InsomniaResource := mkResource {
  _id : option string;
  _type : string;
  parentId : ParentId;
  name : option string;
  method : option string;
  url : option string;
  authentication : option InsoReqAuth;
  body : option InsoBody;
  headers : option (list InsoHeader);
  parameters : option (list InsoParam)
}.

Record InsomniaDoc := mkDoc { resources : list InsomniaResource }.

(** *** The internal schema ([makeRESTRequest], [makeCollection]) *)

Record FormDataKeyValue := mkFormData {
  fd_key : string;
  fd_value : string;
  fd_active : bool;
  fd_isFile : bool
}.

Inductive HoppRESTReqBody :=
| ReqBodyNull                                   (* contentType null, body null *)
| ReqBodyText (contentType : string) (body : string)
| ReqBodyFormData (fields : list FormDataKeyValue).

Record HoppRESTParam := mkParam {
  p_key : string;
  p_value : string;
  p_active : bool
}.

Record HoppRESTRequest := makeRESTRequest {
  req_name : string;
  req_method : string;
  endpoint : string;
  req_auth : HoppRESTAuth;
  req_body : HoppRESTReqBody;
  req_headers : list HoppRESTHeader;
  req_params : list HoppRESTParam;
  preRequestScript : string;
  testScript : string
}.

#[warnings="-register-all"] Inductive HoppCollection :=
| makeCollection (name : string) (folders : list HoppCollection)
    (requests : list HoppRESTRequest) (auth : HoppRESTAuth)
    (headers : list HoppRESTHeader).

Definition coll_requests (c : HoppCollection) : list HoppRESTRequest :=
  match c with makeCollection _ _ requests _ _ => requests end.

Definition coll_folders (c : HoppCollection) : list HoppCollection :=
  match c with makeCollection _ folders _ _ _ => folders end.

(** *** The mapping *)

(** [x.parentId === (folder?._id ?? null)]. *)
Definition parentIs (folder : option InsomniaResource)
    (x : InsomniaResource) : bool :=
  match parentId x, folder ≫= _id with
  | ParentNull, None => true
  | ParentOf p, Some id => String.eqb p id
  | _, _ => false
  end.

Definition getFoldersIn (folder : option InsomniaResource)
    (resources : list InsomniaResource) : list InsomniaResource :=
  List.filter
    (λ x, (String.eqb (_type x) "request_group"
           || String.eqb (_type x) "workspace")
          && parentIs folder x)%bool
    resources.

Definition getRequestsIn (folder : option InsomniaResource)
    (resources : list InsomniaResource) : list InsomniaResource :=
  List.filter
    (λ x, (String.eqb (_type x) "request" && parentIs folder x)%bool)
    resources.

Definition getHoppReqAuth (req : InsomniaResource) : HoppRESTAuth :=
  match authentication req with
  | None => AuthNone true
  | Some auth =>
      if bool_decide (type auth = Some "basic") then
        AuthBasic true
          (replaceVarTemplating (default "" (username auth)))
          (replaceVarTemplating (default "" (password auth)))
      else if bool_decide (type auth = Some "oauth2") then
        AuthOAuth2 (negb (default false (disabled auth)))
          (replaceVarTemplating (default "" (accessTokenUrl auth)))
          (replaceVarTemplating (default "" (authorizationUrl auth)))
          (replaceVarTemplating (default "" (clientId auth)))
          ""
          (replaceVarTemplating (default "" (scope auth)))
          ""
      else if bool_decide (type auth = Some "bearer") then
        AuthBearer true (replaceVarTemplating (default "" (token auth)))
      else AuthNone true
  end.

Definition getHoppReqHeaders (req : InsomniaResource) : list HoppRESTHeader :=
  default []
    ((λ hs : list InsoHeader,
        (λ header,
           mkHeader (replaceVarTemplating (header_name header))
             (replaceVarTemplating (header_value header))
             (negb (default false (header_disabled header)))) <$> hs)
     <$> headers req).

Definition getHoppReqParams (req : InsomniaResource) : list HoppRESTParam :=
  default []
    ((λ ps : list InsoParam,
        (λ param,
           mkParam (replaceVarTemplating (param_name param))
             (replaceVarTemplating (default "" (param_value param)))
             (negb (default false (param_disabled param)))) <$> ps)
     <$> parameters req).

Section Mapping.

(** [Object.keys(knownContentTypes)] of [@hoppscotch/data]. *)
Variable knownContentTypes : list string.

(** [header.name.toLowerCase() === "content-type"]. *)
Definition isContentTypeHeader (header : InsoHeader) : bool :=
  String.eqb (toLowerCase (header_name header)) "content-type".

Definition getHoppReqBody (req : InsomniaResource) : HoppRESTReqBody :=
  match body req with
  | None | Some (BodyString EmptyString) => ReqBodyNull
  | Some (BodyString text) =>
      let contentType :=
        default "text/plain"
          (header_value <$>
             (headers req ≫= List.find isContentTypeHeader)) in
      ReqBodyText contentType (replaceVarTemplating text)
  | Some (BodyObject mimeType params text) =>
      if bool_decide (mimeType = Some "multipart/form-data") then
        ReqBodyFormData
          (default []
             ((λ ps : list InsoParam,
                 (λ param,
                    mkFormData (replaceVarTemplating (param_name param))
                      (replaceVarTemplating
                         (default "" (param_value param)))
                      (negb (default false (param_disabled param)))
                      false) <$> ps) <$> params))
      else if bool_decide
                (mimeType = Some "application/x-www-form-urlencoded") then
        ReqBodyText "application/x-www-form-urlencoded"
          (default ""
             ((λ ps : list InsoParam,
                 JS.join (String "010"%char EmptyString)
                   ((λ param,
                       replaceVarTemplating (param_name param) +:+ ": "
                       +:+ replaceVarTemplating
                             (default "" (param_value param)))
                    <$> List.filter
                          (λ param,
                             negb (default false (param_disabled param)))
                          ps)) <$> params))
      else if bool_decide
                (default "text/plain" mimeType ∈ knownContentTypes) then
        ReqBodyText (default "text/plain" mimeType)
          (replaceVarTemplating (default "" text))
      else ReqBodyNull
  end.

Definition getHoppRequest (req : InsomniaResource) : HoppRESTRequest :=
  makeRESTRequest
    (default "Untitled Request" (name req))
    (default "GET" (toUpperCase <$> method req))
    (replaceVarTemplating (default "" (url req)))
    (getHoppReqAuth req)
    (getHoppReqBody req)
    (getHoppReqHeaders req)
    (getHoppReqParams req)
    "" "".

(** [getHoppFolder] recurses through parent links of the flat resource
    list, which need not be well founded (a group may name itself as
    its parent); [fuel] bounds the depth and [None] means it ran out. *)
Fixpoint getHoppFolder (fuel : nat) (folderRes : InsomniaResource)
    (resources : list InsomniaResource) : option HoppCollection :=
  match fuel with
  | O => None
  | S fuel' =>
      folders ← mapM (λ f, getHoppFolder fuel' f resources)
                  (getFoldersIn (Some folderRes) resources);
      Some (makeCollection
              (default "" (name folderRes))
              folders
              (getHoppRequest <$> getRequestsIn (Some folderRes) resources)
              (AuthInherit true)
              [])
  end.

(** [docs.flatMap(doc => getFoldersIn(null, ...).map(getHoppFolder))]. *)
Definition getHoppCollections (fuel : nat) (docs : list InsomniaDoc)
    : option (list HoppCollection) :=
  mjoin <$>
    mapM (λ doc,
            mapM (λ f, getHoppFolder fuel f (resources doc))
              (getFoldersIn None (resources doc)))
      docs.

(** [convert] of insomnia-importers; [None] is a rejected promise. *)
Variable convert : string → option InsomniaDoc.

(** [TO.tryCatch(() => convert(content))]. *)
Definition parseInsomniaDoc (content : string) : option InsomniaDoc :=
  convert content.

(** [A.traverse(TO.ApplicativeSeq)(f)]: fp-ts folds the array from the
    left, and the sequential applicative runs [f a] only when everything
    before it succeeded. *)
Definition traverseSeq {A B} (f : A → option B) (xs : list A)
    : option (list B) :=
  foldl (λ fbs a, bs ← fbs; b ← f a; Some (bs ++ [b])) (Some []) xs.

Inductive ImporterError := IMPORTER_INVALID_FILE_FORMAT.

(** [hoppInsomniaImporter]: [inl] is the left of the [TaskEither].  The
    outer [option] is [None] only when [getHoppFolder] runs out of
    fuel. *)
Definition hoppInsomniaImporter (fuel : nat) (fileContents : list string)
    : option (ImporterError + list HoppCollection) :=
  match traverseSeq parseInsomniaDoc fileContents with
  | Some docs => inr <$> getHoppCollections fuel docs
  | None => Some (inl IMPORTER_INVALID_FILE_FORMAT)
  end.

End Mapping.

End Insomnia.

(* ===================================================================== *)
(** ** Infra-config service ([infra-config.service.ts])                   *)
(* ===================================================================== *)

Module InfraConfig.

(** The config names [validateEnvValues] switches on; every other member of
    [InfraConfigEnum] falls to the [default] branch. *)
Inductive InfraConfigEnum :=
| MAILER_SMTP_URL | MAILER_ADDRESS_FROM
| GOOGLE_CLIENT_ID | GOOGLE_CLIENT_SECRET | GOOGLE_CALLBACK_URL | GOOGLE_SCOPE
| GITHUB_CLIENT_ID | GITHUB_CLIENT_SECRET | GITHUB_CALLBACK_URL | GITHUB_SCOPE
| MICROSOFT_CLIENT_ID | MICROSOFT_CLIENT_SECRET | MICROSOFT_CALLBACK_URL
| MICROSOFT_SCOPE | MICROSOFT_TENANT
| OtherConfig (name : string).

#[global] Instance InfraConfigEnum_eq_dec : EqDecision InfraConfigEnum.
Proof. solve_decision. Defined.

Record InfraConfigArgs := mkArgs {
  name : InfraConfigEnum;
  value : string
}.

Inductive InfraConfigError :=
| INFRA_CONFIG_INVALID_INPUT
| INFRA_CONFIG_UPDATE_FAILED.

(** The [infra_config] table, one row per name, and the number of times
    [stopApp()] was called. *)
Record Backend := mkBackend {
  infraConfig : list InfraConfigArgs;
  stopAppCalls : nat
}.

(** [!value] on a string. *)
Definition isEmpty (s : string) : bool :=
  match s with EmptyString => true | _ => false end.

(** [tx.infraConfig.update({ where: { name }, data: { value } })]: throws
    ([None]) when no row has the name. *)
Definition updateRow (config : InfraConfigArgs)
    (rows : list InfraConfigArgs) : option (list InfraConfigArgs) :=
  if existsb (λ row, bool_decide (name row = name config)) rows
  then Some ((λ row, if bool_decide (name row = name config)
                     then mkArgs (name row) (value config) else row) <$> rows)
  else None.

Section Service.

(** [validateSMTPUrl], [validateSMTPEmail] and [validateUrl] of [src/utils]. *)
Variables validateSMTPUrl validateSMTPEmail validateUrl : string → bool.

(** One turn of the [switch] in [validateEnvValues]: [false] is the
    [return E.left(INFRA_CONFIG_INVALID_INPUT)], [true] the [break]. *)
Definition validateEnvValue (config : InfraConfigArgs) : bool :=
  match name config with
  | MAILER_SMTP_URL => validateSMTPUrl (value config)
  | MAILER_ADDRESS_FROM => validateSMTPEmail (value config)
  | GOOGLE_CLIENT_ID => negb (isEmpty (value config))
  | GOOGLE_CLIENT_SECRET => negb (isEmpty (value config))
  | GOOGLE_CALLBACK_URL => validateUrl (value config)
  | GOOGLE_SCOPE => negb (isEmpty (value config))
  | GITHUB_CLIENT_ID => negb (isEmpty (value config))
  | GITHUB_CLIENT_SECRET => negb (isEmpty (value config))
  | GITHUB_CALLBACK_URL => validateUrl (value config)
  | GITHUB_SCOPE => negb (isEmpty (value config))
  | MICROSOFT_CLIENT_ID => negb (isEmpty (value config))
  | MICROSOFT_CLIENT_SECRET => negb (isEmpty (value config))
  | MICROSOFT_CALLBACK_URL => validateUrl (value config)
  | MICROSOFT_SCOPE => negb (isEmpty (value config))
  | MICROSOFT_TENANT => negb (isEmpty (value config))
  | OtherConfig _ => true
  end.

(** [validateEnvValues]: the loop returns at the first invalid value. *)
Fixpoint validateEnvValues (infraConfigs : list InfraConfigArgs)
    : InfraConfigError + bool :=
  match infraConfigs with
  | [] => inr true
  | config :: rest =>
      if validateEnvValue config then validateEnvValues rest
      else inl INFRA_CONFIG_INVALID_INPUT
  end.

(** The body of the [$transaction] callback: the updates in order, stopping
    at the first one that throws. *)
Definition updateAll (infraConfigs : list InfraConfigArgs)
    (rows : list InfraConfigArgs) : option (list InfraConfigArgs) :=
  foldl (λ acc config, rows' ← acc; updateRow config rows')
    (Some rows) infraConfigs.

(** [updateMany].  A throw inside the transaction rolls it back, so the
    table is then the one on entry. *)
Definition updateMany (infraConfigs : list InfraConfigArgs)
    (world : Backend)
    : (InfraConfigError + list InfraConfigArgs) * Backend :=
  match validateEnvValues infraConfigs with
  | inl e => (inl e, world)
  | inr _ =>
      match updateAll infraConfigs (infraConfig world) with
      | Some rows =>
          (inr infraConfigs, mkBackend rows (S (stopAppCalls world)))
      | None => (inl INFRA_CONFIG_UPDATE_FAILED, world)
      end
  end.

End Service.

End InfraConfig.

(* ===================================================================== *)
(** ** Relocation, team reconciliation and tree lookup                    *)
(* ===================================================================== *)

Module JSReplace.

(** The first occurrence of [pattern] in [s]: what stands before it and
    what follows it; [None] when [s.indexOf(pattern)] is [-1]. *)
Fixpoint findFirst (pattern s : string) : option (string * string) :=
  if String.prefix pattern s
  then Some (EmptyString,
             String.substring (String.length pattern)
               (String.length s - String.length pattern) s)
  else match s with
       | EmptyString => None
       | String c rest =>
           match findFirst pattern rest with
           | Some (before, after) => Some (String c before, after)
           | None => None
           end
       end.

(** The replacement text of [replace] with a string pattern: [$$] is a
    dollar sign, [$&] the matched text, [$`] what stands before the match
    and [$'] what follows it; with no capture groups every other [$] stays
    as written. *)
Fixpoint getSubstitution (matched before after replacement : string) : string :=
  match replacement with
  | String "$" (String "$" rest) =>
      "$" +:+ getSubstitution matched before after rest
  | String "$" (String "&" rest) =>
      matched +:+ getSubstitution matched before after rest
  | String "$" (String "`" rest) =>
      before +:+ getSubstitution matched before after rest
  | String "$" (String "'" rest) =>
      after +:+ getSubstitution matched before after rest
  | String c rest => String c (getSubstitution matched before after rest)
  | EmptyString => EmptyString
  end.

(** [s.replace(pattern, replacement)] with both arguments strings: only the
    first occurrence is replaced. *)
Definition replace (s pattern replacement : string) : string :=
  match findFirst pattern s with
  | Some (before, after) =>
      before +:+ getSubstitution pattern before after replacement +:+ after
  | None => s
  end.

End JSReplace.

(** *** [updateSaveContextForAffectedRequests] *)

(** The loop body; the spread keeps every other field of the context. *)
Definition relocateBody (oldFolderPath newFolderPath : string) (tab : Tab)
    : Tab :=
  match saveContext (document tab) with
  | Some (UserCollection fp requestIndex) =>
      setSaveContext
        (Some (UserCollection
                 (JSReplace.replace fp oldFolderPath newFolderPath)
                 requestIndex)) tab
  | Some (WorkspaceUserCollection collectionID requestID) =>
      let newCollectionID :=
        JSReplace.replace (collectionIDOf requestID) oldFolderPath
          newFolderPath in
      let newRequestID :=
        newCollectionID +:+ "/" +:+ trailingSegment requestID in
      setSaveContext
        (Some (WorkspaceUserCollection collectionID newRequestID)) tab
  | _ => tab
  end.

(** The predicate handed to [getTabsRefTo] is the one of the teardown. *)
Definition updateSaveContextForAffectedRequests
    (oldFolderPath newFolderPath : string) (tabs : list Tab) : list Tab :=
  forTabsRefTo (savePathStartsWith oldFolderPath)
    (relocateBody oldFolderPath newFolderPath) tabs.

(** *** [resetTeamRequestsContext] *)

(** What [runGQLQuery] with [GetSingleRequestDocument] resolves to: a left,
    a right whose [request] is [null], or a right with a request. *)
Inductive SingleRequestResult := QueryLeft | RequestNull | RequestFound.

Section TeamReconciliation.

(** The backend's answer per request identifier. *)
Variable runGQLQuery : string → SingleRequestResult.

Definition isTeamTab (tab : Tab) : bool :=
  match saveContext (document tab) with
  | Some (TeamCollection _ _) => true
  | _ => false
  end.

Definition reconcileBody (tab : Tab) : Tab :=
  match saveContext (document tab) with
  | Some (TeamCollection _ requestID) =>
      match runGQLQuery requestID with
      | RequestNull => setIsDirty true (setSaveContext None tab)
      | _ => tab
      end
  | _ => tab
  end.

Definition resetTeamRequestsContext (tabs : list Tab) : list Tab :=
  forTabsRefTo isTeamTab reconcileBody tabs.

End TeamReconciliation.

(** *** [getRequestsByPath] and [getFoldersByPath] *)

(** [xs[i]] for [i] a number read by [parseInt]: [undefined] for [NaN], a
    negative index or one past the end. *)
Definition arrayAt {A} (xs : list A) (i : option Z) : option A :=
  match i with
  | Some n => if 0 <=? n then xs !! Z.to_nat n else None
  | None => None
  end.

(** One turn of the loop: [const folder = currentCollection.folders[i];
    if (folder) currentCollection = folder]. *)
Definition stepInto (currentCollection : Insomnia.HoppCollection)
    (i : option Z) : Insomnia.HoppCollection :=
  match arrayAt (Insomnia.coll_folders currentCollection) i with
  | Some folder => folder
  | None => currentCollection
  end.

(** [getRequestsByPath]; [None] is the [TypeError] of reading a property of
    [undefined], which happens when the first segment names no
    collection. *)
Definition getRequestsByPath (collections : list Insomnia.HoppCollection)
    (path : string) : option (list Insomnia.HoppRESTRequest) :=
  let pathArray := JS.parseInt <$> pathSegments path in
  currentCollection ← arrayAt collections (mjoin (head pathArray));
  if Nat.eqb (List.length pathArray) 1
  then Some (Insomnia.coll_requests currentCollection)
  else Some (Insomnia.coll_requests
               (foldl stepInto currentCollection (tail pathArray))).

Definition getFoldersByPath (collections : list Insomnia.HoppCollection)
    (path : string) : option (list Insomnia.HoppCollection) :=
  match path with
  | EmptyString => Some collections
  | _ =>
      let pathArray := JS.parseInt <$> pathSegments path in
      currentCollection ← arrayAt collections (mjoin (head pathArray));
      if Nat.eqb (List.length pathArray) 1
      then Some (Insomnia.coll_folders currentCollection)
      else Some (Insomnia.coll_folders
                   (foldl stepInto currentCollection (tail pathArray)))
  end.

(* ===================================================================== *)
(** ** Infra-config service: the remaining operations                     *)
(* ===================================================================== *)

Module InfraConfigOps.

Import InfraConfig.

(** Members of [InfraConfigEnum] outside the [switch] of
    [validateEnvValues]. *)
Definition IS_FIRST_TIME_INFRA_SETUP : InfraConfigEnum :=
  OtherConfig "IS_FIRST_TIME_INFRA_SETUP".
Definition VITE_ALLOWED_AUTH_PROVIDERS : InfraConfigEnum :=
  OtherConfig "VITE_ALLOWED_AUTH_PROVIDERS".
Definition ALLOW_ANALYTICS_COLLECTION : InfraConfigEnum :=
  OtherConfig "ALLOW_ANALYTICS_COLLECTION".

(** *** The table operations the service calls *)

Definition hasName (n : InfraConfigEnum) (row : InfraConfigArgs) : bool :=
  bool_decide (name row = n).

(** [findUniqueOrThrow({ where: { name } })]; [None] is the throw. *)
Definition findUnique (n : InfraConfigEnum) (rows : list InfraConfigArgs)
    : option InfraConfigArgs :=
  List.find (hasName n) rows.

(** [deleteMany({ where: { name: { in: names } } })]. *)
Definition deleteMany (names : list InfraConfigEnum)
    (rows : list InfraConfigArgs) : list InfraConfigArgs :=
  List.filter (λ row, negb (bool_decide (name row ∈ names))) rows.

(** [createMany({ data })]: [name] is the table's unique key (the service
    addresses rows with [update] and [findUniqueOrThrow] by name), so the
    insert throws ([None]) when it would repeat a name. *)
Definition createMany (data rows : list InfraConfigArgs)
    : option (list InfraConfigArgs) :=
  if bool_decide (NoDup (name <$> (rows ++ data)))
  then Some (rows ++ data) else None.

(** [cast]: the row as the [InfraConfig] model. *)
Definition cast (dbInfraConfig : InfraConfigArgs) : InfraConfigArgs :=
  mkArgs (name dbInfraConfig) (value dbInfraConfig).

Inductive LookupError := INFRA_CONFIG_NOT_FOUND.

(** [get]. *)
Definition get (n : InfraConfigEnum) (world : Backend)
    : LookupError + InfraConfigArgs :=
  match findUnique n (infraConfig world) with
  | Some infraConfig => inr (cast infraConfig)
  | None => inl INFRA_CONFIG_NOT_FOUND
  end.

(** [getMany]: [findMany] with [name in names] never throws for a missing
    name. *)
Definition getMany (names : list InfraConfigEnum) (world : Backend)
    : LookupError + list InfraConfigArgs :=
  inr (cast <$> List.filter (λ row, bool_decide (name row ∈ names))
                  (infraConfig world)).

(** [getInfraConfigsMap]: the rows folded into an object, a later row
    overwriting an earlier one of the same name. *)
Definition getInfraConfigsMap (rows : list InfraConfigArgs)
    : InfraConfigEnum → option string :=
  foldl (λ infraConfigMap config,
           λ k, if bool_decide (k = name config) then Some (value config)
                else infraConfigMap k)
    (λ _, None) rows.

Inductive AuthProvider := GOOGLE | GITHUB | MICROSOFT | EMAIL.

Inductive ServiceStatus := ENABLE | DISABLE.

Record EnableAndDisableSSOArgs := mkSSOArgs {
  provider : AuthProvider;
  status : ServiceStatus
}.

(** Truthiness of [configMap.X]: set and not the empty string. *)
Definition truthy (v : option string) : bool :=
  match v with
  | Some (String _ _) => true
  | _ => false
  end.

(** [isServiceConfigured], read as the condition it is used for. *)
Definition isServiceConfigured (service : AuthProvider)
    (configMap : InfraConfigEnum → option string) : bool :=
  match service with
  | GOOGLE =>
      truthy (configMap GOOGLE_CLIENT_ID)
      && truthy (configMap GOOGLE_CLIENT_SECRET)
      && truthy (configMap GOOGLE_CALLBACK_URL)
      && truthy (configMap GOOGLE_SCOPE)
  | GITHUB =>
      truthy (configMap GITHUB_CLIENT_ID)
      && truthy (configMap GITHUB_CLIENT_SECRET)
      && truthy (configMap GITHUB_CALLBACK_URL)
      && truthy (configMap GITHUB_SCOPE)
  | MICROSOFT =>
      truthy (configMap MICROSOFT_CLIENT_ID)
      && truthy (configMap MICROSOFT_CLIENT_SECRET)
      && truthy (configMap MICROSOFT_CALLBACK_URL)
      && truthy (configMap MICROSOFT_SCOPE)
      && truthy (configMap MICROSOFT_TENANT)
  | EMAIL =>
      truthy (configMap MAILER_SMTP_URL)
      && truthy (configMap MAILER_ADDRESS_FROM)
  end.

(** [[...new Set(xs)]]: the first occurrence of each element, in order. *)
Definition uniqueInOrder (xs : list string) : list string :=
  foldl (λ seen x, if bool_decide (x ∈ seen) then seen else seen ++ [x])
    [] xs.

Inductive SSOError :=
| AUTH_PROVIDER_NOT_SPECIFIED
| UpdateLeft (e : InfraConfigError).

(** What [enableAndDisableSSO] does: throw
    [INFRA_CONFIG_SERVICE_NOT_CONFIGURED], or return an either. *)
Inductive SSOOutcome :=
| ThrewServiceNotConfigured
| Returned (result : SSOError + bool).

Inductive ResetError := INFRA_CONFIG_RESET_FAILED.

(** What the first statement on the table meets: a reachable database, no
    database ([P1001]), or no [infra_config] table ([P2021]). *)
Inductive DbStatus := DbReachable | DbUnreachable | DbTableMissing.

Inductive InitError :=
| INFRA_CONFIG_NOT_LISTED
| DATABASE_TABLE_NOT_EXIST
| UniqueConstraintFailed.

(** [initializeInfraConfigTable] returns or throws. *)
Inductive InitOutcome := InitReturned | InitThrew (e : InitError).

Section Operations.

Variables validateSMTPUrl validateSMTPEmail validateUrl : string → bool.

(** [update]. *)
Definition update (n : InfraConfigEnum) (v : string) (restartEnabled : bool)
    (world : Backend) : (InfraConfigError + InfraConfigArgs) * Backend :=
  match validateEnvValues validateSMTPUrl validateSMTPEmail validateUrl
          [mkArgs n v] with
  | inl e => (inl e, world)
  | inr _ =>
      match updateRow (mkArgs n v) (infraConfig world) with
      | Some rows =>
          (inr (cast (mkArgs n v)),
           mkBackend rows
             (if restartEnabled then S (stopAppCalls world)
              else stopAppCalls world))
      | None => (inl INFRA_CONFIG_UPDATE_FAILED, world)
      end
  end.

(** [toggleAnalyticsCollection]. *)
Definition toggleAnalyticsCollection (s : ServiceStatus) (world : Backend)
    : (InfraConfigError + bool) * Backend :=
  match update ALLOW_ANALYTICS_COLLECTION
          (match s with ENABLE => "true" | DISABLE => "false" end)
          false world with
  | (inl e, world') => (inl e, world')
  | (inr isUpdated, world') => (inr (String.eqb (value isUpdated) "true"), world')
  end.

(** The string values of the [AuthProvider] enum ([src/auth/helper]) and
    [configService.get('INFRA.VITE_ALLOWED_AUTH_PROVIDERS')]. *)
Variable providerName : AuthProvider → string.
Variable allowedAuthProvidersEnv : string.

(** One turn of [providerInfo.forEach]; [None] is the throw, after which
    no further turn runs. *)
Definition ssoStep (infraConfigMap : InfraConfigEnum → option string)
    (acc : option (list string)) (info : EnableAndDisableSSOArgs)
    : option (list string) :=
  updatedAuthProviders ← acc;
  match status info with
  | ENABLE =>
      if isServiceConfigured (provider info) infraConfigMap
      then Some (updatedAuthProviders ++ [providerName (provider info)])
      else None
  | DISABLE =>
      Some (List.filter
              (λ p, negb (String.eqb p (providerName (provider info))))
              updatedAuthProviders)
  end.

(** [enableAndDisableSSO]. *)
Definition enableAndDisableSSO (providerInfo : list EnableAndDisableSSOArgs)
    (world : Backend) : SSOOutcome * Backend :=
  let allowedAuthProviders := JS.split "," allowedAuthProvidersEnv in
  let infraConfigMap := getInfraConfigsMap (infraConfig world) in
  match foldl (ssoStep infraConfigMap) (Some allowedAuthProviders)
          providerInfo with
  | None => (ThrewServiceNotConfigured, world)
  | Some updatedAuthProviders =>
      let updatedAuthProviders := uniqueInOrder updatedAuthProviders in
      if Nat.eqb (List.length updatedAuthProviders) 0
      then (Returned (inl AUTH_PROVIDER_NOT_SPECIFIED), world)
      else
        match update VITE_ALLOWED_AUTH_PROVIDERS
                (JS.join "," updatedAuthProviders) true world with
        | (inl e, world') => (Returned (inl (UpdateLeft e)), world')
        | (inr _, world') => (Returned (inr true), world')
        end
  end.

End Operations.

(** [reset], given what [getDefaultInfraConfigs()] resolves to.  The delete
    and the insert are separate statements: when the insert throws, the
    delete stays. *)
Definition reset (infraConfigDefaultObjs : list InfraConfigArgs)
    (world : Backend) : (ResetError + bool) * Backend :=
  let afterDelete :=
    deleteMany (name <$> infraConfigDefaultObjs) (infraConfig world) in
  let updatedInfraConfigDefaultObjs :=
    List.filter
      (λ obj, negb (bool_decide (name obj = IS_FIRST_TIME_INFRA_SETUP)))
      infraConfigDefaultObjs in
  match createMany
          (updatedInfraConfigDefaultObjs
             ++ [mkArgs IS_FIRST_TIME_INFRA_SETUP "true"])
          afterDelete with
  | Some rows => (inr true, mkBackend rows (S (stopAppCalls world)))
  | None =>
      (inl INFRA_CONFIG_RESET_FAILED,
       mkBackend afterDelete (stopAppCalls world))
  end.

(** [initializeInfraConfigTable], given [Object.values(InfraConfigEnum)],
    the defaults and what the database answers. *)
Definition initializeInfraConfigTable (enumValues : list InfraConfigEnum)
    (infraConfigDefaultObjs : list InfraConfigArgs) (db : DbStatus)
    (world : Backend) : InitOutcome * Backend :=
  if negb (Nat.eqb (List.length enumValues)
             (List.length infraConfigDefaultObjs))
  then (InitThrew INFRA_CONFIG_NOT_LISTED, world)
  else
    match db with
    | DbUnreachable => (InitReturned, world)
    | DbTableMissing => (InitThrew DATABASE_TABLE_NOT_EXIST, world)
    | DbReachable =>
        let dbInfraConfigs := infraConfig world in
        let propsToInsert :=
          List.filter
            (λ p, negb (existsb (λ e, bool_decide (name e = name p))
                          dbInfraConfigs))
            infraConfigDefaultObjs in
        if Nat.ltb 0 (List.length propsToInsert) then
          match createMany propsToInsert dbInfraConfigs with
          | Some rows =>
              (InitReturned, mkBackend rows (S (stopAppCalls world)))
          | None => (InitThrew UniqueConstraintFailed, world)
          end
        else (InitReturned, world)
    end.

End InfraConfigOps.

(* ===================================================================== *)
(** ** Notions used to state the properties                               *)
(* ===================================================================== *)

(** The path a personal-workspace save context designates: the folder path
    of a [user-collection] context, the collection prefix of the request
    identifier of a [workspace-user-collection] one. *)
Definition savePath (tab : Tab) : option string :=
  match saveContext (document tab) with
  | Some (UserCollection fp _) => Some fp
  | Some (WorkspaceUserCollection _ requestID) => Some (collectionIDOf requestID)
  | _ => None
  end.

(** The path the propagator compares against, per workspace kind. *)
Definition propagationPath (workspace : Workspace) (tab : Tab)
    : option string :=
  match workspace with
  | Personal => savePath tab
  | Team =>
      match saveContext (document tab) with
      | Some (TeamCollection collectionID _) => collectionID
      | _ => None
      end
  end.

(** A tab's state after the teardown loop body. *)
Definition tornDown (tab : Tab) : Tab := setIsDirty true (setSaveContext None tab).

(** The spec's wording of closeness, for comparison with [matchCount]: the
    length of the longest common prefix of two segment lists, which stops at
    the first disagreement. *)
Fixpoint commonPrefixLength (xs ys : list string) : nat :=
  match xs, ys with
  | x :: xs', y :: ys' =>
      if String.eqb x y then S (commonPrefixLength xs' ys') else O
  | _, _ => O
  end.

(** Tabs of the scenarios below. *)
Definition userTab (id folderPath : string) (requestIndex : Z) : Tab :=
  mkTab id (mkDocument (Some (UserCollection folderPath requestIndex)) false None).

Definition workspaceTab (id collectionID requestID : string) : Tab :=
  mkTab id
    (mkDocument (Some (WorkspaceUserCollection collectionID requestID))
       false None).

(** Closeness as the amended claim words it: the number of positions,
    counted from the root, at which a path holds the same segment as the
    save-context path.  Unlike [commonPrefixLength], the count goes on past
    a disagreement; a position beyond the end of either list does not
    count. *)
Fixpoint agreeingPositions (xs ys : list string) : nat :=
  match xs, ys with
  | x :: xs', y :: ys' =>
      ((if String.eqb x y then 1 else 0) + agreeingPositions xs' ys')%nat
  | _, _ => O
  end.

(** The cached inherited-auth source is strictly closer to the save-context
    path than the mutated path: it exists, is not the empty string, and
    holds the segment of the save-context path at more positions than
    [path] does. *)
Definition strictlyCloser (cached : option string)
    (path saveContextPath : string) : Prop :=
  ∃ current, cached = Some current ∧ current ≠ EmptyString
    ∧ (agreeingPositions (pathSegments path) (pathSegments saveContextPath)
       < agreeingPositions (pathSegments current)
           (pathSegments saveContextPath))%nat.

(** The same comparison on the counts of the two loops of
    [folderPathCloseToSaveContext]. *)
Definition cachedIsCloser (cached : option string) (path saveContextPath : string)
    : Prop :=
  ∃ current, cached = Some current ∧ current ≠ EmptyString
    ∧ (matchCount (pathSegments path) (pathSegments saveContextPath)
       < matchCount (pathSegments current) (pathSegments saveContextPath))%nat.

Definition inheritedFrom (parent : string) (entries : list InheritedHeaderEntry)
    : HoppInheritedProperty :=
  mkInherited (mkInheritedAuth parent "" (AuthNone true)) entries.

Definition headerEntry (parent key value : string) : InheritedHeaderEntry :=
  mkInheritedHeader parent "" (Some (mkHeader key value true)).

Definition tabWith (id folderPath : string) (ip : HoppInheritedProperty) : Tab :=
  mkTab id (mkDocument (Some (UserCollection folderPath 0)) false (Some ip)).

(** The import scenario: one top-level group holding one request whose
    auth is [{ type: "basic" }], nothing else set. *)
Definition scenarioGroup : Insomnia.InsomniaResource :=
  Insomnia.mkResource (Some "fld_1") "request_group" Insomnia.ParentNull
    (Some "Group") None None None None None None.

Definition scenarioRequest : Insomnia.InsomniaResource :=
  Insomnia.mkResource (Some "req_1") "request" (Insomnia.ParentOf "fld_1")
    (Some "Login") (Some "post") (Some "https://{{ _.host }}/login")
    (Some (Insomnia.mkInsoAuth (Some "basic") None None None None None None
             None None))
    None None None.

Definition scenarioDoc : Insomnia.InsomniaDoc :=
  Insomnia.mkDoc [scenarioGroup; scenarioRequest].

(** A [convert] that rejects the content ["not an export"] and reads every
    other content as the scenario document. *)
Definition scenarioConvert (content : string) : option Insomnia.InsomniaDoc :=
  if String.eqb content "not an export" then None else Some scenarioDoc.

(** A string without a slash: it is its own single path segment. *)
Definition noSlash (s : string) : Prop := pathSegments s = [s].

(** Whether a character occurs in a string. *)
Fixpoint occurs (c : ascii) (s : string) : bool :=
  match s with
  | EmptyString => false
  | String c' rest => Ascii.eqb c' c || occurs c rest
  end.

(** The collection the two tree lookups walk to: the first segment picks a
    root collection, each further segment steps into a folder where there is
    one. *)
Definition reachedCollection (collections : list Insomnia.HoppCollection)
    (path : string) : option Insomnia.HoppCollection :=
  let pathArray := JS.parseInt <$> pathSegments path in
  currentCollection ← arrayAt collections (mjoin (head pathArray));
  Some (foldl stepInto currentCollection (tail pathArray)).

(** A string of decimal digits only. *)
Fixpoint digitsOnly (s : string) : bool :=
  match s with
  | EmptyString => true
  | String c rest =>
      match JS.digitValue 10 c with
      | Some _ => digitsOnly rest
      | None => false
      end
  end.

(* ===================================================================== *)
(** * Properties                                                          *)
(* ===================================================================== *)

(** ** The Affected-Index Calculator, entry by entry *)

Lemma shiftLoop_up (n : nat) (i : Z) (m : gmap Z Z) (k : Z) :
  shiftLoop 1 n i m !! k
  = if bool_decide (i ≤ k < i + Z.of_nat n) then Some (k - 1) else m !! k.
Proof.
  revert i m. induction n as [|n IH]; intros i m; simpl.
  - rewrite bool_decide_eq_false_2 by lia. reflexivity.
  - rewrite IH. destruct (decide (k = i)) as [->|Hne].
    + rewrite bool_decide_eq_false_2 by lia.
      rewrite lookup_insert_eq, bool_decide_eq_true_2 by lia. reflexivity.
    + rewrite lookup_insert_ne by congruence.
      repeat case_bool_decide; try reflexivity; lia.
Qed.

Lemma shiftLoop_down (n : nat) (i : Z) (m : gmap Z Z) (k : Z) :
  shiftLoop (-1) n i m !! k
  = if bool_decide (i - Z.of_nat n < k ≤ i) then Some (k + 1) else m !! k.
Proof.
  revert i m. induction n as [|n IH]; intros i m; simpl.
  - rewrite bool_decide_eq_false_2 by lia. reflexivity.
  - rewrite IH. destruct (decide (k = i)) as [->|Hne].
    + rewrite bool_decide_eq_false_2 by lia.
      rewrite lookup_insert_eq, bool_decide_eq_true_2 by lia.
      f_equal; lia.
    + rewrite lookup_insert_ne by congruence.
      repeat case_bool_decide; try reflexivity; lia.
Qed.

Lemma getAffectedIndexes_lookup (from to k : Z) :
  getAffectedIndexes from to !! k
  = if bool_decide (k = from) then Some to
    else if bool_decide (from < k ≤ to) then Some (k - 1)
    else if bool_decide (to ≤ k < from) then Some (k + 1)
    else None.
Proof.
  unfold getAffectedIndexes. destruct (Z.ltb_spec from to).
  - rewrite shiftLoop_up.
    repeat case_bool_decide; subst;
      rewrite ?lookup_singleton_eq, ?lookup_singleton_ne by congruence;
      try reflexivity; lia.
  - rewrite shiftLoop_down.
    repeat case_bool_decide; subst;
      rewrite ?lookup_singleton_eq, ?lookup_singleton_ne by congruence;
      try reflexivity; lia.
Qed.

(** The map a deletion leaves after [affectedIndexes.delete(lastIndex)]. *)
Lemma deletion_indexes_lookup (lastIndex len k : Z) :
  lastIndex ≤ len →
  delete lastIndex (getAffectedIndexes lastIndex len) !! k
  = if bool_decide (lastIndex < k ≤ len) then Some (k - 1) else None.
Proof.
  intros Hle. destruct (decide (k = lastIndex)) as [->|Hne].
  - rewrite lookup_delete_eq, bool_decide_eq_false_2 by lia. reflexivity.
  - rewrite lookup_delete_ne by congruence.
    rewrite getAffectedIndexes_lookup.
    repeat case_bool_decide; try reflexivity; lia.
Qed.

(** ** The tab loop *)

Lemma forTabsRefTo_lookup pred body (tabs : list Tab) (i : nat) :
  forTabsRefTo pred body tabs !! i
  = (λ tab, if pred tab then body tab else tab) <$> tabs !! i.
Proof. unfold forTabsRefTo. apply list_lookup_fmap. Qed.

Lemma forTabsRefTo_length pred body (tabs : list Tab) :
  List.length (forTabsRefTo pred body tabs) = List.length tabs.
Proof. unfold forTabsRefTo. apply length_fmap. Qed.

Lemma forTabsRefTo_id pred body (tabs : list Tab) :
  (∀ tab, tab ∈ tabs → pred tab = true → body tab = tab) →
  forTabsRefTo pred body tabs = tabs.
Proof.
  intros H. unfold forTabsRefTo.
  induction tabs as [|tab tabs IH]; [reflexivity|].
  rewrite fmap_cons, IH by (intros; apply H; [right|]; assumption).
  destruct (pred tab) eqn:E; [|reflexivity].
  rewrite H; [reflexivity|left|assumption].
Qed.

Lemma requestReorderSelects_empty fp (tab : Tab) :
  requestReorderSelects fp ∅ tab = false.
Proof.
  unfold requestReorderSelects.
  destruct (saveContext (document tab)) as [[fp' i|cid rid|cid rid]|];
    try reflexivity.
  - rewrite lookup_empty, bool_decide_eq_false_2 by (intros [? ?]; discriminate).
    apply andb_false_r.
  - destruct (JS.parseInt _); [|apply andb_false_r].
    rewrite lookup_empty, bool_decide_eq_false_2 by (intros [? ?]; discriminate).
    apply andb_false_r.
Qed.

Lemma affectedPathsOf_empty fp : affectedPathsOf fp ∅ = ∅.
Proof. unfold affectedPathsOf. apply map_fold_empty. Qed.

Lemma collectionReorderSelects_empty (tab : Tab) :
  collectionReorderSelects ∅ tab = false.
Proof.
  unfold collectionReorderSelects.
  destruct (saveContext (document tab)) as [[fp' i|cid rid|cid rid]|];
    try reflexivity;
    rewrite lookup_empty; apply bool_decide_eq_false_2;
    intros [? ?]; discriminate.
Qed.

(** ** C1: the downward-move decrement and the no-op short circuit *)

(** C1.  With a destination past the source ([newIndex > lastIndex], the
    source being a position, so not negative) both resolvers compute the
    affected range from [newIndex - 1]; and when the
    adjusted destination equals [lastIndex] both return at once, leaving
    the tab registry exactly as it was.  An empty index map selects no tab
    in either resolver. *)
Theorem reorder_decrement_then_short_circuit
    (payload : ReorderPayload) (type : ReorderType) (tabs : list Tab) :
  (0 ≤ lastIndex payload →
   lastIndex payload < newIndex payload →
   lastIndex payload ≠ newIndex payload - 1 →
   resolveSaveContextOnRequestReorder payload tabs
   = Some (forTabsRefTo
             (requestReorderSelects (folderPath payload)
                (getAffectedIndexes (lastIndex payload) (newIndex payload - 1)))
             (requestReorderBody
                (getAffectedIndexes (lastIndex payload) (newIndex payload - 1)))
             tabs)
   ∧ resolveSaveContextOnCollectionReorder payload type tabs
     = Some (forTabsRefTo
               (collectionReorderSelects
                  (affectedPathsOf (folderPath payload)
                     (getAffectedIndexes (lastIndex payload)
                        (newIndex payload - 1))))
               (collectionReorderBody
                  (affectedPathsOf (folderPath payload)
                     (getAffectedIndexes (lastIndex payload)
                        (newIndex payload - 1))))
               tabs))
  ∧ ((if newIndex payload >? lastIndex payload
      then newIndex payload - 1 else newIndex payload) = lastIndex payload →
     resolveSaveContextOnRequestReorder payload tabs = Some tabs
     ∧ resolveSaveContextOnCollectionReorder payload type tabs = Some tabs)
  ∧ forTabsRefTo (requestReorderSelects (folderPath payload) ∅)
      (requestReorderBody ∅) tabs = tabs
  ∧ forTabsRefTo
      (collectionReorderSelects (affectedPathsOf (folderPath payload) ∅))
      (collectionReorderBody (affectedPathsOf (folderPath payload) ∅)) tabs
    = tabs.
Proof.
  split; [|split; [|split]].
  - intros Hpos Hlt Hne.
    unfold resolveSaveContextOnRequestReorder,
      resolveSaveContextOnCollectionReorder.
    destruct (Z.gtb_spec (newIndex payload) (lastIndex payload)); [|lia].
    destruct (Z.eqb_spec (lastIndex payload) (newIndex payload - 1)); [lia|].
    destruct (Z.eqb_spec (newIndex payload - 1) (-1)); [lia|].
    split; reflexivity.
  - intros Heq.
    unfold resolveSaveContextOnRequestReorder,
      resolveSaveContextOnCollectionReorder.
    rewrite Heq, Z.eqb_refl. split; reflexivity.
  - apply forTabsRefTo_id. intros tab _ Hsel.
    rewrite requestReorderSelects_empty in Hsel. discriminate.
  - apply forTabsRefTo_id. intros tab _ Hsel.
    rewrite affectedPathsOf_empty, collectionReorderSelects_empty in Hsel.
    discriminate.
Qed.

Lemma reorder_decrement_then_short_circuit_witness :
  resolveSaveContextOnRequestReorder (mkPayload 1 3 "0" None)
    [userTab "a" "0" 2; userTab "b" "0" 3]
  = Some [userTab "a" "0" 1; userTab "b" "0" 3]
  ∧ resolveSaveContextOnCollectionReorder (mkPayload 1 2 "0" None) Drop
      [userTab "a" "0/2" 0]
    = Some [userTab "a" "0/2" 0].
Proof.
  split.
  - destruct (reorder_decrement_then_short_circuit (mkPayload 1 3 "0" None)
                Drop [userTab "a" "0" 2; userTab "b" "0" 3]) as [Hdec _].
    destruct Hdec as [-> _]; [simpl; lia|simpl; lia|simpl; lia|].
    vm_compute. reflexivity.
  - destruct (reorder_decrement_then_short_circuit (mkPayload 1 2 "0" None)
                Drop [userTab "a" "0/2" 0]) as (_ & Hnoop & _).
    destruct Hnoop as [_ ->]; reflexivity.
Defined.

(** ** Paths and the affected-path map *)

Lemma childPath_inj (folderPath : string) (a b : Z) :
  childPath folderPath a = childPath folderPath b → a = b.
Proof.
  unfold childPath, JS.toString. destruct folderPath as [|c fp].
  - apply pretty_Z_inj.
  - intros H. apply (inj (String.append (String c fp))) in H.
    apply (inj (String.append "/")) in H.
    by apply pretty_Z_inj.
Qed.

Lemma affectedPathsOf_Some (folderPath : string) (m : gmap Z Z) (p q : string) :
  affectedPathsOf folderPath m !! p = Some q
  ↔ ∃ k v, m !! k = Some v
           ∧ p = childPath folderPath k ∧ q = childPath folderPath v.
Proof.
  unfold affectedPathsOf. revert p q.
  apply (map_fold_weak_ind
    (λ (r : gmap string string) (m : gmap Z Z),
       ∀ p q, r !! p = Some q
              ↔ ∃ k v, m !! k = Some v
                       ∧ p = childPath folderPath k
                       ∧ q = childPath folderPath v)).
  - intros p q. rewrite lookup_empty. split; [discriminate|].
    intros (k & v & Hk & _). rewrite lookup_empty in Hk. discriminate.
  - intros i x m' r Hi IH p q. split.
    + destruct (decide (p = childPath folderPath i)) as [->|Hne].
      * rewrite lookup_insert_eq. intros [= <-].
        exists i, x. by rewrite lookup_insert_eq.
      * rewrite lookup_insert_ne by congruence.
        intros (k & v & Hk & -> & ->)%IH.
        exists k, v. rewrite lookup_insert_ne by congruence. done.
    + intros (k & v & Hk & -> & ->).
      destruct (decide (k = i)) as [->|Hne].
      * rewrite lookup_insert_eq in Hk. injection Hk as ->.
        by rewrite lookup_insert_eq.
      * rewrite lookup_insert_ne in Hk by congruence.
        rewrite lookup_insert_ne
          by (intros ?%childPath_inj; congruence).
        apply IH. eauto.
Qed.

Lemma affectedPathsOf_child (folderPath : string) (m : gmap Z Z) (k : Z) :
  affectedPathsOf folderPath m !! childPath folderPath k
  = childPath folderPath <$> m !! k.
Proof.
  apply option_eq. intros q. rewrite affectedPathsOf_Some. split.
  - intros (k' & v & Hk & ->%childPath_inj & ->). by rewrite Hk.
  - destruct (m !! k) as [v|] eqn:E; [|discriminate].
    intros [= <-]. eauto.
Qed.

Lemma prefix_append (p rest : string) : String.prefix p (p +:+ rest) = true.
Proof.
  induction p as [|c p IH]; simpl; [by destruct rest|].
  destruct (ascii_dec c c); [assumption|congruence].
Qed.

Lemma prefix_append_l (p q s : string) :
  String.prefix (p +:+ q) s = true → String.prefix p s = true.
Proof.
  revert s. induction p as [|c p IH]; intros s; simpl; [by destruct s|].
  destruct s as [|c' s]; simpl; [discriminate|].
  destruct (ascii_dec c c'); [apply IH|discriminate].
Qed.

Lemma prefix_refl (p : string) : String.prefix p p = true.
Proof.
  induction p as [|c p IH]; simpl; [reflexivity|].
  destruct (ascii_dec c c); [assumption|congruence].
Qed.

(** ** What a deletion runs *)

Lemma deletion_unfolds (lastIndex len : Z) (folderPath : string)
    (type : ReorderType) (tabs : list Tab) :
  0 ≤ lastIndex →
  resolveSaveContextOnRequestReorder
    (mkPayload lastIndex (-1) folderPath (Some len)) tabs
  = Some (forTabsRefTo
            (requestReorderSelects folderPath
               (delete lastIndex (getAffectedIndexes lastIndex len)))
            (requestReorderBody
               (delete lastIndex (getAffectedIndexes lastIndex len))) tabs)
  ∧ resolveSaveContextOnCollectionReorder
      (mkPayload lastIndex (-1) folderPath (Some len)) type tabs
    = Some (forTabsRefTo
              (collectionReorderSelects
                 (affectedPathsOf folderPath
                    (delete lastIndex (getAffectedIndexes lastIndex len))))
              (collectionReorderBody
                 (affectedPathsOf folderPath
                    (delete lastIndex (getAffectedIndexes lastIndex len))))
              (match type with
               | Remove =>
                   resetSaveContextForAffectedRequests
                     (childPath folderPath lastIndex) tabs
               | Drop => tabs
               end)).
Proof.
  intros Hpos.
  unfold resolveSaveContextOnRequestReorder,
    resolveSaveContextOnCollectionReorder. simpl.
  destruct (Z.gtb_spec (-1) lastIndex); [lia|].
  destruct (Z.eqb_spec lastIndex (-1)); [lia|].
  simpl. split; reflexivity.
Qed.

(** ** C2: the index map of a deletion *)

(** C2, as amended.  For a deletion ([newIndex = -1]) of position
    [lastIndex] with [length = len], both resolvers consume the map whose
    keys are exactly [lastIndex+1 .. len] (the inclusive range reaches
    [len] itself), each mapped to one less than itself; [lastIndex] is
    absent. *)
Theorem deletion_affected_indexes
    (lastIndex len : Z) (folderPath : string) (type : ReorderType)
    (tabs : list Tab) :
  0 ≤ lastIndex → lastIndex ≤ len →
  ∃ affectedIndexes : gmap Z Z,
    (∀ k, affectedIndexes !! k
          = if bool_decide (lastIndex < k ≤ len) then Some (k - 1) else None)
    ∧ dom affectedIndexes = list_to_set (seqZ (lastIndex + 1) (len - lastIndex))
    ∧ affectedIndexes !! lastIndex = None
    ∧ resolveSaveContextOnRequestReorder
        (mkPayload lastIndex (-1) folderPath (Some len)) tabs
      = Some (forTabsRefTo (requestReorderSelects folderPath affectedIndexes)
                (requestReorderBody affectedIndexes) tabs)
    ∧ resolveSaveContextOnCollectionReorder
        (mkPayload lastIndex (-1) folderPath (Some len)) type tabs
      = Some (forTabsRefTo
                (collectionReorderSelects
                   (affectedPathsOf folderPath affectedIndexes))
                (collectionReorderBody
                   (affectedPathsOf folderPath affectedIndexes))
                (match type with
                 | Remove =>
                     resetSaveContextForAffectedRequests
                       (childPath folderPath lastIndex) tabs
                 | Drop => tabs
                 end)).
Proof.
  intros Hpos Hle.
  exists (delete lastIndex (getAffectedIndexes lastIndex len)).
  split; [intros k; by apply deletion_indexes_lookup|].
  split.
  { apply set_eq. intros k.
    rewrite elem_of_dom, elem_of_list_to_set, elem_of_seqZ.
    rewrite deletion_indexes_lookup by assumption.
    case_bool_decide; split; try lia; intros H'; try by eexists.
    all: by destruct H'. }
  split; [apply lookup_delete_eq|].
  by apply deletion_unfolds.
Qed.

Lemma deletion_affected_indexes_witness :
  ∃ affectedIndexes : gmap Z Z,
    affectedIndexes !! 3 = Some 2
    ∧ resolveSaveContextOnRequestReorder (mkPayload 1 (-1) "0" (Some 3))
        [userTab "a" "0" 3]
      = Some (forTabsRefTo (requestReorderSelects "0" affectedIndexes)
                (requestReorderBody affectedIndexes) [userTab "a" "0" 3]).
Proof.
  destruct (deletion_affected_indexes 1 3 "0" Remove [userTab "a" "0" 3])
    as (m & Hm & _ & _ & Hreq & _); [lia|lia|].
  exists m. split; [|exact Hreq].
  rewrite Hm. reflexivity.
Defined.

(** C2 as stated fails: with [lastIndex = 1] and [length = 3] the key [3]
    lies outside [lastIndex+1 .. length-1], yet the map sends it to [2], and
    a tab at request index [3] is rewritten accordingly. *)
Lemma deletion_indexes_reach_length :
  delete 1 (getAffectedIndexes 1 3) !! 3 = Some 2
  ∧ ¬ (1 + 1 ≤ 3 ≤ 3 - 1)
  ∧ resolveSaveContextOnRequestReorder (mkPayload 1 (-1) "0" (Some 3))
      [userTab "a" "0" 3]
    = Some [userTab "a" "0" 2].
Proof.
  split; [|split].
  - rewrite deletion_indexes_lookup by lia. reflexivity.
  - lia.
  - vm_compute. reflexivity.
Qed.

(** ** C3: teardown on collection deletion *)

Lemma savePathStartsWith_savePath (path : string) (tab : Tab) :
  savePathStartsWith path tab
  = match savePath tab with
    | Some sp => JS.startsWith sp path
    | None => false
    end.
Proof.
  unfold savePathStartsWith, savePath.
  by destruct (saveContext (document tab)) as [[| |]|].
Qed.

Lemma collectionReorderSelects_tornDown affectedPaths (tab : Tab) :
  collectionReorderSelects affectedPaths (tornDown tab) = false.
Proof. reflexivity. Qed.

Lemma deletion_paths_lookup (folderPath : string) (lastIndex len : Z)
    (p q : string) :
  lastIndex ≤ len →
  affectedPathsOf folderPath
    (delete lastIndex (getAffectedIndexes lastIndex len)) !! p = Some q
  ↔ ∃ k, lastIndex < k ≤ len
         ∧ p = childPath folderPath k ∧ q = childPath folderPath (k - 1).
Proof.
  intros Hle. rewrite affectedPathsOf_Some. split.
  - intros (k & v & Hk & -> & ->).
    rewrite deletion_indexes_lookup in Hk by assumption.
    case_bool_decide; [|discriminate]. injection Hk as <-. eauto.
  - intros (k & Hk & -> & ->). exists k, (k - 1).
    rewrite deletion_indexes_lookup by assumption.
    by rewrite bool_decide_eq_true_2.
Qed.

(** C3, as amended.  Deleting the collection at [folderPath/lastIndex] in
    mode [Remove] first runs the teardown and then reindexes the remaining
    siblings.  Every tab whose save-context path is the deleted path or
    lies under it ends with no save context and the dirty flag set.  A tab
    whose save-context path does not start with the deleted path is left as
    it is by the teardown; the reindexing then rewrites it exactly when its
    path is a key of the affected-path map, whose entries send each later
    sibling [folderPath/k] to [folderPath/(k-1)]: a personal tab at
    [folderPath/k] ends at [folderPath/(k-1)] with its request index, a
    workspace-relative request in [folderPath/k] ends with the identifier
    [folderPath/(k-1)/segment], [segment] being the trailing segment it had,
    and a tab whose path is no later sibling stays as it was. *)
Theorem collection_deletion_teardown_then_reindex
    (lastIndex len : Z) (folderPath : string) (tabs : list Tab) :
  0 ≤ lastIndex → lastIndex ≤ len →
  ∃ (affectedPaths : gmap string string) (result : list Tab),
    resolveSaveContextOnCollectionReorder
      (mkPayload lastIndex (-1) folderPath (Some len)) Remove tabs
    = Some result
    ∧ result
      = forTabsRefTo (collectionReorderSelects affectedPaths)
          (collectionReorderBody affectedPaths)
          (resetSaveContextForAffectedRequests
             (childPath folderPath lastIndex) tabs)
    ∧ (∀ p q, affectedPaths !! p = Some q
              ↔ ∃ k, lastIndex < k ≤ len
                     ∧ p = childPath folderPath k
                     ∧ q = childPath folderPath (k - 1))
    ∧ ∀ (i : nat) (tab : Tab), tabs !! i = Some tab →
        (∀ sp, savePath tab = Some sp →
               sp = childPath folderPath lastIndex
               ∨ JS.startsWith sp (childPath folderPath lastIndex +:+ "/") = true →
               result !! i = Some (tornDown tab))
        ∧ (savePathStartsWith (childPath folderPath lastIndex) tab = false →
           resetSaveContextForAffectedRequests
             (childPath folderPath lastIndex) tabs !! i = Some tab
           ∧ result !! i
             = Some (if collectionReorderSelects affectedPaths tab
                     then collectionReorderBody affectedPaths tab
                     else tab)
           ∧ (∀ k requestIndex,
                lastIndex < k ≤ len →
                saveContext (document tab)
                = Some (UserCollection (childPath folderPath k) requestIndex) →
                result !! i
                = Some (mkTab (tab_id tab)
                          (mkDocument
                             (Some (UserCollection
                                      (childPath folderPath (k - 1))
                                      requestIndex))
                             (isDirty (document tab))
                             (inheritedProperties (document tab)))))
           ∧ (∀ k collectionID requestID,
                lastIndex < k ≤ len →
                saveContext (document tab)
                = Some (WorkspaceUserCollection collectionID requestID) →
                collectionIDOf requestID = childPath folderPath k →
                result !! i
                = Some (mkTab (tab_id tab)
                          (mkDocument
                             (Some (WorkspaceUserCollection collectionID
                                      (childPath folderPath (k - 1) +:+ "/"
                                       +:+ trailingSegment requestID)))
                             (isDirty (document tab))
                             (inheritedProperties (document tab)))))
           ∧ ((∀ k, lastIndex < k ≤ len →
                    savePath tab ≠ Some (childPath folderPath k)) →
              result !! i = Some tab)).
Proof.
  intros Hpos Hle.
  destruct (deletion_unfolds lastIndex len folderPath Remove tabs Hpos)
    as [_ Hcoll].
  pose proof (λ p q, deletion_paths_lookup folderPath lastIndex len p q Hle)
    as Hpaths.
  eexists _, _. split; [exact Hcoll|]. split; [reflexivity|].
  split; [exact Hpaths|].
  intros i tab Hi. split.
  - intros sp Hsp Hunder.
    assert (savePathStartsWith (childPath folderPath lastIndex) tab = true)
      as Hsel.
    { rewrite savePathStartsWith_savePath, Hsp. unfold JS.startsWith in *.
      destruct Hunder as [->|Hpre]; [apply prefix_refl|].
      by apply prefix_append_l in Hpre. }
    rewrite forTabsRefTo_lookup. unfold resetSaveContextForAffectedRequests.
    rewrite forTabsRefTo_lookup, Hi. simpl. rewrite Hsel.
    fold (tornDown tab). by rewrite collectionReorderSelects_tornDown.
  - intros Hout.
    assert (resetSaveContextForAffectedRequests
              (childPath folderPath lastIndex) tabs !! i = Some tab) as Hkept.
    { unfold resetSaveContextForAffectedRequests.
      rewrite forTabsRefTo_lookup, Hi. simpl. by rewrite Hout. }
    split; [exact Hkept|].
    rewrite forTabsRefTo_lookup, Hkept. simpl.
    split; [reflexivity|].
    unfold collectionReorderSelects, collectionReorderBody, savePath.
    split; [|split].
    + intros k requestIndex Hk Hsc. rewrite Hsc.
      assert (affectedPathsOf folderPath
                (delete lastIndex (getAffectedIndexes lastIndex len))
              !! childPath folderPath k
              = Some (childPath folderPath (k - 1))) as ->
        by (apply Hpaths; eauto).
      by rewrite bool_decide_eq_true_2 by by eexists.
    + intros k collectionID requestID Hk Hsc Hcid. rewrite Hsc, Hcid.
      assert (affectedPathsOf folderPath
                (delete lastIndex (getAffectedIndexes lastIndex len))
              !! childPath folderPath k
              = Some (childPath folderPath (k - 1))) as ->
        by (apply Hpaths; eauto).
      by rewrite bool_decide_eq_true_2 by by eexists.
    + intros Hno.
      destruct (saveContext (document tab)) as [[fp idx|cid rid|cid rid]|];
        try reflexivity.
      * rewrite bool_decide_eq_false_2; [reflexivity|].
        intros [q Hq]. apply Hpaths in Hq as (k & Hk & -> & _).
        by apply (Hno k Hk).
      * rewrite bool_decide_eq_false_2; [reflexivity|].
        intros [q Hq]. apply Hpaths in Hq as (k & Hk & Hcid & _).
        apply (Hno k Hk). by rewrite Hcid.
Qed.

Lemma collection_deletion_teardown_then_reindex_witness :
  ∃ result : list Tab,
    resolveSaveContextOnCollectionReorder (mkPayload 1 (-1) "0" (Some 2))
      Remove
      [userTab "a" "0/1/2" 0; userTab "b" "0/2" 0;
       workspaceTab "c" "0/2" "0/2/7"; userTab "d" "3" 0]
    = Some result
    ∧ result !! 0%nat = Some (tornDown (userTab "a" "0/1/2" 0))
    ∧ resetSaveContextForAffectedRequests (childPath "0" 1)
        [userTab "a" "0/1/2" 0; userTab "b" "0/2" 0;
         workspaceTab "c" "0/2" "0/2/7"; userTab "d" "3" 0] !! 1%nat
      = Some (userTab "b" "0/2" 0)
    ∧ result !! 1%nat = Some (userTab "b" "0/1" 0)
    ∧ result !! 2%nat = Some (workspaceTab "c" "0/2" "0/1/7")
    ∧ result !! 3%nat = Some (userTab "d" "3" 0).
Proof.
  destruct (collection_deletion_teardown_then_reindex 1 2 "0"
              [userTab "a" "0/1/2" 0; userTab "b" "0/2" 0;
               workspaceTab "c" "0/2" "0/2/7"; userTab "d" "3" 0])
    as (paths & result & Hres & _ & _ & Htabs); [lia|lia|].
  exists result. split; [exact Hres|]. split; [|split; [|split; [|split]]].
  - destruct (Htabs 0%nat (userTab "a" "0/1/2" 0) eq_refl) as [Hunder _].
    apply (Hunder "0/1/2"); [reflexivity|right; reflexivity].
  - destruct (Htabs 1%nat (userTab "b" "0/2" 0) eq_refl) as [_ Hout].
    apply Hout. reflexivity.
  - destruct (Htabs 1%nat (userTab "b" "0/2" 0) eq_refl) as [_ Hout].
    destruct (Hout eq_refl) as (_ & _ & Huser & _ & _).
    apply (Huser 2 0); [lia|reflexivity].
  - destruct (Htabs 2%nat (workspaceTab "c" "0/2" "0/2/7") eq_refl)
      as [_ Hout].
    destruct (Hout eq_refl) as (_ & _ & _ & Hws & _).
    apply (Hws 2 "0/2" "0/2/7"); [lia|reflexivity|reflexivity].
  - destruct (Htabs 3%nat (userTab "d" "3" 0) eq_refl) as [_ Hout].
    destruct (Hout eq_refl) as (_ & _ & _ & _ & Hstay).
    apply Hstay. intros k Hk. assert (k = 2) as -> by lia. discriminate.
Defined.

(** C3 as stated fails on its own example: deleting ["0/1"] among siblings
    whose remaining count is 2 leaves the tab at ["0/2"] untouched by the
    teardown, but the reindexing that follows moves it to ["0/1"]. *)
Lemma collection_deletion_moves_later_sibling :
  savePathStartsWith "0/1" (userTab "b" "0/2" 0) = false
  ∧ resolveSaveContextOnCollectionReorder (mkPayload 1 (-1) "0" (Some 2))
      Remove [userTab "b" "0/2" 0]
    = Some [userTab "b" "0/1" 0].
Proof. split; vm_compute; reflexivity. Qed.

(** ** C10: the teardown matches by raw string prefix *)

(** C10.  Deleting the collection at ["0/1"] also tears down a tab whose
    save context is at ["0/10"], a sibling subtree: its save context is
    cleared and its dirty flag set, although the segments of ["0/1"] are no
    prefix of the segments of ["0/10"].  The same holds for a
    workspace-relative tab whose request lives in ["0/10"]. *)
Theorem teardown_reaches_sibling_with_common_digits
    (id : string) (requestIndex : Z) (dirty : bool)
    (ip : option HoppInheritedProperty) :
  ¬ pathSegments "0/1" `prefix_of` pathSegments "0/10"
  ∧ resetSaveContextForAffectedRequests "0/1"
      [mkTab id (mkDocument (Some (UserCollection "0/10" requestIndex)) dirty ip)]
    = [mkTab id (mkDocument None true ip)]
  ∧ resolveSaveContextOnCollectionReorder (mkPayload 1 (-1) "0" (Some 11))
      Remove
      [mkTab id (mkDocument (Some (UserCollection "0/10" requestIndex)) dirty ip)]
    = Some [mkTab id (mkDocument None true ip)]
  ∧ resolveSaveContextOnCollectionReorder (mkPayload 1 (-1) "0" (Some 11))
      Remove
      [mkTab id
         (mkDocument (Some (WorkspaceUserCollection "0/10" "0/10/3")) dirty ip)]
    = Some [mkTab id (mkDocument None true ip)].
Proof.
  split; [|split; [|split]].
  - intros [k Hk]. vm_compute in Hk. discriminate.
  - reflexivity.
  - reflexivity.
  - reflexivity.
Qed.

(** ** C4: workspace-relative tabs on a request-level reorder *)

(** C4 (the code departs from it).  The request-level resolver selects a
    workspace-relative tab whose collection is the reordered folder and
    whose trailing segment is a key of the index map, but its loop writes
    only [user-collection] contexts: the workspace-relative request
    identifier stays as it was.  Moving position 3 to 1 under ["0"] maps
    [2 → 3]; the tab at ["0/2"] is selected and keeps ["0/2"], while the
    personal tab at index 2 moves to 3. *)
Theorem request_reorder_leaves_workspace_request_id :
  (∀ (m : gmap Z Z) (id collectionID requestID : string) (dirty : bool)
     (ip : option HoppInheritedProperty),
      requestReorderBody m
        (mkTab id
           (mkDocument (Some (WorkspaceUserCollection collectionID requestID))
              dirty ip))
      = mkTab id
          (mkDocument (Some (WorkspaceUserCollection collectionID requestID))
             dirty ip))
  ∧ getAffectedIndexes 3 1 !! 2 = Some 3
  ∧ requestReorderSelects "0" (getAffectedIndexes 3 1)
      (workspaceTab "t" "0" "0/2") = true
  ∧ resolveSaveContextOnRequestReorder (mkPayload 3 1 "0" None)
      [workspaceTab "t" "0" "0/2"; userTab "u" "0" 2]
    = Some [workspaceTab "t" "0" "0/2"; userTab "u" "0" 3].
Proof.
  split; [reflexivity|]. split; [|split].
  - rewrite getAffectedIndexes_lookup. reflexivity.
  - vm_compute. reflexivity.
  - vm_compute. reflexivity.
Qed.

(** ** C5: auth propagation and the closeness check *)

Lemma matchCount_from (l s : list string) (a : nat) (k n : nat) :
  foldl (λ count i, if bool_decide (l !! i = s !! i) then S count else count)
    a (seq k n)
  = (a + foldl (λ count i,
                  if bool_decide (l !! i = s !! i) then S count else count)
           O (seq k n))%nat.
Proof.
  revert a k. induction n as [|n IH]; intros a k; simpl; [lia|].
  rewrite IH.
  rewrite (IH (if bool_decide (l !! k = s !! k) then 1%nat else 0%nat)).
  case_bool_decide; lia.
Qed.

Lemma matchCount_shift (x y : string) (l s : list string) (a : nat) (k n : nat) :
  foldl (λ count i,
           if bool_decide ((x :: l) !! i = (y :: s) !! i)
           then S count else count) a (seq (S k) n)
  = foldl (λ count i, if bool_decide (l !! i = s !! i) then S count else count)
      a (seq k n).
Proof.
  revert a k. induction n as [|n IH]; intros a k; simpl; [reflexivity|].
  apply IH.
Qed.

Lemma matchCount_cons (x y : string) (l s : list string) :
  matchCount (x :: l) (y :: s)
  = ((if String.eqb x y then 1 else 0) + matchCount l s)%nat.
Proof.
  unfold matchCount. simpl. rewrite matchCount_shift, matchCount_from.
  f_equal. destruct (String.eqb_spec x y) as [->|Hne].
  - by rewrite bool_decide_eq_true_2.
  - rewrite bool_decide_eq_false_2; [reflexivity|congruence].
Qed.

Lemma matchCount_nil_r (l : list string) : matchCount l [] = O.
Proof.
  unfold matchCount.
  assert (∀ (s : list string) n k a,
            s = [] → (k + n ≤ List.length l)%nat →
            foldl (λ count i,
                     if bool_decide (l !! i = s !! i)
                     then S count else count) a (seq k n) = a) as H.
  { intros s. induction n as [|n IH]; intros k a Hs Hk; simpl; [reflexivity|].
    destruct (lookup_lt_is_Some_2 l k) as [x Hx]; [lia|].
    rewrite bool_decide_eq_false_2 by (subst s; rewrite Hx; discriminate).
    apply IH; [exact Hs|lia]. }
  apply H; [reflexivity|lia].
Qed.

(** The counting loop counts the agreeing positions. *)
Lemma matchCount_agreeing (l s : list string) :
  matchCount l s = agreeingPositions l s.
Proof.
  revert s. induction l as [|x l IH]; intros s; [reflexivity|].
  destruct s as [|y s]; [apply matchCount_nil_r|].
  rewrite matchCount_cons, IH. reflexivity.
Qed.

Lemma cachedIsCloser_positions (cached : option string) (path sp : string) :
  cachedIsCloser cached path sp ↔ strictlyCloser cached path sp.
Proof.
  unfold cachedIsCloser, strictlyCloser.
  by setoid_rewrite matchCount_agreeing.
Qed.

Lemma closeness_decision (cached : option string) (path sp : string) :
  String.eqb path (folderPathCloseToSaveContext cached path sp) = true
  ↔ ¬ cachedIsCloser cached path sp.
Proof.
  unfold folderPathCloseToSaveContext, cachedIsCloser.
  destruct cached as [[|c rest]|].
  - rewrite String.eqb_refl. split; [|done].
    intros _ (cur & [= <-] & Hne & _). by apply Hne.
  - destruct (Nat.ltb_spec
                (matchCount (pathSegments path) (pathSegments sp))
                (matchCount (pathSegments (String c rest)) (pathSegments sp)))
      as [Hlt|Hge].
    + split.
      * intros ->%String.eqb_eq. lia.
      * intros Hno. exfalso. apply Hno. eexists. by repeat split.
    + rewrite String.eqb_refl. split; [|done].
      intros _ (cur & [= <-] & _ & Hlt). lia.
  - rewrite String.eqb_refl. split; [|done].
    intros _ (cur & ? & _). discriminate.
Qed.

Lemma propagationSelects_path (workspace : Workspace) (path : string)
    (tab : Tab) :
  propagationSelects workspace path tab = true →
  ∃ sp, propagationPath workspace tab = Some sp
        ∧ JS.startsWith sp path = true.
Proof.
  unfold propagationSelects, propagationPath, savePathStartsWith, savePath.
  destruct workspace, (saveContext (document tab)) as [[| |[cid|]]|];
    try discriminate; eauto.
Qed.

Lemma effectedByAuth_closeness (workspace : Workspace) (path sp : string)
    (tab : Tab) :
  propagationSelects workspace path tab = true →
  propagationPath workspace tab = Some sp →
  effectedByAuth workspace path tab = true
  ↔ ¬ cachedIsCloser (cachedAuthParentID tab) path sp.
Proof.
  intros Hsel Hsp. rewrite <- closeness_decision.
  unfold propagationSelects, propagationPath, savePathStartsWith, savePath,
    effectedByAuth in *.
  destruct workspace, (saveContext (document tab)) as [[| |[cid|]]|];
    try discriminate; injection Hsp as <-; rewrite Hsel; reflexivity.
Qed.

Lemma update_lookup (path : string) (newProperties : HoppInheritedProperty)
    (workspace : Workspace) (tabs : list Tab) (i : nat) (tab : Tab) :
  tabs !! i = Some tab →
  propagationSelects workspace path tab = true →
  updateInheritedPropertiesForAffectedRequests path newProperties workspace
    tabs !! i
  = Some (let afterAuth :=
            if effectedByAuth workspace path tab
            then setInheritedProperties (Some newProperties) tab else tab in
          if effectedByHeaders path tab
          then refreshHeaders path newProperties afterAuth else afterAuth).
Proof.
  intros Hi Hsel. unfold updateInheritedPropertiesForAffectedRequests.
  rewrite list_lookup_fmap, Hi. simpl. by rewrite Hsel.
Qed.

Lemma refreshHeaders_keeps_auth (path : string)
    (newProperties : HoppInheritedProperty) (tab : Tab) :
  auth <$> inheritedProperties (document (refreshHeaders path newProperties tab))
  = auth <$> inheritedProperties (document tab).
Proof.
  by destruct tab as [id [sc dirty [ip|]]].
Qed.

(** C5, as amended.  Among the tabs the propagator selects under [path],
    the cached inherited properties are replaced by the new snapshot exactly
    on those whose cached auth source is not strictly closer to the tab's
    own path than [path].  The closeness the code compares is, for every
    path, the number of positions at which the path holds the same segment
    as the tab's path (the count goes on past a disagreement); more
    agreeing positions win and ties go to the new path.  A tab whose cached
    source is strictly closer keeps its cached auth. *)
Theorem auth_propagation_by_matching_positions
    (path : string) (newProperties : HoppInheritedProperty)
    (workspace : Workspace) (tabs : list Tab) (i : nat) (tab : Tab) :
  tabs !! i = Some tab →
  propagationSelects workspace path tab = true →
  ∃ (sp : string) (tab' : Tab),
    propagationPath workspace tab = Some sp
    ∧ updateInheritedPropertiesForAffectedRequests path newProperties
        workspace tabs !! i = Some tab'
    ∧ (∀ p, matchCount (pathSegments p) (pathSegments sp)
            = agreeingPositions (pathSegments p) (pathSegments sp))
    ∧ (∀ cached,
         folderPathCloseToSaveContext cached path sp = path
         ↔ ¬ strictlyCloser cached path sp)
    ∧ (effectedByAuth workspace path tab = true
       ↔ ¬ strictlyCloser (cachedAuthParentID tab) path sp)
    ∧ (¬ strictlyCloser (cachedAuthParentID tab) path sp →
       inheritedProperties (document tab')
       = Some (if effectedByHeaders path tab
               then mkInherited (auth newProperties)
                      (refreshEntry path newProperties
                         <$> headers newProperties)
               else newProperties))
    ∧ (strictlyCloser (cachedAuthParentID tab) path sp →
       auth <$> inheritedProperties (document tab')
       = auth <$> inheritedProperties (document tab)).
Proof.
  intros Hi Hsel.
  destruct (propagationSelects_path _ _ _ Hsel) as (sp & Hsp & _).
  pose proof (effectedByAuth_closeness _ _ _ _ Hsel Hsp) as Hiff.
  rewrite cachedIsCloser_positions in Hiff.
  eexists sp, _. split; [exact Hsp|].
  split; [by apply update_lookup|].
  split; [intros p; apply matchCount_agreeing|].
  split.
  { intros cached. rewrite <- cachedIsCloser_positions, <- closeness_decision.
    rewrite String.eqb_eq. split; congruence. }
  split; [exact Hiff|]. split.
  - intros Hno. apply Hiff in Hno. rewrite Hno. simpl.
    by destruct (effectedByHeaders path tab).
  - intros Hcloser.
    destruct (effectedByAuth workspace path tab) eqn:E.
    + exfalso. by apply Hiff.
    + simpl. destruct (effectedByHeaders path tab); [|reflexivity].
      apply refreshHeaders_keeps_auth.
Qed.

Lemma auth_propagation_by_matching_positions_witness :
  (∃ tab' : Tab,
     updateInheritedPropertiesForAffectedRequests "0/1"
       (inheritedFrom "0/1" []) Personal
       [tabWith "t" "0/1/2" (inheritedFrom "0" [])] !! 0%nat = Some tab'
     ∧ inheritedProperties (document tab') = Some (inheritedFrom "0/1" []))
  ∧ (∃ tab' : Tab,
       updateInheritedPropertiesForAffectedRequests "0"
         (inheritedFrom "0" []) Personal
         [tabWith "t" "0/1/2" (inheritedFrom "0/1" [])] !! 0%nat = Some tab'
       ∧ auth <$> inheritedProperties (document tab')
         = Some (auth (inheritedFrom "0/1" [])))
  ∧ (∃ tab' : Tab,
       updateInheritedPropertiesForAffectedRequests "0"
         (inheritedFrom "0" []) Personal
         [tabWith "t" "0/1/2" (inheritedFrom "9/1/2" [])] !! 0%nat = Some tab'
       ∧ auth <$> inheritedProperties (document tab')
         = Some (auth (inheritedFrom "9/1/2" []))).
Proof.
  split; [|split].
  - destruct (auth_propagation_by_matching_positions "0/1"
                (inheritedFrom "0/1" []) Personal
                [tabWith "t" "0/1/2" (inheritedFrom "0" [])] 0%nat
                (tabWith "t" "0/1/2" (inheritedFrom "0" [])))
      as (sp & tab' & Hsp & Hres & _ & _ & _ & Hrepl & _);
      [reflexivity|reflexivity|].
    exists tab'. split; [exact Hres|].
    rewrite Hrepl; [reflexivity|].
    injection Hsp as <-. intros (cur & [= <-] & _ & Hlt).
    vm_compute in Hlt. lia.
  - destruct (auth_propagation_by_matching_positions "0"
                (inheritedFrom "0" []) Personal
                [tabWith "t" "0/1/2" (inheritedFrom "0/1" [])] 0%nat
                (tabWith "t" "0/1/2" (inheritedFrom "0/1" [])))
      as (sp & tab' & Hsp & Hres & _ & _ & _ & _ & Hkeep);
      [reflexivity|reflexivity|].
    exists tab'. split; [exact Hres|].
    rewrite Hkeep; [reflexivity|].
    injection Hsp as <-. exists "0/1".
    split; [reflexivity|]. split; [discriminate|]. vm_compute. lia.
  - destruct (auth_propagation_by_matching_positions "0"
                (inheritedFrom "0" []) Personal
                [tabWith "t" "0/1/2" (inheritedFrom "9/1/2" [])] 0%nat
                (tabWith "t" "0/1/2" (inheritedFrom "9/1/2" [])))
      as (sp & tab' & Hsp & Hres & _ & _ & _ & _ & Hkeep);
      [reflexivity|reflexivity|].
    exists tab'. split; [exact Hres|].
    rewrite Hkeep; [reflexivity|].
    injection Hsp as <-. exists "9/1/2".
    split; [reflexivity|]. split; [discriminate|]. vm_compute. lia.
Defined.

(** C5 as stated fails: by longest common prefix the cached source
    ["9/1/2"] shares nothing with the tab's path ["0/1/2"], so it is not
    closer than the mutated path ["0"], which shares one segment; the code
    counts the agreeing positions 1 and 2 of ["9/1/2"], finds it closer,
    and leaves the tab's inherited properties alone. *)
Lemma closeness_counts_past_a_mismatch :
  propagationSelects Personal "0"
    (tabWith "t" "0/1/2" (inheritedFrom "9/1/2" [])) = true
  ∧ (commonPrefixLength (pathSegments "9/1/2") (pathSegments "0/1/2")
     < commonPrefixLength (pathSegments "0") (pathSegments "0/1/2"))%nat
  ∧ folderPathCloseToSaveContext (Some "9/1/2") "0" "0/1/2" = "9/1/2"
  ∧ effectedByAuth Personal "0"
      (tabWith "t" "0/1/2" (inheritedFrom "9/1/2" [])) = false
  ∧ updateInheritedPropertiesForAffectedRequests "0" (inheritedFrom "0" [])
      Personal [tabWith "t" "0/1/2" (inheritedFrom "9/1/2" [])]
    = [tabWith "t" "0/1/2" (inheritedFrom "9/1/2" [])].
Proof. repeat split; vm_compute; try reflexivity; lia. Qed.

(** ** C6: header propagation *)

Lemma refreshEntry_other (path : string) (new : HoppInheritedProperty)
    (h : InheritedHeaderEntry) :
  parentID h ≠ path → refreshEntry path new h = h.
Proof.
  intros Hne. unfold refreshEntry.
  destruct (String.eqb_spec (parentID h) path); [contradiction|reflexivity].
Qed.

Lemma refreshEntry_tagged (path : string) (new : HoppInheritedProperty)
    (h : InheritedHeaderEntry) :
  parentID h = path →
  refreshEntry path new h
  = mkInheritedHeader (parentID h) (parentName h) (refreshedHeader new h).
Proof.
  intros Heq. unfold refreshEntry.
  destruct (String.eqb_spec (parentID h) path); [reflexivity|contradiction].
Qed.

(** The refreshed value comes from an entry of the new list with the same
    header key. *)
Lemma refreshedHeader_key_match (new : HoppInheritedProperty)
    (h : InheritedHeaderEntry) (r : HoppRESTHeader) :
  refreshedHeader new h = Some r →
  ∃ c, c ∈ headers new ∧ inheritedHeader c = Some r
       ∧ Some (key r) = key <$> inheritedHeader h.
Proof.
  unfold refreshedHeader.
  destruct (List.find _ (headers new)) as [c|] eqn:Hfind; [|discriminate].
  simpl. intros Hr. apply find_some in Hfind as [Hin Hkey].
  apply bool_decide_eq_true_1 in Hkey. rewrite Hr in Hkey.
  exists c. by rewrite list_elem_of_In.
Qed.

(** Without an entry tagged [path] the refresh is the identity. *)
Lemma refresh_without_tagged_entry (path : string)
    (new : HoppInheritedProperty) (hs : list InheritedHeaderEntry) :
  existsb (λ header, String.eqb (parentID header) path) hs = false →
  refreshEntry path new <$> hs = hs.
Proof.
  induction hs as [|h hs IH]; [reflexivity|]. intros H. simpl in H.
  apply orb_false_elim in H as [Hh Hhs]. rewrite fmap_cons, IH by assumption.
  unfold refreshEntry. by rewrite Hh.
Qed.

(** C6, as amended.  For a tab selected under [path] that holds cached
    inherited properties: the header loop's selection never consults the
    closeness check, and it works on the properties the auth loop left.
    When the auth check did not select the tab, every cached entry tagged
    [path] gets the value of the first entry of the new list with the same
    header key (none if there is no such entry) and every entry tagged
    otherwise is unchanged.  When the auth check selected the tab, its
    cached properties, headers included, are those of the new snapshot. *)
Theorem header_refresh_after_auth_loop
    (path : string) (newProperties : HoppInheritedProperty)
    (workspace : Workspace) (tabs : list Tab) (i : nat) (tab : Tab)
    (cached : HoppInheritedProperty) :
  tabs !! i = Some tab →
  propagationSelects workspace path tab = true →
  inheritedProperties (document tab) = Some cached →
  ∃ tab' : Tab,
    updateInheritedPropertiesForAffectedRequests path newProperties
      workspace tabs !! i = Some tab'
    ∧ saveContext (document tab') = saveContext (document tab)
    ∧ isDirty (document tab') = isDirty (document tab)
    ∧ (effectedByAuth workspace path tab = false →
       inheritedProperties (document tab')
       = Some (mkInherited (auth cached)
                 (refreshEntry path newProperties <$> headers cached))
       ∧ ∀ (j : nat) (h : InheritedHeaderEntry),
           headers cached !! j = Some h →
           (parentID h ≠ path → refreshEntry path newProperties h = h)
           ∧ (parentID h = path →
              refreshEntry path newProperties h
              = mkInheritedHeader (parentID h) (parentName h)
                  (refreshedHeader newProperties h)
              ∧ ∀ r, refreshedHeader newProperties h = Some r →
                     ∃ c, c ∈ headers newProperties
                          ∧ inheritedHeader c = Some r
                          ∧ Some (key r) = key <$> inheritedHeader h))
    ∧ (effectedByAuth workspace path tab = true →
       inheritedProperties (document tab')
       = Some (if effectedByHeaders path tab
               then mkInherited (auth newProperties)
                      (refreshEntry path newProperties
                         <$> headers newProperties)
               else newProperties)).
Proof.
  intros Hi Hsel Hip. eexists. split; [by apply update_lookup|].
  destruct tab as [id [sc dirty ip]]. simpl in Hip. subst ip.
  unfold effectedByHeaders. simpl.
  destruct (existsb _ (headers cached)) eqn:Hex;
    destruct (effectedByAuth workspace path _) eqn:Hauth; simpl;
    (split; [reflexivity|]); (split; [reflexivity|]);
    (split; [intros Hf|intros Ht]); try discriminate; try reflexivity.
  - split; [reflexivity|]. intros j h _. split.
    + apply refreshEntry_other.
    + intros Hp. split; [by apply refreshEntry_tagged|].
      apply refreshedHeader_key_match.
  - split; [rewrite refresh_without_tagged_entry by exact Hex;
            by destruct cached|].
    intros j h _. split.
    + apply refreshEntry_other.
    + intros Hp. split; [by apply refreshEntry_tagged|].
      apply refreshedHeader_key_match.
Qed.

Lemma header_refresh_after_auth_loop_witness :
  ∃ tab' : Tab,
    updateInheritedPropertiesForAffectedRequests "0"
      (inheritedFrom "0" [headerEntry "0" "A" "9"]) Personal
      [tabWith "t" "0/1/2"
         (inheritedFrom "0/1"
            [headerEntry "0" "A" "1"; headerEntry "0/1" "B" "2"])] !! 0%nat
    = Some tab'
    ∧ inheritedProperties (document tab')
      = Some (inheritedFrom "0/1"
                [headerEntry "0" "A" "9"; headerEntry "0/1" "B" "2"]).
Proof.
  destruct (header_refresh_after_auth_loop "0"
              (inheritedFrom "0" [headerEntry "0" "A" "9"]) Personal
              [tabWith "t" "0/1/2"
                 (inheritedFrom "0/1"
                    [headerEntry "0" "A" "1"; headerEntry "0/1" "B" "2"])]
              0%nat _ _ eq_refl eq_refl eq_refl)
    as (tab' & Hres & _ & _ & Hkept & _).
  exists tab'. split; [exact Hres|].
  destruct Hkept as [-> _]; [vm_compute; reflexivity|].
  vm_compute. reflexivity.
Defined.

(** C6 as stated fails: the tab at ["0/1"] caches a header tagged ["0"] and
    one tagged ["0/1"]; its cached auth source is ["0"], so mutating ["0"]
    selects it for auth as well.  The auth loop installs the new snapshot,
    and the entry tagged ["0/1"] is gone instead of unchanged. *)
Lemma auth_replacement_drops_other_entries :
  effectedByHeaders "0"
    (tabWith "t" "0/1"
       (inheritedFrom "0"
          [headerEntry "0" "A" "1"; headerEntry "0/1" "B" "2"])) = true
  ∧ parentID (headerEntry "0/1" "B" "2") ≠ "0"
  ∧ updateInheritedPropertiesForAffectedRequests "0"
      (inheritedFrom "0" [headerEntry "0" "A" "9"]) Personal
      [tabWith "t" "0/1"
         (inheritedFrom "0"
            [headerEntry "0" "A" "1"; headerEntry "0/1" "B" "2"])]
    = [tabWith "t" "0/1" (inheritedFrom "0" [headerEntry "0" "A" "9"])].
Proof. repeat split; vm_compute; try reflexivity; discriminate. Qed.

(** ** C7: the batch importer *)

Section ImporterProperties.

Import Insomnia.

Variable knownContentTypes : list string.
Variable convert : string → option InsomniaDoc.

Lemma traverseSeq_failed {A B} (f : A → option B) (xs : list A) :
  foldl (λ fbs a, bs ← fbs; b ← f a; Some (bs ++ [b])) None xs = None.
Proof. induction xs as [|x xs IH]; [reflexivity|exact IH]. Qed.

Lemma traverseSeq_from {A B} (f : A → option B) (xs : list A) (acc : list B) :
  foldl (λ fbs a, bs ← fbs; b ← f a; Some (bs ++ [b])) (Some acc) xs
  = (λ ys, acc ++ ys) <$> mapM f xs.
Proof.
  revert acc. induction xs as [|x xs IH]; intros acc; simpl.
  - by rewrite app_nil_r.
  - destruct (f x) as [b|]; simpl.
    + rewrite IH. destruct (mapM f xs); simpl; [|reflexivity].
      by rewrite <- app_assoc.
    + apply traverseSeq_failed.
Qed.

Lemma traverseSeq_mapM {A B} (f : A → option B) (xs : list A) :
  traverseSeq f xs = mapM f xs.
Proof.
  unfold traverseSeq. rewrite traverseSeq_from.
  by destruct (mapM f xs).
Qed.

(** C7, as amended.  The importer has no partial-success mode and the batch
    stands or falls as a whole: the documents are parsed in order through
    the sequencing combinator; when every one parses, the result is the
    collections of all of them; when any one fails to parse, the whole
    batch is rejected with the invalid-format failure, whatever the other
    documents hold. *)
Theorem importer_rejects_whole_batch (fuel : nat) (fileContents : list string) :
  hoppInsomniaImporter knownContentTypes convert fuel fileContents
  = match mapM convert fileContents with
    | Some docs => inr <$> getHoppCollections knownContentTypes fuel docs
    | None => Some (inl IMPORTER_INVALID_FILE_FORMAT)
    end
  ∧ (Exists (λ content, convert content = None) fileContents →
     hoppInsomniaImporter knownContentTypes convert fuel fileContents
     = Some (inl IMPORTER_INVALID_FILE_FORMAT))
  ∧ (Forall (λ content, is_Some (convert content)) fileContents →
     ∃ docs, Forall2 (λ content doc, convert content = Some doc)
               fileContents docs
             ∧ hoppInsomniaImporter knownContentTypes convert fuel fileContents
               = inr <$> getHoppCollections knownContentTypes fuel docs).
Proof.
  assert (hoppInsomniaImporter knownContentTypes convert fuel fileContents
          = match mapM convert fileContents with
            | Some docs => inr <$> getHoppCollections knownContentTypes fuel docs
            | None => Some (inl IMPORTER_INVALID_FILE_FORMAT)
            end) as Heq.
  { unfold hoppInsomniaImporter, parseInsomniaDoc.
    by rewrite traverseSeq_mapM. }
  split; [exact Heq|]. split.
  - intros Hbad. rewrite Heq.
    by rewrite (mapM_None_2 convert fileContents Hbad).
  - intros Hall.
    destruct (mapM_is_Some_2 convert fileContents Hall) as [docs Hdocs].
    exists docs. split; [by apply mapM_Some_1|]. by rewrite Heq, Hdocs.
Qed.

End ImporterProperties.

Lemma importer_rejects_whole_batch_witness :
  Insomnia.hoppInsomniaImporter [] scenarioConvert 1
    ["export one"; "not an export"; "export two"]
  = Some (inl Insomnia.IMPORTER_INVALID_FILE_FORMAT).
Proof.
  destruct (importer_rejects_whole_batch [] scenarioConvert 1
              ["export one"; "not an export"; "export two"])
    as (_ & Hbad & _).
  apply Hbad. apply Exists_cons_tl, Exists_cons_hd. reflexivity.
Defined.

(** C7 as stated fails: the first document parses into one collection, the
    second does not parse, and the batch of both is rejected as a whole;
    nothing of the first document survives. *)
Lemma one_malformed_document_rejects_the_batch :
  Insomnia.hoppInsomniaImporter [] scenarioConvert 1 ["export one"]
  = Some (inr [Insomnia.makeCollection "Group" []
                 [Insomnia.makeRESTRequest "Login" "POST"
                    "https://<<host>>/login" (AuthBasic true "" "")
                    Insomnia.ReqBodyNull [] [] "" ""]
                 (AuthInherit true) []])
  ∧ Insomnia.hoppInsomniaImporter [] scenarioConvert 1
      ["export one"; "not an export"]
    = Some (inl Insomnia.IMPORTER_INVALID_FILE_FORMAT).
Proof. split; vm_compute; reflexivity. Qed.

(** ** C8: the import scenario with basic auth *)

(** C8.  The document with one top-level group holding one request whose
    auth is [type: basic] without username and password imports as one
    collection with one request, whose auth is basic, active, with the
    empty string for both username and password.  The same holds for any
    request with such an auth, whatever its other fields. *)
Theorem import_basic_auth_without_credentials :
  (∀ (knownContentTypes : list string) (fuel : nat) (content : string),
     Insomnia.hoppInsomniaImporter knownContentTypes (λ _, Some scenarioDoc)
       (S fuel) [content]
     = Some (inr [Insomnia.makeCollection "Group" []
                    [Insomnia.makeRESTRequest "Login" "POST"
                       "https://<<host>>/login" (AuthBasic true "" "")
                       Insomnia.ReqBodyNull [] [] "" ""]
                    (AuthInherit true) []]))
  ∧ (∀ id type parent name method url disabled accessTokenUrl
       authorizationUrl clientId scope token body headers parameters,
       Insomnia.getHoppReqAuth
         (Insomnia.mkResource id type parent name method url
            (Some (Insomnia.mkInsoAuth (Some "basic") disabled None None
                     accessTokenUrl authorizationUrl clientId scope token))
            body headers parameters)
       = AuthBasic true "" "").
Proof.
  split.
  - intros knownContentTypes fuel content. reflexivity.
  - intros. reflexivity.
Qed.

(** ** C9: batch config updates validate before they write *)

Section InfraConfigProperties.

Import InfraConfig.

Variables validateSMTPUrl validateSMTPEmail validateUrl : string → bool.

Abbreviation validateEnvValue :=
  (InfraConfig.validateEnvValue validateSMTPUrl validateSMTPEmail validateUrl).
Abbreviation validateEnvValues :=
  (InfraConfig.validateEnvValues validateSMTPUrl validateSMTPEmail validateUrl).
Abbreviation updateMany :=
  (InfraConfig.updateMany validateSMTPUrl validateSMTPEmail validateUrl).

Lemma validateEnvValues_invalid (infraConfigs : list InfraConfigArgs) :
  validateEnvValues infraConfigs = inl INFRA_CONFIG_INVALID_INPUT
  ↔ Exists (λ config, validateEnvValue config = false) infraConfigs.
Proof.
  induction infraConfigs as [|config rest IH]; simpl.
  - split; [discriminate|]. intros H. inversion H.
  - destruct (validateEnvValue config) eqn:E.
    + rewrite IH. split; [by apply Exists_cons_tl|].
      intros H. inversion H; subst; [congruence|assumption].
    + split; [|reflexivity]. intros _. by apply Exists_cons_hd.
Qed.

Lemma validateEnvValues_valid (infraConfigs : list InfraConfigArgs) :
  Forall (λ config, validateEnvValue config = true) infraConfigs →
  validateEnvValues infraConfigs = inr true.
Proof.
  induction 1 as [|config rest Hc _ IH]; simpl; [reflexivity|].
  by rewrite Hc.
Qed.

(** C9.  [updateMany] checks every value against the predicate of its
    field (URL shape, email shape, non-empty) before it writes anything:
    if any value of the batch fails its check, the call returns the
    invalid-input error and the backend, config rows included, is exactly
    as before. *)
Theorem updateMany_validates_before_writing
    (infraConfigs : list InfraConfigArgs) (world : Backend) :
  Exists (λ config, validateEnvValue config = false) infraConfigs →
  updateMany infraConfigs world = (inl INFRA_CONFIG_INVALID_INPUT, world)
  ∧ (∀ v, validateEnvValue (mkArgs MAILER_SMTP_URL v) = validateSMTPUrl v)
  ∧ (∀ v, validateEnvValue (mkArgs MAILER_ADDRESS_FROM v) = validateSMTPEmail v)
  ∧ (∀ v, validateEnvValue (mkArgs GOOGLE_CALLBACK_URL v) = validateUrl v)
  ∧ (∀ v, validateEnvValue (mkArgs GITHUB_CALLBACK_URL v) = validateUrl v)
  ∧ (∀ v, validateEnvValue (mkArgs MICROSOFT_CALLBACK_URL v) = validateUrl v)
  ∧ (∀ n v, n ∈ [GOOGLE_CLIENT_ID; GOOGLE_CLIENT_SECRET; GOOGLE_SCOPE;
                 GITHUB_CLIENT_ID; GITHUB_CLIENT_SECRET; GITHUB_SCOPE;
                 MICROSOFT_CLIENT_ID; MICROSOFT_CLIENT_SECRET;
                 MICROSOFT_SCOPE; MICROSOFT_TENANT] →
            validateEnvValue (mkArgs n v) = negb (isEmpty v)).
Proof.
  intros Hbad. split.
  - unfold InfraConfig.updateMany.
    apply validateEnvValues_invalid in Hbad. by rewrite Hbad.
  - repeat split. intros n v Hn.
    repeat (apply elem_of_cons in Hn as [->|Hn]; [reflexivity|]).
    by apply elem_of_nil in Hn.
Qed.

End InfraConfigProperties.

Lemma updateMany_validates_before_writing_witness :
  InfraConfig.updateMany (λ _, true) (λ _, true) (λ _, true)
    [InfraConfig.mkArgs InfraConfig.GITHUB_SCOPE "repo";
     InfraConfig.mkArgs InfraConfig.GOOGLE_CLIENT_ID ""]
    (InfraConfig.mkBackend
       [InfraConfig.mkArgs InfraConfig.GITHUB_SCOPE "user";
        InfraConfig.mkArgs InfraConfig.GOOGLE_CLIENT_ID "abc"] 0)
  = (inl InfraConfig.INFRA_CONFIG_INVALID_INPUT,
     InfraConfig.mkBackend
       [InfraConfig.mkArgs InfraConfig.GITHUB_SCOPE "user";
        InfraConfig.mkArgs InfraConfig.GOOGLE_CLIENT_ID "abc"] 0).
Proof.
  apply (updateMany_validates_before_writing (λ _, true) (λ _, true)
           (λ _, true)).
  apply Exists_cons_tl, Exists_cons_hd. reflexivity.
Defined.

(** ** The counting loop and the longest common prefix *)

(** On a path whose segments are a prefix of the save-context path's, the
    counting loop and the longest common prefix agree: both give the number
    of segments. *)
Lemma matchCount_of_ancestor (l s : list string) :
  l `prefix_of` s →
  matchCount l s = List.length l ∧ commonPrefixLength l s = List.length l.
Proof.
  intros [k ->]. induction l as [|x l [IH1 IH2]]; [by split|].
  simpl app. rewrite matchCount_cons. simpl.
  rewrite String.eqb_refl, IH1, IH2. by split.
Qed.

(** ** The spec's reorder scenario *)

(** Four siblings, position 3 moved to position 1: the index map is
    [{1 → 2, 2 → 3, 3 → 1}] and a tab at request index 2 of the folder moves
    to index 3. *)
Example move_three_to_one :
  getAffectedIndexes 3 1 = {[ 1 := 2; 2 := 3; 3 := 1 ]}
  ∧ resolveSaveContextOnRequestReorder (mkPayload 3 1 "0/1" (Some 4))
      [userTab "t" "0/1" 2; userTab "u" "0/2" 2]
    = Some [userTab "t" "0/1" 3; userTab "u" "0/2" 2].
Proof.
  split; vm_compute; reflexivity.
Qed.

(* ===================================================================== *)
(** * Further properties of the embedded code                             *)
(* ===================================================================== *)

(** ** Splitting and joining paths *)

Lemma split_nonempty (sep : ascii) (s : string) : JS.split sep s ≠ [].
Proof.
  induction s as [|c s IH]; simpl; [discriminate|].
  destruct (Ascii.eqb c sep); [discriminate|].
  by destruct (JS.split sep s).
Qed.

Lemma split_app (sep : ascii) (a b : string) :
  JS.split sep (a +:+ String sep b) = JS.split sep a ++ JS.split sep b.
Proof.
  induction a as [|c a IH]; simpl.
  - by rewrite Ascii.eqb_refl.
  - destruct (Ascii.eqb c sep); [by rewrite IH|].
    rewrite IH. pose proof (split_nonempty sep a) as Hne.
    by destruct (JS.split sep a).
Qed.

Lemma join_split (sep : ascii) (s : string) :
  JS.join (String sep EmptyString) (JS.split sep s) = s.
Proof.
  unfold JS.join. induction s as [|c s IH]; [reflexivity|]. simpl.
  pose proof (split_nonempty sep s) as Hne.
  destruct (Ascii.eqb_spec c sep) as [->|Hc].
  - simpl. destruct (JS.split sep s) as [|w ws]; [done|].
    simpl in *. by rewrite IH.
  - destruct (JS.split sep s) as [|w ws]; [done|].
    simpl in *. destruct ws as [|w' ws]; simpl in *; by rewrite <- IH.
Qed.

Lemma removelast_snoc {A} (l : list A) (x : A) : removelast (l ++ [x]) = l.
Proof.
  induction l as [|y l IH]; [reflexivity|]. simpl.
  destruct (l ++ [x]) eqn:E; [by destruct l|]. by rewrite IH.
Qed.

Lemma last_snoc (l : list string) (x : string) :
  List.last (l ++ [x]) EmptyString = x.
Proof.
  induction l as [|y l IH]; [reflexivity|]. simpl.
  destruct (l ++ [x]) eqn:E; [by destruct l|]. exact IH.
Qed.

Lemma split_last_noSlash (s : string) : noSlash (trailingSegment s).
Proof.
  unfold noSlash, trailingSegment, JS.sliceLast, pathSegments.
  induction s as [|c s IH]; [reflexivity|]. simpl.
  pose proof (split_nonempty "/" s) as Hne.
  destruct (Ascii.eqb_spec c "/") as [->|Hc].
  - destruct (JS.split "/" s) as [|w ws]; [done|]. exact IH.
  - destruct (JS.split "/" s) as [|w ws] eqn:E; [done|].
    destruct ws as [|w' ws]; [|exact IH].
    simpl in *. destruct (Ascii.eqb_spec c "/"); [done|]. by rewrite IH.
Qed.

(** A collection identifier followed by a slash-free segment reads back as
    that identifier and that segment. *)
Lemma collectionIDOf_child (c t : string) :
  noSlash t →
  collectionIDOf (c +:+ "/" +:+ t) = c ∧ trailingSegment (c +:+ "/" +:+ t) = t.
Proof.
  unfold noSlash, collectionIDOf, trailingSegment, pathSegments,
    JS.sliceInit, JS.sliceLast. intros Ht.
  change (c +:+ "/" +:+ t) with (c +:+ String "/" t).
  rewrite split_app, Ht, removelast_snoc, last_snoc.
  split; [apply join_split|reflexivity].
Qed.

(** ** What the request-level resolver leaves alone *)

Lemma requestReorder_tab_frame (folderPath : string) (m : gmap Z Z) (tab : Tab) :
  let tab' := if requestReorderSelects folderPath m tab
              then requestReorderBody m tab else tab in
  tab_id tab' = tab_id tab
  ∧ isDirty (document tab') = isDirty (document tab)
  ∧ inheritedProperties (document tab') = inheritedProperties (document tab)
  ∧ (tab' = tab
     ∨ ∃ idx idx',
         saveContext (document tab) = Some (UserCollection folderPath idx)
         ∧ m !! idx = Some idx'
         ∧ saveContext (document tab')
           = Some (UserCollection folderPath idx')).
Proof.
  destruct tab as [id [[[fp idx|cid rid|cid rid]|] dirty ip]];
    unfold requestReorderSelects, requestReorderBody; simpl;
    try (destruct (_ && _); repeat split; by left);
    try (repeat split; by left).
  destruct (String.eqb_spec fp folderPath) as [->|Hne]; simpl;
    [|repeat split; by left].
  destruct (m !! idx) as [idx'|] eqn:E; simpl.
  - repeat split. right. eauto.
  - repeat split; by left.
Qed.

(** A request-level reorder keeps the number of tabs and, on every tab, the
    identity, the dirty flag and the inherited properties; the only save
    contexts it changes are personal ones in the reordered folder, and of
    those only the request index. *)
Theorem request_reorder_changes_only_indexes_in_folder
    (payload : ReorderPayload) (tabs result : list Tab) :
  resolveSaveContextOnRequestReorder payload tabs = Some result →
  List.length result = List.length tabs
  ∧ ∀ (i : nat) (tab : Tab), tabs !! i = Some tab →
      ∃ tab', result !! i = Some tab'
        ∧ tab_id tab' = tab_id tab
        ∧ isDirty (document tab') = isDirty (document tab)
        ∧ inheritedProperties (document tab')
          = inheritedProperties (document tab)
        ∧ (tab' = tab
           ∨ ∃ idx idx',
               saveContext (document tab)
               = Some (UserCollection (folderPath payload) idx)
               ∧ saveContext (document tab')
                 = Some (UserCollection (folderPath payload) idx')).
Proof.
  unfold resolveSaveContextOnRequestReorder.
  destruct (lastIndex payload =? _); [intros [= <-]; split; [done|]|].
  { intros i tab Hi. exists tab. repeat split; auto. }
  destruct (mbind _ _) as [r|] eqn:Hr; [|discriminate].
  intros Hres. rewrite Hres in Hr. clear Hres.
  destruct (if _ =? -1 then _ else _) as [m|]; [|discriminate].
  simpl in Hr. injection Hr as <-. split; [apply forTabsRefTo_length|].
  intros i tab Hi. rewrite forTabsRefTo_lookup, Hi. simpl.
  eexists. split; [reflexivity|].
  match goal with
  | |- context [requestReorderSelects ?fp ?m tab] =>
      destruct (requestReorder_tab_frame fp m tab)
        as (H1 & H2 & H3 & [H4|(idx & idx' & H4 & _ & H5)])
  end; repeat split; eauto.
Qed.

Lemma request_reorder_changes_only_indexes_in_folder_witness :
  List.length [userTab "t" "0/1" 3; userTab "u" "0/2" 2]
  = List.length [userTab "t" "0/1" 2; userTab "u" "0/2" 2].
Proof.
  apply (request_reorder_changes_only_indexes_in_folder
           (mkPayload 3 1 "0/1" (Some 4))).
  vm_compute. reflexivity.
Defined.

(** ** A drop-mode reorder never tears a tab down *)

Lemma collectionReorder_tab_frame (affectedPaths : gmap string string)
    (tab : Tab) :
  let tab' := if collectionReorderSelects affectedPaths tab
              then collectionReorderBody affectedPaths tab else tab in
  tab_id tab' = tab_id tab
  ∧ isDirty (document tab') = isDirty (document tab)
  ∧ inheritedProperties (document tab') = inheritedProperties (document tab)
  ∧ match saveContext (document tab), saveContext (document tab') with
    | None, None => True
    | Some (UserCollection _ idx), Some (UserCollection _ idx') => idx = idx'
    | Some (WorkspaceUserCollection cid _),
      Some (WorkspaceUserCollection cid' _) => cid = cid'
    | Some (TeamCollection cid rid), Some (TeamCollection cid' rid') =>
        cid = cid' ∧ rid = rid'
    | _, _ => False
    end.
Proof.
  destruct tab as [id [[[fp idx|cid rid|cid rid]|] dirty ip]];
    unfold collectionReorderSelects, collectionReorderBody; simpl;
    try done.
  - destruct (affectedPaths !! fp); by destruct (bool_decide _).
  - destruct (affectedPaths !! collectionIDOf rid); by destruct (bool_decide _).
Qed.

(** In mode [Drop] the collection-level resolver never clears a save
    context and never touches a dirty flag, whatever the payload: every tab
    keeps its identity, dirty flag, inherited properties and kind of save
    context, a personal tab keeps its request index, a workspace-relative
    tab its collection field, and a team tab its whole context. *)
Theorem drop_reorder_never_tears_down
    (payload : ReorderPayload) (tabs result : list Tab) :
  resolveSaveContextOnCollectionReorder payload Drop tabs = Some result →
  List.length result = List.length tabs
  ∧ ∀ (i : nat) (tab : Tab), tabs !! i = Some tab →
      ∃ tab', result !! i = Some tab'
        ∧ tab_id tab' = tab_id tab
        ∧ isDirty (document tab') = isDirty (document tab)
        ∧ inheritedProperties (document tab')
          = inheritedProperties (document tab)
        ∧ match saveContext (document tab), saveContext (document tab') with
          | None, None => True
          | Some (UserCollection _ idx), Some (UserCollection _ idx') =>
              idx = idx'
          | Some (WorkspaceUserCollection cid _),
            Some (WorkspaceUserCollection cid' _) => cid = cid'
          | Some (TeamCollection cid rid), Some (TeamCollection cid' rid') =>
              cid = cid' ∧ rid = rid'
          | _, _ => False
          end.
Proof.
  unfold resolveSaveContextOnCollectionReorder.
  destruct (lastIndex payload =? _); [intros [= <-]; split; [done|]|].
  { intros i tab Hi. exists tab. repeat split; auto.
    by destruct (saveContext (document tab)) as [[| |]|]. }
  destruct (mbind _ _) as [r|] eqn:Hr; [|discriminate].
  intros Hres. rewrite Hres in Hr. clear Hres.
  destruct (if _ =? -1 then _ <$> _ else _) as [m|]; [|discriminate].
  simpl in Hr. destruct (_ =? -1); simpl in Hr; injection Hr as <-.
  all: split; [apply forTabsRefTo_length|].
  all: intros i tab Hi; rewrite forTabsRefTo_lookup, Hi; simpl.
  all: eexists; split; [reflexivity|]; apply collectionReorder_tab_frame.
Qed.

Lemma drop_reorder_never_tears_down_witness :
  List.length [userTab "t" "0/1" 3; userTab "u" "0/0" 2]
  = List.length [userTab "t" "0/0" 3; userTab "u" "0/1" 2].
Proof.
  apply (drop_reorder_never_tears_down (mkPayload 0 2 "0" None)).
  vm_compute. reflexivity.
Defined.

(** ** The teardown is idempotent and only ever clears *)

Lemma forTabsRefTo_twice pred body (tabs : list Tab) :
  (∀ tab, pred tab = true → pred (body tab) = false) →
  forTabsRefTo pred body (forTabsRefTo pred body tabs)
  = forTabsRefTo pred body tabs.
Proof.
  intros H. unfold forTabsRefTo. rewrite <- list_fmap_compose.
  apply list_fmap_ext. intros i tab _. simpl.
  destruct (pred tab) eqn:E; [by rewrite H|by rewrite E].
Qed.

(** Running the teardown for a path twice is the same as running it once;
    each tab either stays exactly as it was or, when its save-context path
    starts with the path, ends with no save context and the dirty flag set.
    Identity and inherited properties are never touched. *)
Theorem teardown_idempotent_and_only_clears (path : string) (tabs : list Tab) :
  resetSaveContextForAffectedRequests path
    (resetSaveContextForAffectedRequests path tabs)
  = resetSaveContextForAffectedRequests path tabs
  ∧ ∀ (i : nat) (tab : Tab), tabs !! i = Some tab →
      ∃ tab', resetSaveContextForAffectedRequests path tabs !! i = Some tab'
        ∧ tab_id tab' = tab_id tab
        ∧ inheritedProperties (document tab')
          = inheritedProperties (document tab)
        ∧ (tab' = tab
           ∨ (savePathStartsWith path tab = true
              ∧ saveContext (document tab') = None
              ∧ isDirty (document tab') = true)).
Proof.
  unfold resetSaveContextForAffectedRequests. split.
  - by apply forTabsRefTo_twice.
  - intros i tab Hi. rewrite forTabsRefTo_lookup, Hi. simpl.
    eexists. split; [reflexivity|].
    destruct (savePathStartsWith path tab) eqn:E; repeat split; auto.
Qed.

(** ** A rewritten save context reads back as the mapped path *)

(** When a tab's save-context path is a key of the affected-path map, the
    collection-level loop selects it, and afterwards the tab's path reads
    back as the mapped path; a workspace-relative request identifier keeps
    its trailing segment. *)
Theorem collection_reorder_reads_back
    (affectedPaths : gmap string string) (tab : Tab) (p q : string) :
  savePath tab = Some p →
  affectedPaths !! p = Some q →
  collectionReorderSelects affectedPaths tab = true
  ∧ savePath (collectionReorderBody affectedPaths tab) = Some q
  ∧ ∀ cid rid,
      saveContext (document tab) = Some (WorkspaceUserCollection cid rid) →
      ∃ rid',
        saveContext (document (collectionReorderBody affectedPaths tab))
        = Some (WorkspaceUserCollection cid rid')
        ∧ trailingSegment rid' = trailingSegment rid.
Proof.
  unfold savePath, collectionReorderSelects, collectionReorderBody.
  destruct tab as [id [[[fp idx|cid rid|cid rid]|] dirty ip]]; simpl;
    try discriminate; intros [= <-] Hq; rewrite Hq; simpl.
  - split; [reflexivity|]. split; [reflexivity|].
    intros ? ? [=].
  - destruct (collectionIDOf_child q (trailingSegment rid)
                (split_last_noSlash rid)) as [Hc Ht].
    split; [reflexivity|]. split; [by rewrite Hc|].
    intros ? ? [= <- <-]. eauto.
Qed.

Lemma collection_reorder_reads_back_witness :
  savePath (collectionReorderBody {[ "0/2" := "0/1" ]}
              (workspaceTab "t" "w" "0/2/5")) = Some "0/1".
Proof.
  apply (collection_reorder_reads_back {[ "0/2" := "0/1" ]}
           (workspaceTab "t" "w" "0/2/5") "0/2" "0/1");
    reflexivity.
Defined.

(** ** Relocating a folder *)

Lemma append_assoc (a b c : string) : (a +:+ b) +:+ c = a +:+ b +:+ c.
Proof.
  induction a as [|x a IH]; [reflexivity|].
  change (String x ((a +:+ b) +:+ c) = String x (a +:+ b +:+ c)).
  by f_equal.
Qed.

Lemma substring_all (s : string) : String.substring 0 (String.length s) s = s.
Proof. induction s as [|c s IH]; simpl; [reflexivity|by rewrite IH]. Qed.

Lemma substring_drop (p rest : string) :
  String.substring (String.length p)
    (String.length (p +:+ rest) - String.length p) (p +:+ rest) = rest.
Proof.
  induction p as [|c p IH]; simpl.
  - rewrite Nat.sub_0_r. apply substring_all.
  - exact IH.
Qed.

Lemma prefix_split (p s : string) :
  String.prefix p s = true → ∃ rest, s = p +:+ rest.
Proof.
  revert s. induction p as [|c p IH]; intros s; simpl; [by eexists|].
  destruct s as [|c' s]; simpl; [discriminate|].
  destruct (ascii_dec c c') as [->|]; [|discriminate].
  intros [rest ->]%IH. by exists rest.
Qed.

Lemma findFirst_prefix (p rest : string) :
  JSReplace.findFirst p (p +:+ rest) = Some (EmptyString, rest).
Proof.
  assert (∀ s, String.prefix p s = true →
               JSReplace.findFirst p s
               = Some (EmptyString,
                       String.substring (String.length p)
                         (String.length s - String.length p) s)) as Hunfold.
  { intros s Hs. destruct s; cbn [JSReplace.findFirst]; by rewrite Hs. }
  rewrite Hunfold by apply prefix_append. by rewrite substring_drop.
Qed.

Lemma getSubstitution_plain (matched before after r : string) :
  occurs "$" r = false →
  JSReplace.getSubstitution matched before after r = r.
Proof.
  induction r as [|c r IH]; [reflexivity|]. simpl.
  intros [Hc Hr]%orb_false_elim. specialize (IH Hr).
  destruct c as [[] [] [] [] [] [] [] []]; simpl in *;
    try discriminate; by rewrite IH.
Qed.

Lemma replace_prefix (old new rest : string) :
  occurs "$" new = false →
  JSReplace.replace (old +:+ rest) old new = new +:+ rest.
Proof.
  intros Hnew. unfold JSReplace.replace.
  by rewrite findFirst_prefix, getSubstitution_plain.
Qed.

(** Relocating [old] to [new] (a path without dollar signs) selects every
    tab whose save-context path starts with [old] and swaps exactly that
    leading [old] for [new], whatever follows it; the tab's identity, dirty
    flag, inherited properties and request index stay. *)
Theorem relocation_swaps_leading_path
    (old new rest : string) (tabs : list Tab) (i : nat) (tab : Tab) :
  occurs "$" new = false →
  tabs !! i = Some tab →
  savePath tab = Some (old +:+ rest) →
  ∃ tab', updateSaveContextForAffectedRequests old new tabs !! i = Some tab'
    ∧ savePath tab' = Some (new +:+ rest)
    ∧ tab_id tab' = tab_id tab
    ∧ isDirty (document tab') = isDirty (document tab)
    ∧ inheritedProperties (document tab') = inheritedProperties (document tab)
    ∧ ∀ fp idx, saveContext (document tab) = Some (UserCollection fp idx) →
        saveContext (document tab')
        = Some (UserCollection (new +:+ rest) idx).
Proof.
  intros Hnew Hi Hp. unfold updateSaveContextForAffectedRequests.
  rewrite forTabsRefTo_lookup, Hi. simpl. eexists. split; [reflexivity|].
  rewrite savePathStartsWith_savePath, Hp. unfold JS.startsWith.
  rewrite prefix_append.
  unfold savePath, relocateBody in *.
  destruct tab as [id [[[fp idx|cid rid|cid rid]|] dirty ip]]; simpl in *;
    try discriminate; injection Hp as Hp.
  - rewrite Hp, replace_prefix by assumption. repeat split.
    by intros ? ? [= _ <-].
  - rewrite Hp, replace_prefix by assumption.
    destruct (collectionIDOf_child (new +:+ rest) (trailingSegment rid)
                (split_last_noSlash rid)) as [-> _].
    repeat split. intros ? ? [=].
Qed.

Lemma relocation_swaps_leading_path_witness :
  ∃ tab',
    updateSaveContextForAffectedRequests "0/1" "2/0"
      [userTab "t" "0/1/3" 4] !! 0%nat = Some tab'
    ∧ savePath tab' = Some "2/0/3".
Proof.
  destruct (relocation_swaps_leading_path "0/1" "2/0" "/3"
              [userTab "t" "0/1/3" 4] 0%nat (userTab "t" "0/1/3" 4))
    as (tab' & H1 & H2 & _); [reflexivity|reflexivity|reflexivity|].
  by exists tab'.
Defined.

Lemma concat_snoc (sep : string) (l : list string) (x : string) :
  l ≠ [] →
  String.concat sep (l ++ [x]) = String.concat sep l +:+ sep +:+ x.
Proof.
  induction l as [|y l IH]; [done|]. intros _.
  destruct l as [|z l]; [reflexivity|].
  change (y +:+ sep +:+ String.concat sep ((z :: l) ++ [x])
          = (y +:+ sep +:+ String.concat sep (z :: l)) +:+ sep +:+ x).
  rewrite IH by done. by rewrite !append_assoc.
Qed.

(** A request identifier with a non-empty collection prefix is that prefix,
    a slash and its trailing segment. *)
Lemma path_rejoin (rid : string) :
  collectionIDOf rid ≠ EmptyString →
  collectionIDOf rid +:+ "/" +:+ trailingSegment rid = rid.
Proof.
  unfold collectionIDOf, trailingSegment, JS.sliceInit, JS.sliceLast,
    JS.join, pathSegments. intros Hne.
  pose proof (split_nonempty "/" rid) as Hl.
  pose proof (join_split "/" rid) as Hj. unfold JS.join in Hj.
  rewrite (app_removelast_last EmptyString Hl) in Hj at 1.
  rewrite concat_snoc in Hj; [exact Hj|].
  intros Hnil. apply Hne. by rewrite Hnil.
Qed.

Lemma append_nonempty (a b : string) : a ≠ EmptyString → a +:+ b ≠ EmptyString.
Proof. by destruct a. Qed.

Lemma relocate_and_back (old new : string) (tab : Tab) :
  old ≠ EmptyString →
  occurs "$" old = false → occurs "$" new = false →
  savePathStartsWith new tab = false →
  (λ tab, if savePathStartsWith new tab then relocateBody new old tab else tab)
    (if savePathStartsWith old tab then relocateBody old new tab else tab)
  = tab.
Proof.
  intros Hold Hdo Hdn Hnew. simpl.
  destruct (savePathStartsWith old tab) eqn:Hsel; [|by rewrite Hnew].
  rewrite savePathStartsWith_savePath in Hsel.
  destruct (savePath tab) as [p|] eqn:Hp; [|discriminate].
  apply prefix_split in Hsel as [rest ->].
  unfold savePath, savePathStartsWith, relocateBody in *.
  destruct tab as [id [[[fp idx|cid rid|cid rid]|] dirty ip]]; simpl in *;
    try discriminate; injection Hp as Hp.
  - rewrite Hp, replace_prefix by assumption. unfold JS.startsWith.
    rewrite prefix_append, replace_prefix by assumption. reflexivity.
  - rewrite Hp, replace_prefix by assumption.
    destruct (collectionIDOf_child (new +:+ rest) (trailingSegment rid)
                (split_last_noSlash rid)) as [-> ->].
    unfold JS.startsWith.
    rewrite prefix_append, replace_prefix by assumption.
    rewrite <- Hp, path_rejoin; [reflexivity|].
    rewrite Hp. by apply append_nonempty.
Qed.

(** Relocating [old] to [new] and then [new] back to [old] restores every
    tab, provided [old] is not empty, neither path holds a dollar sign, and
    no tab's save-context path started with [new] beforehand. *)
Theorem relocation_there_and_back (old new : string) (tabs : list Tab) :
  old ≠ EmptyString →
  occurs "$" old = false → occurs "$" new = false →
  (∀ tab, tab ∈ tabs → savePathStartsWith new tab = false) →
  updateSaveContextForAffectedRequests new old
    (updateSaveContextForAffectedRequests old new tabs)
  = tabs.
Proof.
  intros Hold Hdo Hdn Hfree.
  unfold updateSaveContextForAffectedRequests, forTabsRefTo.
  rewrite <- list_fmap_compose. rewrite <- (list_fmap_id tabs) at 2.
  apply list_fmap_ext. intros i tab Hi. simpl.
  apply relocate_and_back; try assumption.
  apply Hfree. by eapply list_elem_of_lookup_2.
Qed.

Lemma relocation_there_and_back_witness :
  updateSaveContextForAffectedRequests "2/0" "0/1"
    (updateSaveContextForAffectedRequests "0/1" "2/0"
       [userTab "t" "0/1/3" 4; workspaceTab "w" "c" "0/1/7"; userTab "u" "3" 0])
  = [userTab "t" "0/1/3" 4; workspaceTab "w" "c" "0/1/7"; userTab "u" "3" 0].
Proof.
  apply relocation_there_and_back; [done|reflexivity|reflexivity|].
  intros tab Htab.
  repeat (apply elem_of_cons in Htab as [->|Htab]; [reflexivity|]).
  by apply elem_of_nil in Htab.
Defined.

(** ** Team reconciliation *)

(** The reconciliation sweep clears exactly the team tabs whose request the
    backend reports as [null] (save context gone, dirty flag set) and leaves
    every other tab as it was, also when the query fails; afterwards no team
    tab points at a request reported [null], and a second sweep with the
    same answers changes nothing. *)
Theorem team_reconciliation_clears_only_deleted
    (runGQLQuery : string → SingleRequestResult) (tabs : list Tab) :
  resetTeamRequestsContext runGQLQuery
    (resetTeamRequestsContext runGQLQuery tabs)
  = resetTeamRequestsContext runGQLQuery tabs
  ∧ ∀ (i : nat) (tab : Tab), tabs !! i = Some tab →
      ∃ tab', resetTeamRequestsContext runGQLQuery tabs !! i = Some tab'
        ∧ (tab' = tab
           ∨ ∃ cid rid,
               saveContext (document tab) = Some (TeamCollection cid rid)
               ∧ runGQLQuery rid = RequestNull
               ∧ tab' = tornDown tab)
        ∧ ∀ cid rid,
            saveContext (document tab') = Some (TeamCollection cid rid) →
            runGQLQuery rid ≠ RequestNull.
Proof.
  unfold resetTeamRequestsContext. split.
  - unfold forTabsRefTo. rewrite <- list_fmap_compose.
    apply list_fmap_ext. intros i tab _. simpl.
    unfold isTeamTab, reconcileBody.
    destruct tab as [id [[[fp idx|cid rid|cid rid]|] dirty ip]]; simpl;
      try reflexivity.
    destruct (runGQLQuery rid) eqn:E; simpl; by rewrite ?E.
  - intros i tab Hi. rewrite forTabsRefTo_lookup, Hi. simpl.
    eexists. split; [reflexivity|].
    unfold isTeamTab, reconcileBody.
    destruct tab as [id [[[fp idx|cid rid|cid rid]|] dirty ip]]; simpl;
      try (split; [by left|intros ? ? [=]]).
    destruct (runGQLQuery rid) eqn:E; simpl.
    + split; [by left|]. intros ? ? [= _ <-]. by rewrite E.
    + split; [right; eauto|]. intros ? ? [=].
    + split; [by left|]. intros ? ? [= _ <-]. by rewrite E.
Qed.

(** ** Looking collections up by path *)

Lemma tree_lookups_reach (collections : list Insomnia.HoppCollection)
    (path : string) :
  getRequestsByPath collections path
  = Insomnia.coll_requests <$> reachedCollection collections path
  ∧ (path ≠ EmptyString →
     getFoldersByPath collections path
     = Insomnia.coll_folders <$> reachedCollection collections path).
Proof.
  assert (∀ A (l : list A), List.length l = 1%nat → tail l = []) as Htail.
  { intros A [|x [|y l]]; simpl; try done. }
  unfold getRequestsByPath, getFoldersByPath, reachedCollection. split.
  - destruct (arrayAt collections _) as [c|]; [|reflexivity]. simpl.
    destruct (Nat.eqb_spec (List.length (JS.parseInt <$> pathSegments path)) 1)
      as [H1|_]; [|reflexivity].
    by rewrite (Htail _ _ H1).
  - intros Hne. destruct path as [|a path]; [done|].
    destruct (arrayAt collections _) as [c|]; [|reflexivity]. simpl.
    destruct (Nat.eqb_spec
                (List.length (JS.parseInt <$> pathSegments (String a path))) 1)
      as [H1|_]; [|reflexivity].
    by rewrite (Htail _ _ H1).
Qed.

(** Both lookups step over a trailing segment that names no folder of the
    collection reached so far (not a number, negative, or past the end):
    the longer path resolves to the same requests and folders as the path
    without it. *)
Theorem lookup_skips_a_segment_without_folder
    (collections : list Insomnia.HoppCollection) (path seg : string)
    (reached : Insomnia.HoppCollection) :
  reachedCollection collections path = Some reached →
  noSlash seg →
  arrayAt (Insomnia.coll_folders reached) (JS.parseInt seg) = None →
  getRequestsByPath collections (path +:+ "/" +:+ seg)
  = Some (Insomnia.coll_requests reached)
  ∧ getRequestsByPath collections path = Some (Insomnia.coll_requests reached)
  ∧ getFoldersByPath collections (path +:+ "/" +:+ seg)
    = Some (Insomnia.coll_folders reached).
Proof.
  intros Hreach Hseg Hnone.
  assert (reachedCollection collections (path +:+ "/" +:+ seg) = Some reached)
    as Hlong.
  { unfold reachedCollection, pathSegments in *.
    change (path +:+ "/" +:+ seg) with (path +:+ String "/" seg).
    rewrite split_app. unfold noSlash, pathSegments in Hseg. rewrite Hseg.
    pose proof (split_nonempty "/" path) as Hne.
    destruct (JS.split "/" path) as [|s0 ss]; [done|]. simpl in *.
    destruct (arrayAt collections (JS.parseInt s0)) as [c|]; [|discriminate].
    simpl in *. injection Hreach as Hreach.
    change (list_fmap string (option Z) JS.parseInt (ss ++ [seg]))
      with (JS.parseInt <$> (ss ++ [seg])).
    rewrite fmap_app, foldl_app. simpl.
    change (list_fmap string (option Z) JS.parseInt ss)
      with (JS.parseInt <$> ss) in Hreach.
    rewrite Hreach. unfold stepInto. by rewrite Hnone. }
  destruct (tree_lookups_reach collections (path +:+ "/" +:+ seg))
    as [Hr Hf].
  destruct (tree_lookups_reach collections path) as [Hr' _].
  rewrite Hr, Hr', Hf, Hlong, Hreach; [done|].
  by destruct path.
Qed.

Lemma lookup_skips_a_segment_without_folder_witness :
  getRequestsByPath
    [Insomnia.makeCollection "root"
       [Insomnia.makeCollection "only" [] [] (AuthInherit true) []] []
       (AuthInherit true) []]
    ("0" +:+ "/" +:+ "7")
  = Some [].
Proof.
  apply (lookup_skips_a_segment_without_folder
           [Insomnia.makeCollection "root"
              [Insomnia.makeCollection "only" [] [] (AuthInherit true) []] []
              (AuthInherit true) []]
           "0" "7"
           (Insomnia.makeCollection "root"
              [Insomnia.makeCollection "only" [] [] (AuthInherit true) []] []
              (AuthInherit true) []));
    reflexivity.
Defined.

(** ** Paths written by the resolvers are read back by the lookups *)

Lemma digitValue_pretty_char (d : N) :
  (d < 10)%N → JS.digitValue 10 (pretty_N_char d) = Some (Z.of_N d).
Proof.
  intros Hd.
  assert (d = 0 ∨ d = 1 ∨ d = 2 ∨ d = 3 ∨ d = 4 ∨ d = 5 ∨ d = 6 ∨ d = 7
          ∨ d = 8 ∨ d = 9)%N as H by lia.
  repeat (destruct H as [->|H]; [reflexivity|]). by subst.
Qed.

Lemma pretty_N_go_read (x : N) :
  ∃ k : Z, ∀ (acc : option Z) (s : string),
    (0 < x)%N →
    JS.readDigits 10 acc (pretty_N_go x s)
    = JS.readDigits 10 (Some (k * default 0 acc + Z.of_N x)) s.
Proof.
  induction (N.lt_wf_0 x) as [x _ IH].
  destruct (decide (x = 0)%N) as [->|Hx0]; [exists 1; intros; lia|].
  destruct (decide (x `div` 10 = 0)%N) as [Hz|Hz].
  - exists 10. intros acc s Hx. rewrite pretty_N_go_step by assumption.
    rewrite Hz, pretty_N_go_0. simpl.
    rewrite digitValue_pretty_char by (apply N.mod_lt; lia).
    do 2 f_equal. pose proof (N.div_mod x 10). lia.
  - destruct (IH (x `div` 10)%N) as [k Hk].
    { apply N.div_lt; lia. }
    exists (10 * k). intros acc s Hx. rewrite pretty_N_go_step by assumption.
    rewrite Hk by by apply N.neq_0_lt_0. simpl.
    rewrite digitValue_pretty_char by (apply N.mod_lt; lia).
    do 2 f_equal. pose proof (N.div_mod x 10). lia.
Qed.

Lemma pretty_N_go_digits (x : N) (s : string) :
  digitsOnly (pretty_N_go x s) = digitsOnly s.
Proof.
  revert s. induction (N.lt_wf_0 x) as [x _ IH]. intros s.
  destruct (decide (0 < x)%N) as [Hx|Hx].
  - rewrite pretty_N_go_step by assumption.
    rewrite IH by (apply N.div_lt; lia). simpl.
    by rewrite digitValue_pretty_char by (apply N.mod_lt; lia).
  - assert (x = 0%N) as -> by lia. by rewrite pretty_N_go_0.
Qed.

Lemma toString_digits (k : Z) : 0 ≤ k → digitsOnly (JS.toString k) = true.
Proof.
  intros Hk. unfold JS.toString, pretty, pretty_Z.
  destruct k as [|p|p]; [reflexivity| |lia].
  unfold pretty, pretty_positive, pretty, pretty_N.
  destruct (decide (N.pos p = 0%N)); [reflexivity|].
  by rewrite pretty_N_go_digits.
Qed.

Lemma digit_char_cases (c : ascii) (d : Z) :
  JS.digitValue 10 c = Some d →
  c ∈ ["0"; "1"; "2"; "3"; "4"; "5"; "6"; "7"; "8"; "9"]%char.
Proof.
  destruct c as [[] [] [] [] [] [] [] []]; vm_compute; intros H;
    try discriminate; set_solver.
Qed.

Lemma digitsOnly_noSlash (s : string) : digitsOnly s = true → noSlash s.
Proof.
  unfold noSlash, pathSegments. induction s as [|c s IH]; [reflexivity|].
  simpl. destruct (JS.digitValue 10 c) as [d|] eqn:E; [|discriminate].
  intros Hs. rewrite (IH Hs). apply digit_char_cases in E.
  repeat (apply elem_of_cons in E as [->|E]; [reflexivity|]).
  by apply elem_of_nil in E.
Qed.

Lemma skipWhiteSpace_digit (c : ascii) (d : Z) (s : string) :
  JS.digitValue 10 c = Some d →
  JS.skipWhiteSpace (String c s) = String c s.
Proof.
  intros E. apply digit_char_cases in E.
  repeat (apply elem_of_cons in E as [->|E];
          [by destruct s as [|c2 [|c3 s3]]|]).
  by apply elem_of_nil in E.
Qed.

Lemma parseInt_digits (s : string) :
  digitsOnly s = true → JS.parseInt s = JS.readDigits 10 None s.
Proof.
  destruct s as [|c s]; [reflexivity|]. intros Hs. simpl in Hs.
  destruct (JS.digitValue 10 c) as [d|] eqn:E; [|discriminate].
  unfold JS.parseInt. rewrite (skipWhiteSpace_digit _ _ _ E).
  pose proof (digit_char_cases _ _ E) as Hc. clear E.
  repeat (apply elem_of_cons in Hc as [->|Hc];
          [try reflexivity|]); [|by apply elem_of_nil in Hc].
  destruct s as [|c' s]; [reflexivity|]. simpl in Hs.
  destruct (JS.digitValue 10 c') as [d'|] eqn:E'; [|discriminate].
  pose proof (digit_char_cases _ _ E') as Hc'. clear E'.
  repeat (apply elem_of_cons in Hc' as [->|Hc']; [reflexivity|]).
  by apply elem_of_nil in Hc'.
Qed.

(** White space outside ASCII is skipped as well: a no-break space before
    the digits, in UTF-8 or as one code unit, and a byte order mark; a
    letter outside ASCII is no white space. *)
Example parseInt_skips_white_space :
  JS.parseInt (String (ascii_of_nat 194) (String (ascii_of_nat 160) "1"))
  = Some 1
  ∧ JS.parseInt (String (ascii_of_nat 160) "1") = Some 1
  ∧ JS.parseInt
      (String (ascii_of_nat 239)
         (String (ascii_of_nat 187) (String (ascii_of_nat 191) " 12")))
    = Some 12
  ∧ JS.parseInt (String (ascii_of_nat 195) (String (ascii_of_nat 130) "1"))
    = None.
Proof. repeat split; vm_compute; reflexivity. Qed.

(** Reading back what [toString] wrote, for a position. *)
Lemma parseInt_toString (k : Z) : 0 ≤ k → JS.parseInt (JS.toString k) = Some k.
Proof.
  intros Hk. rewrite parseInt_digits by by apply toString_digits.
  unfold JS.toString, pretty, pretty_Z.
  destruct k as [|p|p]; [reflexivity| |lia].
  unfold pretty, pretty_positive, pretty, pretty_N.
  destruct (decide (N.pos p = 0%N)); [done|].
  destruct (pretty_N_go_read (N.pos p)) as [k Hk'].
  rewrite Hk' by lia. simpl. f_equal. lia.
Qed.

Lemma reached_extend (collections : list Insomnia.HoppCollection)
    (path seg : string) (reached : Insomnia.HoppCollection) :
  reachedCollection collections path = Some reached →
  noSlash seg →
  reachedCollection collections (path +:+ "/" +:+ seg)
  = Some (stepInto reached (JS.parseInt seg)).
Proof.
  intros Hreach Hseg. unfold reachedCollection, pathSegments in *.
  change (path +:+ "/" +:+ seg) with (path +:+ String "/" seg).
  rewrite split_app. unfold noSlash, pathSegments in Hseg. rewrite Hseg.
  pose proof (split_nonempty "/" path) as Hne.
  destruct (JS.split "/" path) as [|s0 ss]; [done|]. simpl in *.
  destruct (arrayAt collections (JS.parseInt s0)) as [c|]; [|discriminate].
  simpl in *. injection Hreach as Hreach.
  change (list_fmap string (option Z) JS.parseInt (ss ++ [seg]))
    with (JS.parseInt <$> (ss ++ [seg])).
  rewrite fmap_app, foldl_app. simpl.
  change (list_fmap string (option Z) JS.parseInt ss)
    with (JS.parseInt <$> ss) in Hreach.
  by rewrite Hreach.
Qed.

(** The path the resolvers build for child [k] of a folder path addresses
    the [k]-th entry of the folder list which [getFoldersByPath] returns for
    that folder path: both lookups on the child path give that entry's
    requests and folders.  This holds at the root (empty folder path) as
    well. *)
Theorem child_path_addresses_kth_folder
    (collections : list Insomnia.HoppCollection) (folderPath : string)
    (k : Z) (folders : list Insomnia.HoppCollection)
    (child : Insomnia.HoppCollection) :
  0 ≤ k →
  getFoldersByPath collections folderPath = Some folders →
  folders !! Z.to_nat k = Some child →
  getRequestsByPath collections (childPath folderPath k)
  = Some (Insomnia.coll_requests child)
  ∧ getFoldersByPath collections (childPath folderPath k)
    = Some (Insomnia.coll_folders child).
Proof.
  intros Hk Hfolders Hchild.
  assert (reachedCollection collections (childPath folderPath k) = Some child)
    as Hreach.
  { pose proof (digitsOnly_noSlash _ (toString_digits k Hk)) as Hns.
    destruct folderPath as [|a fp].
    - simpl in *. injection Hfolders as <-.
      unfold reachedCollection. unfold noSlash in Hns. rewrite Hns. simpl.
      rewrite parseInt_toString by assumption. simpl.
      destruct (Z.leb_spec 0 k); [|lia]. by rewrite Hchild.
    - destruct (tree_lookups_reach collections (String a fp)) as [_ Hf].
      rewrite Hf in Hfolders by done.
      destruct (reachedCollection collections (String a fp)) as [parent|] eqn:E;
        [|discriminate].
      injection Hfolders as Hfolders.
      change (childPath (String a fp) k)
        with (String a fp +:+ "/" +:+ JS.toString k).
      rewrite (reached_extend _ _ _ _ E Hns).
      rewrite parseInt_toString by assumption.
      unfold stepInto, arrayAt. destruct (Z.leb_spec 0 k); [|lia].
      by rewrite Hfolders, Hchild. }
  destruct (tree_lookups_reach collections (childPath folderPath k))
    as [Hr Hf].
  rewrite Hr, Hf, Hreach; [done|].
  intros Hempty. rewrite Hempty in Hreach. discriminate.
Qed.

Lemma child_path_addresses_kth_folder_witness :
  getRequestsByPath
    [Insomnia.makeCollection "root"
       [Insomnia.makeCollection "a" [] [] (AuthInherit true) [];
        Insomnia.makeCollection "b" [] [] (AuthInherit true) []] []
       (AuthInherit true) []]
    (childPath "0" 1)
  = Some [].
Proof.
  apply (child_path_addresses_kth_folder _ "0" 1
           [Insomnia.makeCollection "a" [] [] (AuthInherit true) [];
            Insomnia.makeCollection "b" [] [] (AuthInherit true) []]
           (Insomnia.makeCollection "b" [] [] (AuthInherit true) []));
    [lia|reflexivity|reflexivity].
Defined.

(** ** What the propagator leaves alone *)

(** Propagation keeps the number of tabs and never touches a tab's
    identity, save context or dirty flag; a tab it does not select under
    the path is left exactly as it was; and a tab that had cached inherited
    properties still has some afterwards. *)
Theorem propagation_touches_only_inherited_properties
    (path : string) (newProperties : HoppInheritedProperty)
    (workspace : Workspace) (tabs : list Tab) :
  List.length
    (updateInheritedPropertiesForAffectedRequests path newProperties
       workspace tabs)
  = List.length tabs
  ∧ ∀ (i : nat) (tab : Tab), tabs !! i = Some tab →
      ∃ tab',
        updateInheritedPropertiesForAffectedRequests path newProperties
          workspace tabs !! i = Some tab'
        ∧ tab_id tab' = tab_id tab
        ∧ saveContext (document tab') = saveContext (document tab)
        ∧ isDirty (document tab') = isDirty (document tab)
        ∧ (propagationSelects workspace path tab = false → tab' = tab)
        ∧ (is_Some (inheritedProperties (document tab)) →
           is_Some (inheritedProperties (document tab'))).
Proof.
  unfold updateInheritedPropertiesForAffectedRequests. split.
  - apply length_fmap.
  - intros i tab Hi. rewrite list_lookup_fmap, Hi. simpl.
    eexists. split; [reflexivity|].
    destruct (propagationSelects workspace path tab); simpl;
      [|by repeat split].
    destruct tab as [id [sc dirty ip]].
    unfold effectedByHeaders, refreshHeaders; simpl.
    destruct (effectedByAuth workspace path _); simpl.
    + destruct ip as [ip|]; simpl;
        [|repeat split; eauto; try done; by intros [? ?]].
      destruct (existsb _ (headers ip)); simpl; repeat split; eauto; done.
    + destruct ip as [ip|]; simpl;
        [|repeat split; eauto; try done; by intros [? ?]].
      destruct (existsb _ (headers ip)); simpl; repeat split; eauto; done.
Qed.

(** ** Which ancestor wins the closeness check *)

Lemma pathSegments_length (s : string) : (1 ≤ List.length (pathSegments s))%nat.
Proof.
  pose proof (split_nonempty "/" s) as H. unfold pathSegments.
  destruct (JS.split "/" s); [done|simpl; lia].
Qed.

Lemma auth_after_update (path : string) (newProperties : HoppInheritedProperty)
    (workspace : Workspace) (tabs : list Tab) (i : nat) (tab : Tab) :
  tabs !! i = Some tab →
  propagationSelects workspace path tab = true →
  ∃ tab',
    updateInheritedPropertiesForAffectedRequests path newProperties
      workspace tabs !! i = Some tab'
    ∧ auth <$> inheritedProperties (document tab')
      = if effectedByAuth workspace path tab
        then Some (auth newProperties)
        else auth <$> inheritedProperties (document tab).
Proof.
  intros Hi Hsel. eexists. split; [by apply update_lookup|]. simpl.
  destruct (effectedByAuth workspace path tab);
    destruct (effectedByHeaders path tab); try reflexivity;
    by rewrite refreshHeaders_keeps_auth.
Qed.

(** Editing the very folder a tab's auth is inherited from always reaches
    the tab: when the cached auth source is the mutated path itself, the
    tab's cached auth is replaced by the new one. *)
Theorem editing_the_auth_source_updates_the_tab
    (path : string) (newProperties : HoppInheritedProperty)
    (workspace : Workspace) (tabs : list Tab) (i : nat) (tab : Tab) :
  tabs !! i = Some tab →
  propagationSelects workspace path tab = true →
  cachedAuthParentID tab = Some path →
  ∃ tab',
    updateInheritedPropertiesForAffectedRequests path newProperties
      workspace tabs !! i = Some tab'
    ∧ auth <$> inheritedProperties (document tab')
      = Some (auth newProperties).
Proof.
  intros Hi Hsel Hcached.
  destruct (auth_after_update path newProperties workspace tabs i tab Hi Hsel)
    as (tab' & Hres & Hauth).
  exists tab'. split; [exact Hres|]. rewrite Hauth.
  destruct (propagationSelects_path _ _ _ Hsel) as (sp & Hsp & _).
  assert (effectedByAuth workspace path tab = true) as ->; [|reflexivity].
  apply (effectedByAuth_closeness _ _ sp); try assumption.
  rewrite Hcached. intros (cur & [= <-] & _ & Hlt). lia.
Qed.

Lemma editing_the_auth_source_updates_the_tab_witness :
  ∃ tab',
    updateInheritedPropertiesForAffectedRequests "0/1"
      (inheritedFrom "0/1" [headerEntry "0/1" "A" "2"]) Personal
      [tabWith "t" "0/1/2" (inheritedFrom "0/1" [headerEntry "0/1" "A" "1"])]
      !! 0%nat = Some tab'
    ∧ auth <$> inheritedProperties (document tab')
      = Some (auth (inheritedFrom "0/1" [headerEntry "0/1" "A" "2"])).
Proof.
  apply (editing_the_auth_source_updates_the_tab "0/1" _ Personal _ 0%nat
           (tabWith "t" "0/1/2"
              (inheritedFrom "0/1" [headerEntry "0/1" "A" "1"])));
    reflexivity.
Defined.

(** For a tab whose cached auth source and the mutated path are both
    ancestors of the tab's own path (segment by segment): mutating a
    proper ancestor of the cached source leaves the cached auth alone,
    and mutating the cached source or a folder between it and the tab
    replaces it. *)
Theorem nearer_ancestor_wins
    (path cached sp : string) (newProperties : HoppInheritedProperty)
    (workspace : Workspace) (tabs : list Tab) (i : nat) (tab : Tab) :
  tabs !! i = Some tab →
  propagationSelects workspace path tab = true →
  propagationPath workspace tab = Some sp →
  cachedAuthParentID tab = Some cached →
  pathSegments cached `prefix_of` pathSegments sp →
  pathSegments path `prefix_of` pathSegments sp →
  ∃ tab',
    updateInheritedPropertiesForAffectedRequests path newProperties
      workspace tabs !! i = Some tab'
    ∧ ((List.length (pathSegments path)
        < List.length (pathSegments cached))%nat →
       auth <$> inheritedProperties (document tab')
       = auth <$> inheritedProperties (document tab))
    ∧ ((List.length (pathSegments cached)
        ≤ List.length (pathSegments path))%nat →
       auth <$> inheritedProperties (document tab')
       = Some (auth newProperties)).
Proof.
  intros Hi Hsel Hsp Hcached Hc Hp.
  destruct (auth_after_update path newProperties workspace tabs i tab Hi Hsel)
    as (tab' & Hres & Hauth).
  exists tab'. split; [exact Hres|]. rewrite Hauth.
  pose proof (effectedByAuth_closeness _ _ _ _ Hsel Hsp) as Hiff.
  destruct (matchCount_of_ancestor _ _ Hc) as [Hmc _].
  destruct (matchCount_of_ancestor _ _ Hp) as [Hmp _].
  split.
  - intros Hlt.
    destruct (effectedByAuth workspace path tab); [|reflexivity].
    exfalso. apply Hiff; [reflexivity|]. rewrite Hcached.
    exists cached. split; [reflexivity|]. split; [|lia].
    intros ->. pose proof (pathSegments_length path). simpl in Hlt. lia.
  - intros Hle.
    assert (effectedByAuth workspace path tab = true) as ->; [|reflexivity].
    apply Hiff. rewrite Hcached. intros (cur & [= <-] & _ & Hlt). lia.
Qed.

Lemma nearer_ancestor_wins_witness :
  ∃ tab',
    updateInheritedPropertiesForAffectedRequests "0"
      (inheritedFrom "0" []) Personal
      [tabWith "t" "0/1/2" (inheritedFrom "0/1" [])] !! 0%nat = Some tab'
    ∧ auth <$> inheritedProperties (document tab')
      = Some (auth (inheritedFrom "0/1" [])).
Proof.
  destruct (nearer_ancestor_wins "0" "0/1" "0/1/2" (inheritedFrom "0" [])
              Personal [tabWith "t" "0/1/2" (inheritedFrom "0/1" [])] 0%nat
              (tabWith "t" "0/1/2" (inheritedFrom "0/1" [])))
    as (tab' & Hres & Hkeep & _);
    try reflexivity.
  - by exists ["2"].
  - by exists ["1"; "2"].
  - exists tab'. split; [exact Hres|]. apply Hkeep. vm_compute. lia.
Defined.

(** ** The templating rewrite *)

Lemma matchTemplate_other (c : ascii) (s : string) :
  c ≠ "{"%char → Insomnia.matchTemplate (String c s) = None.
Proof.
  intros Hc. unfold Insomnia.matchTemplate.
  assert (String.prefix "{{ _." (String c s) = false) as ->; [|reflexivity].
  change (String.prefix "{{ _." (String c s))
    with (if ascii_dec "{" c then String.prefix "{ _." s else false).
  destruct (ascii_dec "{" c) as [<-|_]; [done|reflexivity].
Qed.

(** A text without an opening brace passes through the rewrite unchanged. *)
Theorem templating_keeps_brace_free_text (expression : string) :
  occurs "{" expression = false →
  Insomnia.replaceInsomniaTemplating expression = expression.
Proof.
  unfold Insomnia.replaceInsomniaTemplating.
  induction expression as [|c s IH]; [reflexivity|].
  intros H. simpl in H. apply orb_false_elim in H as [Hc Hs].
  cbn [Insomnia.replaceFrom]. rewrite matchTemplate_other.
  - by rewrite IH.
  - intros ->. discriminate.
Qed.

Lemma templating_keeps_brace_free_text_witness :
  Insomnia.replaceInsomniaTemplating "https://example.com/users?id=1"
  = "https://example.com/users?id=1".
Proof. apply templating_keeps_brace_free_text. reflexivity. Defined.

Lemma spanNotBrace_stop (a b : string) :
  occurs "}" a = false →
  Insomnia.spanNotBrace (a +:+ String "}" b) = (a, String "}" b).
Proof.
  induction a as [|c a IH]; [reflexivity|].
  intros H. simpl in H. apply orb_false_elim in H as [Hc Ha].
  change (String c a +:+ String "}" b) with (String c (a +:+ String "}" b)).
  cbn [Insomnia.spanNotBrace]. rewrite Hc, IH by assumption. reflexivity.
Qed.

Lemma length_append (a b : string) :
  String.length (a +:+ b) = (String.length a + String.length b)%nat.
Proof.
  induction a as [|c a IH]; [reflexivity|].
  change (String c a +:+ b) with (String c (a +:+ b)). simpl. by rewrite IH.
Qed.

Lemma substring_last (a : string) (c : ascii) :
  String.substring (String.length a) 1 (a +:+ String c EmptyString)
  = String c EmptyString.
Proof. induction a as [|x a IH]; [reflexivity|exact IH]. Qed.

Lemma substring_init (a b : string) :
  String.substring 0 (String.length a) (a +:+ b) = a.
Proof.
  induction a as [|x a IH]; [by destruct b|].
  change (String x a +:+ b) with (String x (a +:+ b)). simpl. by rewrite IH.
Qed.

Lemma occurs_append (c : ascii) (a b : string) :
  occurs c (a +:+ b) = occurs c a || occurs c b.
Proof.
  induction a as [|x a IH]; [reflexivity|].
  change (String x a +:+ b) with (String x (a +:+ b)). simpl.
  by rewrite IH, orb_assoc.
Qed.

Lemma replaceFrom_skip (a b : string) :
  Insomnia.replaceFrom (String.length a) (a +:+ b) = Insomnia.replaceFrom O b.
Proof. induction a as [|x a IH]; [reflexivity|exact IH]. Qed.

(** A template [{{ _.NAME }}] at the head of a text, with a non-empty name
    free of closing braces, becomes [<<NAME>>], and the rewrite goes on with
    what follows the template. *)
Theorem templating_rewrites_a_template (name post : string) :
  name ≠ EmptyString →
  occurs "}" name = false →
  Insomnia.replaceInsomniaTemplating ("{{ _." +:+ name +:+ " }}" +:+ post)
  = "<<" +:+ name +:+ ">>" +:+ Insomnia.replaceInsomniaTemplating post.
Proof.
  intros Hname Hbrace. unfold Insomnia.replaceInsomniaTemplating.
  change ("{{ _." +:+ name +:+ " }}" +:+ post)
    with (String "{" ("{ _." +:+ name +:+ " }}" +:+ post)).
  cbn [Insomnia.replaceFrom].
  assert (Insomnia.matchTemplate
            (String "{" ("{ _." +:+ name +:+ " }}" +:+ post))
          = Some (name, (5 + String.length (name +:+ " ") + 2)%nat)) as ->.
  { unfold Insomnia.matchTemplate.
    change (String.prefix "{{ _."
              (String "{" ("{ _." +:+ name +:+ " }}" +:+ post)))
      with (String.prefix "" (name +:+ " }}" +:+ post)).
    replace (String.prefix "" (name +:+ " }}" +:+ post)) with true
      by by destruct (name +:+ " }}" +:+ post).
    change (String "{" ("{ _." +:+ name +:+ " }}" +:+ post))
      with ("{{ _." +:+ (name +:+ " }}" +:+ post)).
    pose proof (substring_drop "{{ _." (name +:+ " }}" +:+ post)) as Hd.
    change (String.length "{{ _.") with 5%nat in Hd. rewrite Hd. clear Hd.
    change (name +:+ " }}" +:+ post)
      with (name +:+ " " +:+ String "}" (String "}" post)).
    rewrite <- append_assoc.
    rewrite spanNotBrace_stop
      by (rewrite occurs_append, Hbrace; reflexivity).
    assert (String.length (name +:+ " ") = S (String.length name)) as Hlen
      by (rewrite length_append; simpl; lia).
    rewrite Hlen.
    replace (S (String.length name) - 1)%nat with (String.length name) by lia.
    rewrite substring_last, substring_init. simpl.
    destruct name; [done|]. simpl. by destruct post. }
  rewrite length_append. simpl String.length.
  replace (5 + (String.length name + 1) + 2 - 1)%nat
    with (String.length ("{ _." +:+ name +:+ " }}")).
  - replace ("{ _." +:+ name +:+ " }}" +:+ post)
      with (("{ _." +:+ name +:+ " }}") +:+ post)
      by (by rewrite !append_assoc).
    by rewrite replaceFrom_skip.
  - rewrite !length_append. simpl. lia.
Qed.

Lemma templating_rewrites_a_template_witness :
  Insomnia.replaceInsomniaTemplating
    ("{{ _." +:+ "base_url" +:+ " }}" +:+ "/users")
  = "<<" +:+ "base_url" +:+ ">>" +:+ "/users".
Proof.
  rewrite (templating_rewrites_a_template "base_url" "/users");
    [reflexivity|done|reflexivity].
Defined.

(** ** The shape of what the import mapper produces *)

Section MapperProperties.

Import Insomnia.

Variable knownContentTypes : list string.

Lemma getHoppFolder_more_fuel (fuel : nat) (folderRes : InsomniaResource)
    (resources : list InsomniaResource) (collection : HoppCollection) :
  getHoppFolder knownContentTypes fuel folderRes resources = Some collection →
  getHoppFolder knownContentTypes (S fuel) folderRes resources
  = Some collection.
Proof.
  revert folderRes collection.
  induction fuel as [|fuel IH]; intros f c; [discriminate|].
  intros H. cbn [getHoppFolder] in H |- *.
  destruct (mapM (λ g, getHoppFolder knownContentTypes fuel g resources)
              (getFoldersIn (Some f) resources)) as [folders|] eqn:E;
    [|discriminate].
  apply mapM_Some_1 in E.
  rewrite (mapM_Some_2
             (λ g, getHoppFolder knownContentTypes (S fuel) g resources)
             _ folders); [exact H|].
  eapply Forall2_impl; [exact E|]. intros g d Hg. by apply IH.
Qed.

(** A result of the mapping does not depend on the recursion bound: once a
    bound suffices for a batch of documents, every larger bound gives the
    same collections. *)
Theorem import_result_stable_under_more_fuel
    (fuel extra : nat) (docs : list InsomniaDoc)
    (collections : list HoppCollection) :
  getHoppCollections knownContentTypes fuel docs = Some collections →
  getHoppCollections knownContentTypes (extra + fuel) docs = Some collections.
Proof.
  induction extra as [|extra IH]; [done|]. intros H. specialize (IH H).
  clear H. simpl. unfold getHoppCollections in *.
  destruct (mapM _ docs) as [per|] eqn:E in IH; [|discriminate].
  apply mapM_Some_1 in E.
  rewrite (mapM_Some_2 _ docs per); [exact IH|].
  eapply Forall2_impl; [exact E|]. intros doc cs Hdoc. simpl in *.
  apply mapM_Some_1 in Hdoc. apply mapM_Some_2.
  eapply Forall2_impl; [exact Hdoc|]. intros g d Hg.
  by apply getHoppFolder_more_fuel.
Qed.

(** A group that names itself as its parent sends [getHoppFolder] into a
    recursion without end: no bound on the depth gives a result. *)
Theorem self_parent_group_never_maps
    (fuel : nat) (folderRes : InsomniaResource)
    (resources : list InsomniaResource) (id : string) :
  folderRes ∈ resources →
  _id folderRes = Some id →
  parentId folderRes = ParentOf id →
  _type folderRes = "request_group" ∨ _type folderRes = "workspace" →
  getHoppFolder knownContentTypes fuel folderRes resources = None.
Proof.
  intros Hin Hid Hparent Htype.
  induction fuel as [|fuel IH]; [reflexivity|]. cbn [getHoppFolder].
  rewrite (mapM_None_2 _ (getFoldersIn (Some folderRes) resources));
    [reflexivity|].
  apply Exists_exists. exists folderRes. split; [|exact IH].
  apply list_elem_of_In. unfold getFoldersIn. apply filter_In.
  split; [by apply list_elem_of_In|].
  unfold parentIs. simpl. rewrite Hparent, Hid, String.eqb_refl.
  destruct Htype as [-> | ->]; reflexivity.
Qed.

End MapperProperties.

Lemma self_parent_group_never_maps_witness :
  Insomnia.getHoppFolder [] 5
    (Insomnia.mkResource (Some "g") "request_group" (Insomnia.ParentOf "g")
       None None None None None None None)
    [Insomnia.mkResource (Some "g") "request_group" (Insomnia.ParentOf "g")
       None None None None None None None]
  = None.
Proof.
  apply (self_parent_group_never_maps [] 5 _ _ "g");
    [apply list_elem_of_here|reflexivity|reflexivity|by left].
Defined.

Lemma import_result_stable_under_more_fuel_witness :
  Insomnia.getHoppCollections [] (3 + 1) [scenarioDoc]
  = Some [Insomnia.makeCollection "Group" []
            [Insomnia.makeRESTRequest "Login" "POST"
               "https://<<host>>/login" (AuthBasic true "" "")
               Insomnia.ReqBodyNull [] [] "" ""]
            (AuthInherit true) []].
Proof.
  apply (import_result_stable_under_more_fuel [] 1 3 [scenarioDoc]).
  vm_compute. reflexivity.
Defined.

(** A document none of whose resources is a group or workspace at the top
    level (parent [null]) imports as no collection at all, whatever requests
    it holds and whatever the recursion bound. *)
Theorem document_without_top_level_group_imports_nothing
    (knownContentTypes : list string) (fuel : nat) (doc : Insomnia.InsomniaDoc) :
  Forall (λ x, (Insomnia._type x ≠ "request_group"
                ∧ Insomnia._type x ≠ "workspace")
               ∨ Insomnia.parentId x ≠ Insomnia.ParentNull)
    (Insomnia.resources doc) →
  Insomnia.getHoppCollections knownContentTypes fuel [doc] = Some [].
Proof.
  intros Hall. unfold Insomnia.getHoppCollections.
  assert (Insomnia.getFoldersIn None (Insomnia.resources doc) = []) as Hnone.
  { unfold Insomnia.getFoldersIn.
    induction Hall as [|x xs Hx _ IH]; [reflexivity|]. simpl.
    rewrite IH.
    destruct Hx as [[H1 H2]|Hp].
    - apply String.eqb_neq in H1, H2. by rewrite H1, H2.
    - unfold Insomnia.parentIs. simpl.
      destruct (Insomnia.parentId x); try done;
        by rewrite andb_false_r. }
  simpl. by rewrite Hnone.
Qed.

Lemma document_without_top_level_group_imports_nothing_witness :
  Insomnia.getHoppCollections [] 0 [Insomnia.mkDoc [scenarioRequest]] = Some [].
Proof.
  apply document_without_top_level_group_imports_nothing.
  repeat constructor; discriminate.
Defined.

(** The imported auth is never "inherit"; a basic or bearer auth is always
    active, also when the foreign auth is disabled, and only an oauth2 auth
    carries the foreign [disabled] flag over (negated), with an empty
    discovery URL and token. *)
Theorem imported_auth_activity (req : Insomnia.InsomniaResource) :
  match Insomnia.getHoppReqAuth req with
  | AuthInherit _ => False
  | AuthNone active | AuthBasic active _ _ | AuthBearer active _ =>
      active = true
  | AuthOAuth2 active _ _ _ discovery _ token =>
      discovery = EmptyString ∧ token = EmptyString
      ∧ ∃ foreign, Insomnia.authentication req = Some foreign
          ∧ active = negb (default false (Insomnia.disabled foreign))
  end.
Proof.
  unfold Insomnia.getHoppReqAuth.
  destruct (Insomnia.authentication req) as [a|]; [|reflexivity].
  repeat case_bool_decide; try reflexivity. eauto.
Qed.

(** A body given as an object never imports with a content type outside the
    recognised ones: the result is no body, form data, or text typed as
    url-encoded form or as one of the known content types. *)
Theorem imported_object_body_has_known_type
    (knownContentTypes : list string) (req : Insomnia.InsomniaResource)
    (mimeType : option string) (params : option (list Insomnia.InsoParam))
    (text : option string) :
  Insomnia.body req = Some (Insomnia.BodyObject mimeType params text) →
  match Insomnia.getHoppReqBody knownContentTypes req with
  | Insomnia.ReqBodyNull => True
  | Insomnia.ReqBodyFormData _ => mimeType = Some "multipart/form-data"
  | Insomnia.ReqBodyText contentType _ =>
      contentType = "application/x-www-form-urlencoded"
      ∨ contentType ∈ knownContentTypes
  end.
Proof.
  intros Hbody. unfold Insomnia.getHoppReqBody. rewrite Hbody.
  repeat case_bool_decide; auto.
Qed.

Lemma imported_object_body_has_known_type_witness :
  match Insomnia.getHoppReqBody ["application/json"]
          (Insomnia.mkResource None "request" Insomnia.ParentNull None None
             None None
             (Some (Insomnia.BodyObject (Some "application/x-protobuf") None
                      (Some "payload")))
             None None) with
  | Insomnia.ReqBodyNull => True
  | Insomnia.ReqBodyFormData _ =>
      Some "application/x-protobuf" = Some "multipart/form-data"
  | Insomnia.ReqBodyText contentType _ =>
      contentType = "application/x-www-form-urlencoded"
      ∨ contentType ∈ ["application/json"]
  end.
Proof.
  apply (imported_object_body_has_known_type ["application/json"] _
           (Some "application/x-protobuf") None (Some "payload")).
  reflexivity.
Defined.

(** ** Infra-config: reading back what was written *)

Section InfraConfigOpsProperties.

Import InfraConfig InfraConfigOps.

Variables validateSMTPUrl validateSMTPEmail validateUrl : string → bool.

Abbreviation validOne :=
  (InfraConfig.validateEnvValue validateSMTPUrl validateSMTPEmail validateUrl).
Abbreviation updateOne :=
  (InfraConfigOps.update validateSMTPUrl validateSMTPEmail validateUrl).
Abbreviation updateBatch :=
  (InfraConfig.updateMany validateSMTPUrl validateSMTPEmail validateUrl).

Lemma find_fmap_same {A} (p : A → bool) (f : A → A) (l : list A) :
  (∀ x, p (f x) = p x) → List.find p (f <$> l) = f <$> List.find p l.
Proof.
  intros Hp. induction l as [|x l IH]; [reflexivity|].
  rewrite fmap_cons. simpl. rewrite Hp. by destruct (p x).
Qed.

Lemma existsb_find {A} (p : A → bool) (l : list A) :
  existsb p l = bool_decide (is_Some (List.find p l)).
Proof.
  induction l as [|x l IH]; simpl; [reflexivity|].
  destruct (p x); simpl; [reflexivity|exact IH].
Qed.

Lemma updateRow_spec (config : InfraConfigArgs) (rows : list InfraConfigArgs) :
  updateRow config rows
  = if bool_decide (is_Some (findUnique (name config) rows))
    then Some ((λ row, if bool_decide (name row = name config)
                       then mkArgs (name row) (value config) else row)
               <$> rows)
    else None.
Proof.
  unfold updateRow, findUnique, hasName. by rewrite existsb_find.
Qed.

Lemma updateRow_names (config : InfraConfigArgs)
    (rows rows' : list InfraConfigArgs) :
  updateRow config rows = Some rows' → name <$> rows' = name <$> rows.
Proof.
  rewrite updateRow_spec. case_bool_decide; [|discriminate].
  intros [= <-]. rewrite <- list_fmap_compose. apply list_fmap_ext.
  intros i row _. simpl. by case_bool_decide.
Qed.

Lemma updateRow_find (config : InfraConfigArgs)
    (rows rows' : list InfraConfigArgs) (n : InfraConfigEnum) :
  updateRow config rows = Some rows' →
  findUnique n rows'
  = if bool_decide (n = name config)
    then Some (mkArgs n (value config))
    else findUnique n rows.
Proof.
  rewrite updateRow_spec. case_bool_decide as Hsome; [|discriminate].
  intros [= <-]. unfold findUnique in *.
  rewrite find_fmap_same
    by (intros x; unfold hasName;
        by destruct (bool_decide (name x = name config))).
  case_bool_decide as Hn.
  - subst n. destruct Hsome as [row Hrow]. rewrite Hrow. simpl.
    apply find_some in Hrow as [_ Hname].
    apply bool_decide_eq_true_1 in Hname.
    by rewrite bool_decide_eq_true_2, Hname.
  - destruct (List.find (hasName n) rows) as [row|] eqn:E; [|reflexivity].
    simpl. apply find_some in E as [_ Hname].
    apply bool_decide_eq_true_1 in Hname.
    rewrite bool_decide_eq_false_2; [reflexivity|congruence].
Qed.

(** [update] in full: an invalid value is refused and a name without a row
    fails, both without touching the backend; otherwise the call returns
    the new name/value pair, [get] of that name then reads the new value,
    [get] of every other name reads what it read before, the names in the
    table are the same, and the app is stopped exactly when asked. *)
Theorem update_then_get (n : InfraConfigEnum) (v : string)
    (restartEnabled : bool) (world : Backend) :
  (validOne (mkArgs n v) = false →
   updateOne n v restartEnabled world = (inl INFRA_CONFIG_INVALID_INPUT, world))
  ∧ (validOne (mkArgs n v) = true →
     findUnique n (infraConfig world) = None →
     updateOne n v restartEnabled world
     = (inl INFRA_CONFIG_UPDATE_FAILED, world))
  ∧ (validOne (mkArgs n v) = true →
     is_Some (findUnique n (infraConfig world)) →
     ∃ world',
       updateOne n v restartEnabled world = (inr (mkArgs n v), world')
       ∧ get n world' = inr (mkArgs n v)
       ∧ (∀ n', n' ≠ n → get n' world' = get n' world)
       ∧ name <$> infraConfig world' = name <$> infraConfig world
       ∧ stopAppCalls world'
         = if restartEnabled then S (stopAppCalls world)
           else stopAppCalls world).
Proof.
  unfold InfraConfigOps.update. simpl. split; [|split].
  - by intros ->.
  - intros -> Hnone. rewrite updateRow_spec. simpl. rewrite Hnone.
    by rewrite bool_decide_eq_false_2 by (intros [? ?]; discriminate).
  - intros -> Hsome.
    destruct (updateRow (mkArgs n v) (infraConfig world)) as [rows|] eqn:E.
    + eexists. split; [reflexivity|]. unfold get. simpl.
      split; [|split; [|split]].
      * rewrite (updateRow_find _ _ _ n E). simpl.
        by rewrite bool_decide_eq_true_2.
      * intros n' Hne. rewrite (updateRow_find _ _ _ n' E). simpl.
        by rewrite bool_decide_eq_false_2.
      * by apply (updateRow_names _ _ _ E).
      * reflexivity.
    + rewrite updateRow_spec in E. simpl in E.
      by rewrite bool_decide_eq_true_2 in E.
Qed.

Lemma find_app {A} (p : A → bool) (l1 l2 : list A) :
  List.find p (l1 ++ l2)
  = match List.find p l1 with
    | Some x => Some x
    | None => List.find p l2
    end.
Proof.
  induction l1 as [|x l1 IH]; [reflexivity|]. simpl. by destruct (p x).
Qed.

Lemma updateAll_cons (config : InfraConfigArgs) (rest rows : list InfraConfigArgs) :
  updateAll (config :: rest) rows
  = rows' ← updateRow config rows; updateAll rest rows'.
Proof.
  unfold updateAll. simpl. destruct (updateRow config rows); [reflexivity|].
  simpl. induction rest as [|c rest IH]; [reflexivity|exact IH].
Qed.

Lemma updateAll_spec (configs rows rows' : list InfraConfigArgs) :
  updateAll configs rows = Some rows' →
  name <$> rows' = name <$> rows
  ∧ ∀ n, findUnique n rows'
         = match List.find (hasName n) (rev configs) with
           | Some config => Some (mkArgs n (value config))
           | None => findUnique n rows
           end.
Proof.
  revert rows. induction configs as [|c cs IH]; intros rows.
  - intros [= <-]. by split.
  - rewrite updateAll_cons.
    destruct (updateRow c rows) as [rows1|] eqn:E; [|discriminate]. simpl.
    intros H. destruct (IH _ H) as [Hnames Hfind]. split.
    + rewrite Hnames. by apply (updateRow_names _ _ _ E).
    + intros n. rewrite Hfind. simpl rev.
      rewrite find_app.
      destruct (List.find (hasName n) (rev cs)) as [c'|] eqn:Ec;
        [reflexivity|]. simpl.
      rewrite (updateRow_find _ _ _ n E). unfold hasName.
      rewrite (bool_decide_ext (name c = n) (n = name c)) by done.
      by case_bool_decide.
Qed.

(** A batch update that succeeds returns the batch, stops the app once,
    keeps the names in the table, and leaves every name with the value of
    the last entry of the batch that names it (an earlier entry of the same
    name is overwritten); names outside the batch read as before. *)
Theorem updateMany_last_entry_wins
    (infraConfigs returned : list InfraConfigArgs) (world world' : Backend) :
  updateBatch infraConfigs world = (inr returned, world') →
  returned = infraConfigs
  ∧ stopAppCalls world' = S (stopAppCalls world)
  ∧ name <$> infraConfig world' = name <$> infraConfig world
  ∧ ∀ n, get n world'
         = match List.find (hasName n) (rev infraConfigs) with
           | Some config => inr (mkArgs n (value config))
           | None => get n world
           end.
Proof.
  unfold InfraConfig.updateMany.
  destruct (validateEnvValues _ _ _ infraConfigs); [discriminate|].
  destruct (updateAll infraConfigs (infraConfig world)) as [rows|] eqn:E;
    [|discriminate].
  intros [= <- <-]. destruct (updateAll_spec _ _ _ E) as [Hnames Hfind].
  repeat split; [exact Hnames|]. intros n. unfold get. simpl.
  rewrite Hfind. by destruct (List.find (hasName n) (rev infraConfigs)).
Qed.

End InfraConfigOpsProperties.

Lemma update_then_get_witness :
  ∃ world',
    InfraConfigOps.update (λ _, true) (λ _, true) (λ _, true)
      InfraConfig.GITHUB_SCOPE "repo" true
      (InfraConfig.mkBackend
         [InfraConfig.mkArgs InfraConfig.GITHUB_SCOPE "user"] 0)
    = (inr (InfraConfig.mkArgs InfraConfig.GITHUB_SCOPE "repo"), world')
    ∧ InfraConfigOps.get InfraConfig.GITHUB_SCOPE world'
      = inr (InfraConfig.mkArgs InfraConfig.GITHUB_SCOPE "repo").
Proof.
  destruct (update_then_get (λ _, true) (λ _, true) (λ _, true)
              InfraConfig.GITHUB_SCOPE "repo" true
              (InfraConfig.mkBackend
                 [InfraConfig.mkArgs InfraConfig.GITHUB_SCOPE "user"] 0))
    as (_ & _ & Hok).
  destruct Hok as (world' & H1 & H2 & _); [reflexivity|by eexists|].
  by exists world'.
Defined.

Lemma updateMany_last_entry_wins_witness :
  InfraConfig.stopAppCalls
    (InfraConfig.mkBackend
       [InfraConfig.mkArgs InfraConfig.GITHUB_SCOPE "b"] 1)
  = S (InfraConfig.stopAppCalls
         (InfraConfig.mkBackend
            [InfraConfig.mkArgs InfraConfig.GITHUB_SCOPE "user"] 0)).
Proof.
  apply (updateMany_last_entry_wins (λ _, true) (λ _, true) (λ _, true)
           [InfraConfig.mkArgs InfraConfig.GITHUB_SCOPE "a";
            InfraConfig.mkArgs InfraConfig.GITHUB_SCOPE "b"]
           [InfraConfig.mkArgs InfraConfig.GITHUB_SCOPE "a";
            InfraConfig.mkArgs InfraConfig.GITHUB_SCOPE "b"]).
  reflexivity.
Defined.

(** ** Infra-config: seeding and resetting the table *)

Section InfraConfigTableProperties.

Import InfraConfig InfraConfigOps.

Lemma elem_of_filter_list {A} (q : A → bool) (l : list A) (x : A) :
  x ∈ List.filter q l ↔ x ∈ l ∧ q x = true.
Proof. rewrite !list_elem_of_In. apply filter_In. Qed.

Lemma find_none_by_name (n : InfraConfigEnum) (l : list InfraConfigArgs) :
  n ∉ name <$> l → findUnique n l = None.
Proof.
  unfold findUnique, hasName. induction l as [|row l IH]; [reflexivity|].
  rewrite fmap_cons, not_elem_of_cons. intros [Hne Hl]. simpl.
  rewrite bool_decide_eq_false_2 by congruence. by apply IH.
Qed.

Lemma find_unique_name (l : list InfraConfigArgs) (d : InfraConfigArgs) :
  NoDup (name <$> l) → d ∈ l → findUnique (name d) l = Some d.
Proof.
  unfold findUnique, hasName. induction l as [|row l IH]; intros Hnd Hd.
  - by apply elem_of_nil in Hd.
  - rewrite fmap_cons in Hnd. apply NoDup_cons in Hnd as [Hrow Hnd]. simpl.
    apply elem_of_cons in Hd as [->|Hd].
    + by rewrite bool_decide_eq_true_2.
    + rewrite bool_decide_eq_false_2; [by apply IH|].
      intros Heq. apply Hrow. rewrite Heq. by apply list_elem_of_fmap_2.
Qed.

Lemma filter_names_NoDup (q : InfraConfigArgs → bool) (l : list InfraConfigArgs) :
  NoDup (name <$> l) → NoDup (name <$> List.filter q l).
Proof.
  induction l as [|row l IH]; [done|].
  rewrite fmap_cons. intros [Hrow Hnd]%NoDup_cons. simpl.
  destruct (q row); [|by apply IH].
  rewrite fmap_cons. apply NoDup_cons. split; [|by apply IH].
  intros (x & Hx & Hin)%list_elem_of_fmap.
  apply elem_of_filter_list in Hin as [Hin _].
  apply Hrow. rewrite Hx. by apply list_elem_of_fmap_2.
Qed.

Lemma find_filter_keep (p q : InfraConfigArgs → bool) (l : list InfraConfigArgs) :
  (∀ x, p x = true → q x = true) →
  List.find p (List.filter q l) = List.find p l.
Proof.
  intros Hpq. induction l as [|row l IH]; [reflexivity|]. simpl.
  destruct (q row) eqn:Eq; simpl.
  - by rewrite IH.
  - destruct (p row) eqn:Ep; [|exact IH].
    apply Hpq in Ep. congruence.
Qed.

Lemma filter_filter_same {A} (q : A → bool) (l : list A) :
  List.filter q (List.filter q l) = List.filter q l.
Proof.
  induction l as [|x l IH]; [reflexivity|]. simpl.
  destruct (q x) eqn:E; simpl; [by rewrite E, IH|exact IH].
Qed.

Lemma filter_none {A} (q : A → bool) (l : list A) :
  (∀ x, x ∈ l → q x = false) → List.filter q l = [].
Proof.
  induction l as [|x l IH]; [reflexivity|]. intros H. simpl.
  rewrite (H x) by apply list_elem_of_here.
  apply IH. intros y Hy. apply H. by apply list_elem_of_further.
Qed.

Lemma cast_id (row : InfraConfigArgs) : cast row = row.
Proof. by destruct row. Qed.

(** Resetting to defaults whose names are distinct and include the
    first-time-setup flag, on a table with distinct names: the call
    succeeds and stops the app once; afterwards every default other than
    the flag reads with its default value, the flag reads ["true"], names
    outside the defaults read as before, the names stay distinct, and a
    second reset leaves the same table. *)
Theorem reset_installs_the_defaults
    (defaults : list InfraConfigArgs) (world : Backend) :
  NoDup (name <$> infraConfig world) →
  NoDup (name <$> defaults) →
  IS_FIRST_TIME_INFRA_SETUP ∈ name <$> defaults →
  ∃ rows,
    reset defaults world
    = (inr true, mkBackend rows (S (stopAppCalls world)))
    ∧ NoDup (name <$> rows)
    ∧ (∀ d, d ∈ defaults → name d ≠ IS_FIRST_TIME_INFRA_SETUP →
            get (name d) (mkBackend rows (S (stopAppCalls world))) = inr d)
    ∧ get IS_FIRST_TIME_INFRA_SETUP (mkBackend rows (S (stopAppCalls world)))
      = inr (mkArgs IS_FIRST_TIME_INFRA_SETUP "true")
    ∧ (∀ n, n ∉ name <$> defaults →
            get n (mkBackend rows (S (stopAppCalls world))) = get n world)
    ∧ reset defaults (mkBackend rows (S (stopAppCalls world)))
      = (inr true, mkBackend rows (S (S (stopAppCalls world)))).
Proof.
  intros Hrows Hdef Hflag.
  set (kept := deleteMany (name <$> defaults) (infraConfig world)).
  set (updated :=
         List.filter
           (λ obj, negb (bool_decide (name obj = IS_FIRST_TIME_INFRA_SETUP)))
           defaults).
  set (data := updated ++ [mkArgs IS_FIRST_TIME_INFRA_SETUP "true"]).
  assert (∀ n, n ∈ name <$> kept → n ∉ name <$> defaults) as Hkept.
  { intros n (row & -> & Hrow)%list_elem_of_fmap.
    apply elem_of_filter_list in Hrow as [_ Hq].
    apply negb_true_iff, bool_decide_eq_false_1 in Hq. exact Hq. }
  assert (∀ n, n ∈ name <$> data → n ∈ name <$> defaults) as Hdata.
  { intros n (row & -> & Hrow)%list_elem_of_fmap.
    apply elem_of_app in Hrow as [Hrow|Hrow].
    - apply elem_of_filter_list in Hrow as [Hrow _].
      by apply list_elem_of_fmap_2.
    - apply list_elem_of_singleton in Hrow as ->. exact Hflag. }
  assert (IS_FIRST_TIME_INFRA_SETUP ∉ name <$> updated) as Hnoflag.
  { intros (row & Hname & Hrow)%list_elem_of_fmap.
    apply elem_of_filter_list in Hrow as [_ Hq].
    apply negb_true_iff, bool_decide_eq_false_1 in Hq. by apply Hq. }
  assert (NoDup (name <$> data)) as Hnd_data.
  { unfold data. rewrite fmap_app. apply NoDup_app.
    split; [by apply filter_names_NoDup|]. split; [|apply NoDup_singleton].
    intros n Hn Hn'. apply list_elem_of_singleton in Hn'. simpl in Hn'.
    subst n. by apply Hnoflag. }
  assert (NoDup (name <$> (kept ++ data))) as Hnd.
  { rewrite fmap_app. apply NoDup_app.
    split; [by apply filter_names_NoDup|]. split; [|exact Hnd_data].
    intros n Hn Hn'. by apply (Hkept n Hn), Hdata. }
  assert (∀ calls,
            reset defaults (mkBackend (infraConfig world) calls)
            = (inr true, mkBackend (kept ++ data) (S calls))) as Hreset.
  { intros calls. unfold reset, createMany. simpl.
    fold kept updated data. by rewrite bool_decide_eq_true_2. }
  exists (kept ++ data). split.
  { destruct world as [rows calls]. apply Hreset. }
  split; [exact Hnd|].
  assert (∀ n, n ∈ name <$> defaults → findUnique n kept = None) as Hgone.
  { intros n Hn. apply find_none_by_name. intros Hk. by apply (Hkept n Hk). }
  split; [|split; [|split]].
  - intros d Hd Hne. unfold get, findUnique. simpl. rewrite find_app.
    fold (findUnique (name d) kept).
    rewrite Hgone by by apply list_elem_of_fmap_2.
    unfold data. rewrite find_app. fold (findUnique (name d) updated).
    rewrite find_unique_name; [by rewrite cast_id|by apply filter_names_NoDup|].
    apply elem_of_filter_list. split; [exact Hd|].
    by apply negb_true_iff, bool_decide_eq_false_2.
  - unfold get, findUnique. simpl. rewrite find_app.
    fold (findUnique IS_FIRST_TIME_INFRA_SETUP kept).
    rewrite Hgone by exact Hflag.
    unfold data. rewrite find_app.
    fold (findUnique IS_FIRST_TIME_INFRA_SETUP updated).
    by rewrite find_none_by_name by exact Hnoflag.
  - intros n Hn. unfold get, findUnique. simpl. rewrite find_app.
    unfold kept, deleteMany. rewrite find_filter_keep.
    + destruct (List.find (hasName n) (infraConfig world)); [reflexivity|].
      fold (findUnique n data). rewrite find_none_by_name; [reflexivity|].
      intros Hd. by apply Hn, Hdata.
    + intros x Hx. apply bool_decide_eq_true_1 in Hx.
      apply negb_true_iff, bool_decide_eq_false_2. by rewrite Hx.
  - unfold reset, createMany. simpl. fold updated. fold data.
    assert (deleteMany (name <$> defaults) (kept ++ data) = kept) as ->.
    { unfold deleteMany. rewrite List.filter_app.
      unfold kept at 1. unfold deleteMany. rewrite filter_filter_same.
      fold (deleteMany (name <$> defaults) (infraConfig world)). fold kept.
      rewrite (filter_none _ data); [by rewrite app_nil_r|].
      intros x Hx. apply negb_false_iff, bool_decide_eq_true_2.
      by apply Hdata, list_elem_of_fmap_2. }
    by rewrite bool_decide_eq_true_2.
Qed.

(** Seeding the table on a reachable database, with as many defaults as
    enum members and distinct names on both sides: the call returns; the
    rows that were there are kept in place and only defaults are appended;
    afterwards every default name has a row and the names are distinct;
    and a second run changes nothing and does not stop the app again. *)
Theorem seeding_is_idempotent
    (enumValues : list InfraConfigEnum) (defaults : list InfraConfigArgs)
    (world : Backend) :
  List.length enumValues = List.length defaults →
  NoDup (name <$> infraConfig world) →
  NoDup (name <$> defaults) →
  ∃ world' added,
    initializeInfraConfigTable enumValues defaults DbReachable world
    = (InitReturned, world')
    ∧ infraConfig world' = infraConfig world ++ added
    ∧ (∀ d, d ∈ added → d ∈ defaults)
    ∧ (∀ d, d ∈ defaults → is_Some (findUnique (name d) (infraConfig world')))
    ∧ NoDup (name <$> infraConfig world')
    ∧ initializeInfraConfigTable enumValues defaults DbReachable world'
      = (InitReturned, world').
Proof.
  intros Hlen Hrows Hdef.
  set (missing := λ rows : list InfraConfigArgs,
         List.filter
           (λ p, negb (existsb (λ e, bool_decide (name e = name p)) rows))
           defaults).
  assert (∀ rows d, d ∈ defaults →
            d ∈ missing rows ∨ is_Some (findUnique (name d) rows)) as Hsplit.
  { intros rows d Hd.
    destruct (existsb (λ e, bool_decide (name e = name d)) rows) eqn:E.
    - right. rewrite existsb_find in E. by apply bool_decide_eq_true_1 in E.
    - left. apply elem_of_filter_list. split; [exact Hd|]. by rewrite E. }
  assert (∀ w, missing (infraConfig w) = [] →
            initializeInfraConfigTable enumValues defaults DbReachable w
            = (InitReturned, w)) as Hnothing.
  { intros w Hw. unfold initializeInfraConfigTable.
    rewrite Hlen, Nat.eqb_refl. simpl. fold (missing (infraConfig w)).
    by rewrite Hw. }
  destruct (missing (infraConfig world)) as [|m ms] eqn:Hm.
  - exists world, []. rewrite app_nil_r.
    split; [by apply Hnothing|]. split; [reflexivity|].
    split; [intros d Hd; by apply elem_of_nil in Hd|].
    split; [|split; [exact Hrows|by apply Hnothing]].
    intros d Hd. destruct (Hsplit (infraConfig world) d Hd) as [Hin|Hok];
      [|exact Hok].
    rewrite Hm in Hin. by apply elem_of_nil in Hin.
  - assert (NoDup (name <$> (infraConfig world ++ m :: ms))) as Hnd.
    { rewrite fmap_app. apply NoDup_app. split; [exact Hrows|].
      split; [|rewrite <- Hm; by apply filter_names_NoDup].
      intros n Hn (d & -> & Hd)%list_elem_of_fmap. rewrite <- Hm in Hd.
      apply elem_of_filter_list in Hd as [_ Hq].
      apply negb_true_iff in Hq. rewrite existsb_find in Hq.
      apply bool_decide_eq_false_1 in Hq. apply Hq.
      apply list_elem_of_fmap in Hn as (row & Hname & Hrow).
      fold (hasName (name d)). fold (findUnique (name d) (infraConfig world)).
      rewrite Hname. rewrite find_unique_name by assumption. by eexists. }
    assert (∀ d, d ∈ defaults →
              is_Some (findUnique (name d) (infraConfig world ++ m :: ms)))
      as Hall.
    { intros d Hd. unfold findUnique. rewrite find_app.
      destruct (Hsplit (infraConfig world) d Hd) as [Hin|[row Hrow]].
      - fold (findUnique (name d) (infraConfig world)).
        destruct (findUnique (name d) (infraConfig world)); [by eexists|].
        fold (findUnique (name d) (m :: ms)). rewrite Hm in Hin.
        rewrite find_unique_name; [by eexists| |exact Hin].
        rewrite <- Hm. by apply filter_names_NoDup.
      - unfold findUnique in Hrow. rewrite Hrow. by eexists. }
    exists (mkBackend (infraConfig world ++ m :: ms) (S (stopAppCalls world))),
      (m :: ms).
    split.
    { unfold initializeInfraConfigTable, createMany.
      rewrite Hlen, Nat.eqb_refl. simpl. fold (missing (infraConfig world)).
      rewrite Hm. simpl. by rewrite bool_decide_eq_true_2. }
    split; [reflexivity|].
    split.
    { intros d Hd. rewrite <- Hm in Hd.
      by apply elem_of_filter_list in Hd as [Hd _]. }
    split; [exact Hall|]. split; [exact Hnd|].
    apply Hnothing. simpl. apply filter_none. intros d Hd.
    apply negb_false_iff. rewrite existsb_find.
    apply bool_decide_eq_true_2. by apply Hall.
Qed.

End InfraConfigTableProperties.

Lemma reset_installs_the_defaults_witness :
  ∃ rows,
    InfraConfigOps.reset
      [InfraConfig.mkArgs InfraConfig.GITHUB_SCOPE "user";
       InfraConfig.mkArgs InfraConfigOps.IS_FIRST_TIME_INFRA_SETUP "false"]
      (InfraConfig.mkBackend
         [InfraConfig.mkArgs InfraConfig.GITHUB_SCOPE "repo"] 0)
    = (inr true, InfraConfig.mkBackend rows 1)
    ∧ InfraConfigOps.get InfraConfigOps.IS_FIRST_TIME_INFRA_SETUP
        (InfraConfig.mkBackend rows 1)
      = inr (InfraConfig.mkArgs InfraConfigOps.IS_FIRST_TIME_INFRA_SETUP "true").
Proof.
  destruct (reset_installs_the_defaults
              [InfraConfig.mkArgs InfraConfig.GITHUB_SCOPE "user";
               InfraConfig.mkArgs InfraConfigOps.IS_FIRST_TIME_INFRA_SETUP
                 "false"]
              (InfraConfig.mkBackend
                 [InfraConfig.mkArgs InfraConfig.GITHUB_SCOPE "repo"] 0))
    as (rows & H1 & _ & _ & H2 & _).
  - simpl. apply NoDup_singleton.
  - simpl. apply NoDup_cons. split; [|apply NoDup_singleton].
    intros H%list_elem_of_singleton. discriminate.
  - simpl. apply list_elem_of_further, list_elem_of_here.
  - by exists rows.
Defined.

Lemma seeding_is_idempotent_witness :
  ∃ world' added,
    InfraConfigOps.initializeInfraConfigTable
      [InfraConfig.GITHUB_SCOPE; InfraConfig.GOOGLE_SCOPE]
      [InfraConfig.mkArgs InfraConfig.GITHUB_SCOPE "user";
       InfraConfig.mkArgs InfraConfig.GOOGLE_SCOPE "email"]
      InfraConfigOps.DbReachable
      (InfraConfig.mkBackend
         [InfraConfig.mkArgs InfraConfig.GITHUB_SCOPE "repo"] 0)
    = (InfraConfigOps.InitReturned, world')
    ∧ InfraConfig.infraConfig world'
      = [InfraConfig.mkArgs InfraConfig.GITHUB_SCOPE "repo"] ++ added.
Proof.
  destruct (seeding_is_idempotent
              [InfraConfig.GITHUB_SCOPE; InfraConfig.GOOGLE_SCOPE]
              [InfraConfig.mkArgs InfraConfig.GITHUB_SCOPE "user";
               InfraConfig.mkArgs InfraConfig.GOOGLE_SCOPE "email"]
              (InfraConfig.mkBackend
                 [InfraConfig.mkArgs InfraConfig.GITHUB_SCOPE "repo"] 0))
    as (world' & added & H1 & H2 & _).
  - reflexivity.
  - simpl. apply NoDup_singleton.
  - simpl. apply NoDup_cons. split; [|apply NoDup_singleton].
    intros H%list_elem_of_singleton. discriminate.
  - by exists world', added.
Defined.

(** ** Infra-config: enabling and disabling sign-in providers *)

Section SSOProperties.

Import InfraConfig InfraConfigOps.

Variables validateSMTPUrl validateSMTPEmail validateUrl : string → bool.
Variable providerName : AuthProvider → string.
Variable allowedAuthProvidersEnv : string.

Abbreviation ssoTurn := (InfraConfigOps.ssoStep providerName).
Abbreviation sso :=
  (InfraConfigOps.enableAndDisableSSO validateSMTPUrl validateSMTPEmail
     validateUrl providerName allowedAuthProvidersEnv).

Lemma uniqueInOrder_from (seen xs : list string) :
  NoDup seen →
  let result :=
    foldl (λ seen x, if bool_decide (x ∈ seen) then seen else seen ++ [x])
      seen xs in
  NoDup result ∧ ∀ x, x ∈ result ↔ x ∈ seen ∨ x ∈ xs.
Proof.
  revert seen. induction xs as [|y xs IH]; intros seen Hseen; simpl.
  - split; [exact Hseen|]. intros x. rewrite elem_of_nil. tauto.
  - case_bool_decide as Hy.
    + destruct (IH seen Hseen) as [Hnd Hin]. split; [exact Hnd|].
      intros x. rewrite Hin, elem_of_cons. split; [tauto|].
      intros [?|[->|?]]; tauto.
    + assert (NoDup (seen ++ [y])) as Hseen'.
      { apply NoDup_app. split; [exact Hseen|].
        split; [|apply NoDup_singleton].
        by intros x Hx ->%list_elem_of_singleton. }
      destruct (IH _ Hseen') as [Hnd Hin]. split; [exact Hnd|].
      intros x. rewrite Hin, elem_of_app, list_elem_of_singleton, elem_of_cons.
      tauto.
Qed.

Lemma ssoStep_thrown (m : InfraConfigEnum → option string)
    (l : list EnableAndDisableSSOArgs) :
  foldl (ssoTurn m) None l = None.
Proof. induction l as [|info l IH]; [reflexivity|exact IH]. Qed.

Lemma ssoStep_members (m : InfraConfigEnum → option string)
    (l : list EnableAndDisableSSOArgs) (acc result : list string) :
  foldl (ssoTurn m) (Some acc) l = Some result →
  ∀ p, p ∈ result →
       p ∈ acc ∨ ∃ info, info ∈ l ∧ status info = ENABLE
                         ∧ p = providerName (provider info).
Proof.
  revert acc. induction l as [|info l IH]; intros acc.
  - intros [= <-] p Hp. by left.
  - simpl. destruct (status info) eqn:Es.
    + destruct (isServiceConfigured (provider info) m).
      * intros H p Hp. destruct (IH _ H p Hp) as [Hacc|(i & Hi & He & ->)].
        -- apply elem_of_app in Hacc as [Hacc|Hnew]; [by left|].
           apply list_elem_of_singleton in Hnew as ->. right.
           exists info. split; [apply list_elem_of_here|by split].
        -- right. exists i. split; [by apply list_elem_of_further|by split].
      * by rewrite ssoStep_thrown.
    + intros H p Hp. destruct (IH _ H p Hp) as [Hacc|(i & Hi & He & ->)].
      * left. by apply elem_of_filter_list in Hacc as [Hacc _].
      * right. exists i. split; [by apply list_elem_of_further|by split].
Qed.

(** An entry that enables a provider whose settings are not all present
    makes the call throw, wherever the entry stands in the list, and
    nothing is written and the app is not stopped. *)
Theorem enabling_an_unconfigured_provider_throws
    (providerInfo : list EnableAndDisableSSOArgs) (world : Backend) :
  Exists (λ info,
            status info = ENABLE
            ∧ isServiceConfigured (provider info)
                (getInfraConfigsMap (infraConfig world)) = false)
    providerInfo →
  sso providerInfo world = (ThrewServiceNotConfigured, world).
Proof.
  intros Hbad. unfold enableAndDisableSSO.
  assert (∀ acc,
            foldl (ssoTurn (getInfraConfigsMap (infraConfig world))) acc
              providerInfo = None) as ->; [|reflexivity].
  induction Hbad as [info l [Hs Hc]|info l _ IH]; intros acc.
  - simpl. destruct acc as [acc|]; simpl; [|apply ssoStep_thrown].
    rewrite Hs, Hc. apply ssoStep_thrown.
  - simpl. apply IH.
Qed.

(** When the call returns [true], the row of the allowed providers holds a
    comma-joined list that is not empty and repeats no provider, each of
    them either allowed before or enabled by an entry of the call; every
    other name reads as before and the app was stopped once. *)
Theorem sso_stores_distinct_providers
    (providerInfo : list EnableAndDisableSSOArgs) (world world' : Backend) :
  sso providerInfo world = (Returned (inr true), world') →
  ∃ providers,
    providers ≠ []
    ∧ NoDup providers
    ∧ (∀ p, p ∈ providers →
            p ∈ JS.split "," allowedAuthProvidersEnv
            ∨ ∃ info, info ∈ providerInfo ∧ status info = ENABLE
                      ∧ p = providerName (provider info))
    ∧ get VITE_ALLOWED_AUTH_PROVIDERS world'
      = inr (mkArgs VITE_ALLOWED_AUTH_PROVIDERS (JS.join "," providers))
    ∧ (∀ n, n ≠ VITE_ALLOWED_AUTH_PROVIDERS → get n world' = get n world)
    ∧ stopAppCalls world' = S (stopAppCalls world).
Proof.
  unfold enableAndDisableSSO.
  destruct (foldl _ _ providerInfo) as [result|] eqn:Hfold; [|discriminate].
  destruct (uniqueInOrder_from [] result (NoDup_nil_2)) as [Hnd Hin].
  fold (uniqueInOrder result) in Hnd, Hin.
  destruct (uniqueInOrder result) as [|p ps] eqn:Hu; [discriminate|].
  simpl length. cbn [Nat.eqb].
  unfold InfraConfigOps.update. simpl validateEnvValues.
  cbv iota beta.
  destruct (updateRow _ (infraConfig world)) as [rows|] eqn:E;
    [|discriminate].
  intros [= <-]. exists (p :: ps).
  split; [discriminate|]. split; [exact Hnd|]. split; [|split; [|split]].
  - intros q Hq. apply (ssoStep_members _ _ _ _ Hfold).
    apply Hin in Hq as [Hq|Hq]; [by apply elem_of_nil in Hq|exact Hq].
  - unfold get. simpl infraConfig.
    by rewrite (updateRow_find _ _ _ _ E).
  - intros n Hn. unfold get. simpl infraConfig.
    rewrite (updateRow_find _ _ _ _ E). simpl.
    by rewrite bool_decide_eq_false_2.
  - reflexivity.
Qed.

End SSOProperties.

Lemma enabling_an_unconfigured_provider_throws_witness :
  InfraConfigOps.enableAndDisableSSO (λ _, true) (λ _, true) (λ _, true)
    (λ _, "GITHUB") "EMAIL"
    [InfraConfigOps.mkSSOArgs InfraConfigOps.GOOGLE InfraConfigOps.DISABLE;
     InfraConfigOps.mkSSOArgs InfraConfigOps.GITHUB InfraConfigOps.ENABLE]
    (InfraConfig.mkBackend
       [InfraConfig.mkArgs InfraConfigOps.VITE_ALLOWED_AUTH_PROVIDERS "EMAIL"]
       0)
  = (InfraConfigOps.ThrewServiceNotConfigured,
     InfraConfig.mkBackend
       [InfraConfig.mkArgs InfraConfigOps.VITE_ALLOWED_AUTH_PROVIDERS "EMAIL"]
       0).
Proof.
  apply enabling_an_unconfigured_provider_throws.
  apply Exists_cons_tl, Exists_cons_hd. by split.
Defined.

Lemma sso_stores_distinct_providers_witness :
  ∃ providers,
    providers ≠ [] ∧ NoDup providers
    ∧ InfraConfigOps.get InfraConfigOps.VITE_ALLOWED_AUTH_PROVIDERS
        (InfraConfig.mkBackend
           [InfraConfig.mkArgs InfraConfig.MAILER_SMTP_URL "smtp://host";
            InfraConfig.mkArgs InfraConfig.MAILER_ADDRESS_FROM "a@b.c";
            InfraConfig.mkArgs InfraConfigOps.VITE_ALLOWED_AUTH_PROVIDERS
              "GITHUB,EMAIL"]
           1)
      = inr (InfraConfig.mkArgs InfraConfigOps.VITE_ALLOWED_AUTH_PROVIDERS
               (JS.join "," providers)).
Proof.
  destruct (sso_stores_distinct_providers (λ _, true) (λ _, true) (λ _, true)
              (λ _, "EMAIL") "GITHUB"
              [InfraConfigOps.mkSSOArgs InfraConfigOps.EMAIL
                 InfraConfigOps.ENABLE;
               InfraConfigOps.mkSSOArgs InfraConfigOps.EMAIL
                 InfraConfigOps.ENABLE]
              (InfraConfig.mkBackend
                 [InfraConfig.mkArgs InfraConfig.MAILER_SMTP_URL "smtp://host";
                  InfraConfig.mkArgs InfraConfig.MAILER_ADDRESS_FROM "a@b.c";
                  InfraConfig.mkArgs InfraConfigOps.VITE_ALLOWED_AUTH_PROVIDERS
                    "GITHUB"]
                 0)
              (InfraConfig.mkBackend
                 [InfraConfig.mkArgs InfraConfig.MAILER_SMTP_URL "smtp://host";
                  InfraConfig.mkArgs InfraConfig.MAILER_ADDRESS_FROM "a@b.c";
                  InfraConfig.mkArgs InfraConfigOps.VITE_ALLOWED_AUTH_PROVIDERS
                    "GITHUB,EMAIL"]
                 1))
    as (providers & H1 & H2 & _ & H3 & _).
  - vm_compute. reflexivity.
  - exists providers. by repeat split.
Defined.

(** ** Infra-config: reading several rows, and the analytics switch *)

Section InfraConfigReadProperties.

Import InfraConfig InfraConfigOps.

Variables validateSMTPUrl validateSMTPEmail validateUrl : string → bool.

Lemma cast_all (rows : list InfraConfigArgs) : cast <$> rows = rows.
Proof.
  induction rows as [|row rows IH]; [reflexivity|].
  by rewrite fmap_cons, cast_id, IH.
Qed.

(** On a table with distinct names, [getMany] never fails for a name that
    has no row: it returns exactly the rows that [get] finds for the
    requested names, and a requested name without a row is simply absent
    from the answer. *)
Theorem getMany_agrees_with_get
    (names : list InfraConfigEnum) (world : Backend) :
  NoDup (name <$> infraConfig world) →
  ∃ rows,
    getMany names world = inr rows
    ∧ ∀ row, row ∈ rows ↔ name row ∈ names ∧ get (name row) world = inr row.
Proof.
  intros Hnd. eexists. split; [reflexivity|]. intros row.
  rewrite cast_all, elem_of_filter_list. unfold get.
  split.
  - intros [Hrow Hname]. apply bool_decide_eq_true_1 in Hname.
    split; [exact Hname|].
    by rewrite (find_unique_name _ _ Hnd Hrow), cast_id.
  - intros [Hname Hget]. split; [|by apply bool_decide_eq_true_2].
    destruct (findUnique (name row) (infraConfig world)) as [found|] eqn:E;
      [|discriminate].
    rewrite cast_id in Hget. injection Hget as ->.
    apply find_some in E as [Hin _]. by apply list_elem_of_In.
Qed.

(** The analytics switch: without a row for the setting the call fails and
    writes nothing; with one it returns whether analytics is now on, the
    stored value reads ["true"] or ["false"] accordingly, every other
    name reads as before, and the app is not stopped. *)
Theorem analytics_switch_reads_back (s : ServiceStatus) (world : Backend) :
  (findUnique ALLOW_ANALYTICS_COLLECTION (infraConfig world) = None →
   toggleAnalyticsCollection validateSMTPUrl validateSMTPEmail validateUrl
     s world
   = (inl INFRA_CONFIG_UPDATE_FAILED, world))
  ∧ (is_Some (findUnique ALLOW_ANALYTICS_COLLECTION (infraConfig world)) →
     ∃ world',
       toggleAnalyticsCollection validateSMTPUrl validateSMTPEmail validateUrl
         s world
       = (inr (match s with ENABLE => true | DISABLE => false end), world')
       ∧ get ALLOW_ANALYTICS_COLLECTION world'
         = inr (mkArgs ALLOW_ANALYTICS_COLLECTION
                  (match s with ENABLE => "true" | DISABLE => "false" end))
       ∧ (∀ n, n ≠ ALLOW_ANALYTICS_COLLECTION → get n world' = get n world)
       ∧ stopAppCalls world' = stopAppCalls world).
Proof.
  unfold toggleAnalyticsCollection, InfraConfigOps.update.
  simpl validateEnvValues. cbv iota beta. split.
  - intros Hnone. rewrite updateRow_spec. simpl name. rewrite Hnone.
    by rewrite bool_decide_eq_false_2 by (intros [? ?]; discriminate).
  - intros Hsome.
    destruct (updateRow _ (infraConfig world)) as [rows|] eqn:E.
    + eexists. split; [by destruct s|]. unfold get. simpl infraConfig.
      split; [|split; [|reflexivity]].
      * by rewrite (updateRow_find _ _ _ _ E).
      * intros n Hn. rewrite (updateRow_find _ _ _ _ E). simpl.
        by rewrite bool_decide_eq_false_2.
    + rewrite updateRow_spec in E. simpl name in E.
      by rewrite bool_decide_eq_true_2 in E.
Qed.

End InfraConfigReadProperties.

Lemma getMany_agrees_with_get_witness :
  ∃ rows,
    InfraConfigOps.getMany
      [InfraConfig.GITHUB_SCOPE; InfraConfig.GOOGLE_SCOPE]
      (InfraConfig.mkBackend
         [InfraConfig.mkArgs InfraConfig.GITHUB_SCOPE "repo"] 0)
    = inr rows
    ∧ ∀ row,
        row ∈ rows
        ↔ InfraConfig.name row
            ∈ [InfraConfig.GITHUB_SCOPE; InfraConfig.GOOGLE_SCOPE]
          ∧ InfraConfigOps.get (InfraConfig.name row)
              (InfraConfig.mkBackend
                 [InfraConfig.mkArgs InfraConfig.GITHUB_SCOPE "repo"] 0)
            = inr row.
Proof.
  apply (getMany_agrees_with_get
           [InfraConfig.GITHUB_SCOPE; InfraConfig.GOOGLE_SCOPE]
           (InfraConfig.mkBackend
              [InfraConfig.mkArgs InfraConfig.GITHUB_SCOPE "repo"] 0)).
  simpl. apply NoDup_singleton.
Defined.
